(** * SUGAR (sk_sugar/core.py): a shallow embedding and its properties

    The development follows [src/sk_sugar/core.py] function by function:
    [validate_sigma], [gauss_kernel], [degrees], [local_covariance],
    [feature_scale], [numpts], [generate], [matlab_percentile],
    [magic], [mgc_magic], [sugar] and [generate_imbalanced_circle].

    Numbers.  NumPy computes on IEEE-754 doubles.  The model keeps the three
    classes of values the code itself distinguishes (NaN, the infinities and
    the finite numbers) and idealises the finite ones as real numbers:
    rounding, overflow of finite results and the sign of zero are not
    modelled, with three exceptions where the code depends on them: the
    guard [+ 1e-17] of [numpts], which double precision absorbs
    ([add_guard]); the cast [astype(int)] of [generate], which is a cast to
    64-bit integers ([to_int]); and the subtractions of [feature_scale],
    which overflow to an infinity ([overflow]).  Every test the code
    performs ([np.isnan], [np.isinf], [K < 1e-3], [== 0]) is therefore
    available in the model.

    Arrays.  A one-dimensional array is a list; a two-dimensional array is a
    shape together with its element accessor, which is how every NumPy
    operation used by the code (broadcasting, [.T], [@], [np.diag],
    [np.tile], [reshape]) is defined; a stack of matrices is a list of
    two-dimensional arrays.  Arrays have no size limit: running out of
    memory is not modelled.

    Effects.  Python exceptions, the optional logger and the global random
    generator are threaded through a small state-and-error monad [Py]. *)

From Stdlib Require Import String.
From Stdlib Require Import Reals Lra Lia ZArith Bool Arith List Sorted.
Import ListNotations.
Open Scope string_scope.
Open Scope list_scope.
Open Scope R_scope.

(* ================================================================== *)
(** * Part I: definitions                                              *)
(* ================================================================== *)

(** ** Floating-point values *)

(** [Inf false] is +inf and [Inf true] is -inf. *)
Inductive fl : Type :=
| NaN
| Inf (neg : bool)
| Fin (r : R).

Definition Rneg (r : R) : bool := if Rlt_dec r 0 then true else false.
Definition Rzero (r : R) : bool := if Req_dec_T r 0 then true else false.

Definition fneg (x : fl) : fl :=
  match x with
  | NaN => NaN
  | Inf s => Inf (negb s)
  | Fin r => Fin (- r)
  end.

Definition fadd (x y : fl) : fl :=
  match x, y with
  | NaN, _ | _, NaN => NaN
  | Inf s, Inf t => if Bool.eqb s t then Inf s else NaN
  | Inf s, Fin _ | Fin _, Inf s => Inf s
  | Fin a, Fin b => Fin (a + b)
  end.

Definition fsub (x y : fl) : fl := fadd x (fneg y).

Definition fmul (x y : fl) : fl :=
  match x, y with
  | NaN, _ | _, NaN => NaN
  | Inf s, Inf t => Inf (xorb s t)
  | Inf s, Fin a | Fin a, Inf s =>
      if Rzero a then NaN else Inf (xorb s (Rneg a))
  | Fin a, Fin b => Fin (a * b)
  end.

Definition fdiv (x y : fl) : fl :=
  match x, y with
  | NaN, _ | _, NaN => NaN
  | Inf _, Inf _ => NaN
  | Inf s, Fin b => Inf (xorb s (Rneg b))
  | Fin _, Inf _ => Fin 0
  | Fin a, Fin b =>
      if Rzero b then (if Rzero a then NaN else Inf (Rneg a))
      else Fin (a / b)
  end.

Definition fexp (x : fl) : fl :=
  match x with
  | NaN => NaN
  | Inf false => Inf false
  | Inf true => Fin 0
  | Fin r => Fin (exp r)
  end.

Definition fsqrt (x : fl) : fl :=
  match x with
  | NaN => NaN
  | Inf false => Inf false
  | Inf true => NaN
  | Fin r => if Rneg r then NaN else Fin (sqrt r)
  end.

Definition ffloor (x : fl) : fl :=
  match x with
  | Fin r => Fin (IZR (Zfloor r))
  | _ => x
  end.

(** [x ** n] for a positive integer [n], by repeated multiplication. *)
Definition fpow_pos (x : fl) (n : positive) : fl :=
  Pos.iter (fun acc => fmul acc x) (Fin 1) n.

(** [np.power(x, a)] and [x ** a] for an integer exponent. *)
Definition fpow (x : fl) (a : Z) : fl :=
  match a with
  | Z0 => Fin 1
  | Zpos p => fpow_pos x p
  | Zneg p => fdiv (Fin 1) (fpow_pos x p)
  end.

(** [x ** y] for a real exponent (used with [dim / 2] and [0.5]). *)
Definition fpowr (x : fl) (y : R) : fl :=
  match x with
  | NaN => if Rzero y then Fin 1 else NaN
  | Inf false => if Rzero y then Fin 1 else if Rneg y then Fin 0 else Inf false
  | Inf true => if Rzero y then Fin 1 else if Rneg y then Fin 0 else Inf false
  | Fin r =>
      if Rzero y then Fin 1
      else if Rzero r then (if Rneg y then Inf false else Fin 0)
      else if Rneg r then NaN
      else Fin (Rpower r y)
  end.

Definition fisnan (x : fl) : bool :=
  match x with NaN => true | _ => false end.

Definition fisinf (x : fl) : bool :=
  match x with Inf _ => true | _ => false end.

(** Comparisons: every comparison with NaN is false, except [!=]. *)
Definition flt (x y : fl) : bool :=
  match x, y with
  | NaN, _ | _, NaN => false
  | Inf s, Inf t => s && negb t
  | Inf s, Fin _ => s
  | Fin _, Inf t => negb t
  | Fin a, Fin b => if Rlt_dec a b then true else false
  end.

Definition feqb (x y : fl) : bool :=
  match x, y with
  | NaN, _ | _, NaN => false
  | Inf s, Inf t => Bool.eqb s t
  | Inf _, Fin _ | Fin _, Inf _ => false
  | Fin a, Fin b => if Req_dec_T a b then true else false
  end.

Definition fle (x y : fl) : bool := flt x y || feqb x y.

Definition of_Z (z : Z) : fl := Fin (IZR z).
Definition of_nat (n : nat) : fl := Fin (INR n).

(** The real number carried by a finite value (0 for NaN and the
    infinities), and the finite values. *)
Definition to_R (x : fl) : R :=
  match x with Fin r => r | _ => 0 end.

Definition finite (x : fl) : Prop := exists r, x = Fin r.

(** Sum of a list of reals. *)
Definition Rsum (l : list R) : R := fold_right Rplus 0 l.

(** Largest element of a non-empty list of reals, and sum of a list of
    integers. *)
Definition Rmax_list (l : list R) : R :=
  match l with
  | [] => 0
  | x :: t => fold_left Rmax t x
  end.

Definition Zsum (l : list Z) : Z := fold_right Z.add 0%Z l.

(** ** One-dimensional arrays *)

Definition fsum (v : list fl) : fl := fold_right fadd (Fin 0) v.

(** [np.min] / [np.max] of two values: a NaN operand wins. *)
Definition fmin2 (x y : fl) : fl :=
  if fisnan x then x else if fisnan y then y else if flt y x then y else x.
Definition fmax2 (x y : fl) : fl :=
  if fisnan x then x else if fisnan y then y else if flt x y then y else x.

(** Order used by [np.sort]: ascending, NaN last. *)
Definition sort_le (x y : fl) : bool :=
  match x, y with
  | _, NaN => true
  | NaN, _ => false
  | _, _ => fle x y
  end.

Fixpoint insert_sorted (x : fl) (v : list fl) : list fl :=
  match v with
  | [] => [x]
  | y :: t => if sort_le x y then x :: y :: t else y :: insert_sorted x t
  end.

Definition np_sort (v : list fl) : list fl :=
  fold_right insert_sorted [] v.

(** [np.median] of a vector: NaN when empty or when a NaN is present. *)
Definition np_median (v : list fl) : fl :=
  if existsb fisnan v then NaN
  else
    let s := np_sort v in
    let n := length s in
    match n with
    | O => NaN
    | _ =>
        if Nat.even n
        then fdiv (fadd (nth (n / 2 - 1) s NaN) (nth (n / 2) s NaN)) (Fin 2)
        else nth (n / 2) s NaN
    end.

(** [np.mean]: the empty mean is 0/0 = NaN. *)
Definition np_mean (v : list fl) : fl :=
  fdiv (fsum v) (of_nat (length v)).

(** [np.std(v, ddof=1)]: the divisor is [max (n - 1) 0]. *)
Definition np_std_ddof1 (v : list fl) : fl :=
  let m := np_mean v in
  let ss := fsum (map (fun x => fmul (fsub x m) (fsub x m)) v) in
  fsqrt (fdiv ss (of_nat (length v - 1))).

(** Python indexing: a negative index counts from the end. *)
Definition py_index (n : nat) (k : Z) : option nat :=
  if (0 <=? k)%Z
  then (if (k <? Z.of_nat n)%Z then Some (Z.to_nat k) else None)
  else (if (- Z.of_nat n <=? k)%Z then Some (Z.to_nat (Z.of_nat n + k)) else None).

(** ** Two-dimensional arrays *)

Record ndarray : Type := Arr {
  shape0 : nat;
  shape1 : nat;
  item : nat -> nat -> fl
}.

Definition row (A : ndarray) (i : nat) : list fl :=
  map (fun j => item A i j) (seq 0 (shape1 A)).

Definition col (A : ndarray) (j : nat) : list fl :=
  map (fun i => item A i j) (seq 0 (shape0 A)).

Definition rows (A : ndarray) : list (list fl) :=
  map (row A) (seq 0 (shape0 A)).

Definition cols (A : ndarray) : list (list fl) :=
  map (col A) (seq 0 (shape1 A)).

(** An array literal given by its rows (finite entries). *)
Definition of_rows (l : list (list R)) : ndarray :=
  {| shape0 := length l;
     shape1 := length (hd [] l);
     item := fun i j => Fin (nth j (nth i l []) 0) |}.

(** A vector seen as a [1 x L] array, as broadcasting does. *)
Definition row_vector (v : list fl) : ndarray :=
  {| shape0 := 1; shape1 := length v; item := fun _ j => nth j v NaN |}.

Definition scalar_array (x : fl) : ndarray :=
  {| shape0 := 1; shape1 := 1; item := fun _ _ => x |}.

Definition transpose (A : ndarray) : ndarray :=
  {| shape0 := shape1 A; shape1 := shape0 A; item := fun i j => item A j i |}.

Definition map_array (f : fl -> fl) (A : ndarray) : ndarray :=
  {| shape0 := shape0 A; shape1 := shape1 A; item := fun i j => f (item A i j) |}.

Definition np_eye (n : nat) : ndarray :=
  {| shape0 := n; shape1 := n;
     item := fun i j => if Nat.eqb i j then Fin 1 else Fin 0 |}.

Definition np_diag (v : list fl) : ndarray :=
  {| shape0 := length v; shape1 := length v;
     item := fun i j => if Nat.eqb i j then nth i v NaN else Fin 0 |}.

(** [np.sum(A, axis=0)] (column sums) and [np.sum(A, axis=1)] (row sums). *)
Definition sum_axis0 (A : ndarray) : list fl := map fsum (cols A).
Definition sum_axis1 (A : ndarray) : list fl := map fsum (rows A).

(** NumPy broadcasting of one dimension: equal sizes, or one of them 1. *)
Definition broadcast_dim (a b : nat) : option nat :=
  if Nat.eqb a b then Some a
  else if Nat.eqb a 1 then Some b
  else if Nat.eqb b 1 then Some a
  else None.

Definition bidx (n i : nat) : nat := if Nat.eqb n 1 then O else i.

(** Reductions along axis 0 that have no identity ([np.min], [np.max]). *)
Definition fold1 (f : fl -> fl -> fl) (v : list fl) : option fl :=
  match v with
  | [] => None
  | x :: t => Some (fold_left f t x)
  end.

(** Matrix product entries. *)
Definition dot (u v : list fl) : fl :=
  fsum (map (fun p => fmul (fst p) (snd p)) (combine u v)).

(** ** Python effects: exceptions, the logger, the random generator *)

Inductive exn : Type :=
| ValueError (msg : string)
| IndexError (msg : string)
| AttributeError (msg : string)
| NameError (name : string)
| TypeError (msg : string)
| ZeroDivisionError (msg : string).

Inductive outcome (A : Type) : Type :=
| Ok (a : A)
| Raise (e : exn).
Arguments Ok {A} a.
Arguments Raise {A} e.

(** A bandwidth once resolved: a scalar or a vector (one entry per column). *)
Inductive sigma_val : Type :=
| SigScalar (x : fl)
| SigVector (v : list fl).

(** The [sigma] argument as the caller passes it: a string, a number, a
    callable on the distance matrix, or an object that is none of these
    (for instance [None]). *)
Inductive sigma_spec : Type :=
| SigmaStr (s : string)
| SigmaNum (x : fl)
| SigmaFun (f : ndarray -> sigma_val)
| SigmaNone.

(** What is observable of a run besides its result: the records sent to
    the logger and, as ghost events, the calls of
    [scipy.spatial.distance.cdist] and the draws from the generator. *)
Inductive event : Type :=
| LogInfo (msg : string)
| LogWarning (msg : string)
| LogValue (label : string) (v : list fl)
| LogBandwidth (label : string) (v : sigma_val)
| LogPercent (ratio : fl)
| CallCdist (n1 n2 : nat)
| Draw (mean : list fl).

Record world : Type := World {
  trace : list event;
  draws : nat
}.

Definition Py (A : Type) : Type := world -> outcome A * world.

Definition ret {A} (a : A) : Py A := fun w => (Ok a, w).
Definition raise {A} (e : exn) : Py A := fun w => (Raise e, w).
Definition bind {A B} (m : Py A) (k : A -> Py B) : Py B :=
  fun w =>
    match m w with
    | (Ok a, w') => k a w'
    | (Raise e, w') => (Raise e, w')
    end.
Definition emit (e : event) : Py unit :=
  fun w => (Ok tt, {| trace := trace w ++ [e]; draws := draws w |}).
Definition lift {A} (o : outcome A) : Py A := fun w => (o, w).
Definition from_option {A} (o : option A) (e : exn) : Py A :=
  match o with Some a => ret a | None => raise e end.

Declare Scope py_scope.
Delimit Scope py_scope with py.
Notation "x <- m ;; k" := (bind m (fun x => k))
  (at level 61, m at next level, right associativity) : py_scope.
Notation "' pat <- m ;; k" := (bind m (fun x => match x with pat => k end))
  (at level 61, pat pattern, m at next level, right associativity) : py_scope.
Notation "m ;;; k" := (bind m (fun _ => k))
  (at level 61, right associativity) : py_scope.
Open Scope py_scope.

(** A computation that raises from every starting state. *)
Definition never_returns {A} (m : Py A) : Prop :=
  forall w, exists e w', m w = (Raise e, w').

(** A postcondition on the values a computation can return. *)
Definition ensures {A} (m : Py A) (Q : A -> Prop) : Prop :=
  forall w a w', m w = (Ok a, w') -> Q a.

(** The trace only grows: a computation that keeps every event already
    recorded. *)
Definition keeps_trace {A} (m : Py A) : Prop :=
  forall w e, In e (trace w) -> In e (trace (snd (m w))).

(** A computation that records the event [e] on every run, and one that
    always returns normally. *)
Definition emits {A} (e : event) (m : Py A) : Prop :=
  forall w, In e (trace (snd (m w))).

Definition always_returns {A} (m : Py A) : Prop :=
  forall w, exists a w', m w = (Ok a, w').

(** [if logger: logger.<level>(...)]: the logger is optional. *)
Definition log (logger : bool) (e : event) : Py unit :=
  if logger then emit e else ret tt.

(** A Python [for] loop that threads an accumulator. *)
Fixpoint for_each {A S} (l : list A) (body : A -> S -> Py S) (s : S) : Py S :=
  match l with
  | [] => ret s
  | x :: t => s' <- body x s ;; for_each t body s'
  end.

(** ** validate_sigma (core.py 38-75) *)

Definition VALID_SIGMAS : list string := ["minmax"; "median"; "std"; "knn"].

Definition str_in (s : string) (l : list string) : bool :=
  existsb (String.eqb s) l.

(** [sigma in VALID_SIGMAS or callable(sigma) or isinstance(sigma, (int, float))] *)
Definition is_known (sigma : sigma_spec) : bool :=
  match sigma with
  | SigmaStr s => str_in s VALID_SIGMAS
  | SigmaFun _ => true
  | SigmaNum _ => true
  | SigmaNone => false
  end.

(** The text of [sigma] inside the f-string; numbers and functions are
    not spelled out. *)
Definition sigma_repr (sigma : sigma_spec) : string :=
  match sigma with
  | SigmaStr s => s
  | SigmaNum _ => "<number>"
  | SigmaFun _ => "<function>"
  | SigmaNone => "None"
  end.

Definition newline : string := String (Ascii.ascii_of_nat 10) EmptyString.

Definition sigma_message (sigma : sigma_spec) (known : bool) : string :=
  String.concat EmptyString
    ["sigma ("; sigma_repr sigma; ") is "; if known then EmptyString else "not ";
     "known or callable."; newline;
     "known sigmas include ['minmax', 'median', 'std', 'knn']"].

Definition validate_sigma (sigma : sigma_spec) (logger : bool) : Py unit :=
  let known := is_known sigma in
  let message := sigma_message sigma known in
  log logger (LogInfo message) ;;;
  if negb known then raise (ValueError message) else ret tt.

(** ** gauss_kernel (core.py 78-181) *)

(** [scipy.spatial.distance.cdist(data1, data2, metric='euclidean')]: the
    two sets must have the same number of columns. *)
Definition euclid (u v : list fl) : fl :=
  fsqrt (fsum (map (fun p => fmul (fsub (fst p) (snd p)) (fsub (fst p) (snd p)))
                   (combine u v))).

Definition distance_matrix (data1 data2 : ndarray) : ndarray :=
  {| shape0 := shape0 data1;
     shape1 := shape0 data2;
     item := fun i j => euclid (row data1 i) (row data2 j) |}.

Definition cdist (data1 data2 : ndarray) : Py ndarray :=
  emit (CallCdist (shape0 data1) (shape0 data2)) ;;;
  if Nat.eqb (shape1 data1) (shape1 data2)
  then ret (distance_matrix data1 data2)
  else raise (ValueError "XA and XB must have the same number of columns").

Definition broadcast_error : exn :=
  ValueError "operands could not be broadcast together".

(** Binary element-wise operation with broadcasting. *)
Definition broadcast2 (op : fl -> fl -> fl) (A B : ndarray) : outcome ndarray :=
  match broadcast_dim (shape0 A) (shape0 B), broadcast_dim (shape1 A) (shape1 B) with
  | Some r, Some c =>
      Ok {| shape0 := r; shape1 := c;
            item := fun i j =>
              op (item A (bidx (shape0 A) i) (bidx (shape1 A) j))
                 (item B (bidx (shape0 B) i) (bidx (shape1 B) j)) |}
  | _, _ => Raise broadcast_error
  end.

Definition sigma_array (s : sigma_val) : ndarray :=
  match s with
  | SigScalar x => scalar_array x
  | SigVector v => row_vector v
  end.

Definition sigma_scale (s : sigma_val) (fac : Z) : sigma_val :=
  match s with
  | SigScalar x => SigScalar (fmul x (of_Z fac))
  | SigVector v => SigVector (map (fun x => fmul x (of_Z fac)) v)
  end.

(** [np.min(A, axis=0)]: fails when there is no row to reduce. *)
Definition min_axis0 (A : ndarray) : outcome (list fl) :=
  match shape0 A with
  | O => Raise (ValueError "zero-size array to reduction operation minimum which has no identity")
  | S n => Ok (map (fun j => fold_left fmin2 (map (fun i => item A i j) (seq 1 n)) (item A 0%nat j))
                   (seq 0 (shape1 A)))
  end.

(** [np.max(v)] of a vector. *)
Definition np_max (v : list fl) : outcome fl :=
  match fold1 fmax2 v with
  | Some x => Ok x
  | None => Raise (ValueError "zero-size array to reduction operation maximum which has no identity")
  end.

Definition ten15 : R := 1e15.

(** The [minmax] branch (core.py 140-143). *)
Definition sigma_minmax (D : ndarray) : outcome sigma_val :=
  match broadcast2 fadd D (map_array (fun x => fmul x (Fin ten15)) (np_eye (shape0 D))) with
  | Raise e => Raise e
  | Ok shifted =>
      match min_axis0 shifted with
      | Raise e => Raise e
      | Ok min_dev =>
          match np_max min_dev with
          | Raise e => Raise e
          | Ok eps_val => Ok (SigScalar (fmul (Fin 2) (fpow eps_val 2)))
          end
      end
  end.

(** The [median] branch: median of the row medians. *)
Definition sigma_median (D : ndarray) : sigma_val :=
  SigScalar (np_median (map np_median (rows D))).

(** The [std] branch: sample standard deviation of the column means. *)
Definition sigma_std (D : ndarray) : sigma_val :=
  SigScalar (np_std_ddof1 (map np_mean (cols D))).

(** The [knn] branch: row [k] of the column-wise sorted distances. *)
Definition sigma_knn (D : ndarray) (k : Z) : outcome sigma_val :=
  match py_index (shape0 D) k with
  | None => Raise (IndexError "index is out of bounds for axis 0")
  | Some i => Ok (SigVector (map (fun c => nth i (np_sort c) NaN) (cols D)))
  end.

(** Resolution of the bandwidth, in the order of the [if]/[elif] chain. *)
Definition resolve_sigma (sigma : sigma_spec) (D : ndarray) (k : Z) : outcome sigma_val :=
  match sigma with
  | SigmaStr s =>
      if String.eqb s "minmax" then sigma_minmax D
      else if String.eqb s "median" then Ok (sigma_median D)
      else if String.eqb s "std" then Ok (sigma_std D)
      else if String.eqb s "knn" then sigma_knn D k
      else Raise (TypeError "ufunc 'divide' not supported for the input types")
  | SigmaNum x => Ok (SigScalar x)
  | SigmaFun f => Ok (f D)
  | SigmaNone => Raise (TypeError "unsupported operand type(s) for *")
  end.

Definition noise_floor : R := 1e-3.

(** [K[np.isnan(K)] = 0] followed by [K[np.where(K < 1e-3)] = 0]. *)
Definition zero_nan (x : fl) : fl := if fisnan x then Fin 0 else x.
Definition zero_small (x : fl) : fl := if flt x (Fin noise_floor) then Fin 0 else x.

(** [(K + K.T) / 2] for a square [K]. *)
Definition symmetrize (K : ndarray) : ndarray :=
  {| shape0 := shape0 K; shape1 := shape1 K;
     item := fun i j => fdiv (fadd (item K i j) (item K j i)) (Fin 2) |}.

(** The bandwidth applied to column [j], the affinity before cleaning, and
    the two cleaning steps together. *)
Definition bandwidth_at (s : sigma_val) (j : nat) : fl :=
  match s with
  | SigScalar x => x
  | SigVector v => nth j v NaN
  end.

Definition raw_affinity (D : ndarray) (s : sigma_val) (a : Z) (i j : nat) : fl :=
  fexp (fneg (fpow (fdiv (item D i j) (bandwidth_at s j)) a)).

Definition clean (x : fl) : fl := zero_small (zero_nan x).

(** A resolved bandwidth with one entry per column of an [n]-column
    distance matrix (or a scalar). *)
Definition bandwidth_fits (s : sigma_val) (n : nat) : Prop :=
  match s with
  | SigScalar _ => True
  | SigVector v => length v = n
  end.

Definition gauss_kernel (data1 data2 : ndarray) (sigma : sigma_spec)
    (k a fac : Z) (logger : bool) : Py (ndarray * sigma_val) :=
  validate_sigma sigma logger ;;;
  D <- cdist data1 data2 ;;
  s <- lift (resolve_sigma sigma D k) ;;
  let s := sigma_scale s fac in
  K <- lift (broadcast2 fdiv D (sigma_array s)) ;;
  let K := map_array (fun x => fexp (fneg (fpow x a))) K in
  let K := map_array zero_nan K in
  let K := map_array zero_small K in
  let K := if Nat.eqb (shape0 K) (shape1 K) then symmetrize K else K in
  ret (K, s).

(** ** degrees (core.py 184-248) *)

Definition degrees (data : ndarray) (sigma : sigma_spec) (k a fac : Z)
    (logger : bool) : Py (list fl * list fl * sigma_val) :=
  validate_sigma sigma logger ;;;
  let N := shape1 data in
  '(K, s) <- gauss_kernel data data sigma k a fac logger ;;
  let p := sum_axis0 K in
  let d_hat := map (fun x => fdiv (fmul x (of_nat N)) (fsum p)) p in
  let s_hat := map (fun x => fdiv (Fin 1) x) d_hat in
  ret (d_hat, s_hat, s).

(** ** The noise model handed to [numpts] and [generate]

    [noise_cov] is a Python number, or the array built by
    [local_covariance]: a stack of [D x D] matrices, which degenerates to a
    vector of numbers when [D = 1] because [np.cov] squeezes its result. *)
Inductive noise_model : Type :=
| NoiseScalar (c : fl)
| NoiseVector (v : list fl)
| NoiseMatrices (covs : list ndarray).

(** ** local_covariance (core.py 251-291) *)

(** [np.cov(points, rowvar=False)] before squeezing: unbiased covariance of
    the columns of [points]; the divisor is [max (rows - 1) 0]. *)
Definition np_cov (points : ndarray) : ndarray :=
  let n := shape0 points in
  let centred := fun c => let m := np_mean (col points c) in
                          map (fun x => fsub x m) (col points c) in
  {| shape0 := shape1 points; shape1 := shape1 points;
     item := fun a b => fdiv (dot (centred a) (centred b)) (of_nat (n - 1)) |}.

(** [data[idx, :]] *)
Definition take_rows (data : ndarray) (idx : list nat) : ndarray :=
  {| shape0 := length idx; shape1 := shape1 data;
     item := fun i j => item data (nth i idx O) j |}.

Section Collaborators.

(** [sklearn.neighbors.NearestNeighbors(n_neighbors=k).fit(data)
    .kneighbors(data[i])]: the indices of the [k] nearest rows, or the
    library's exception. *)
Variable kneighbors : ndarray -> Z -> nat -> outcome (list nat).

(** The sample that [np.random.multivariate_normal(mean, cov)] returns at
    the [n]-th draw from the global generator. *)
Variable mvn_sample : nat -> list fl -> ndarray -> list fl.

Definition local_covariance (data : ndarray) (k : Z) : Py noise_model :=
  (* [neigh.fit(data)] rejects data without rows; its other failures
     surface at the first query *)
  (if Nat.eqb (shape0 data) 0
   then raise (ValueError "Found array with 0 sample(s) while a minimum of 1 is required by NearestNeighbors.")
   else ret tt) ;;;
  local_cov <- for_each (seq 0 (shape0 data))
                 (fun i acc =>
                    idx <- lift (kneighbors data k i) ;;
                    ret (acc ++ [np_cov (take_rows data idx)]))
                 [] ;;
  if Nat.eqb (shape1 data) 1
  then ret (NoiseVector (map (fun c => item c O O) local_cov))
  else ret (NoiseMatrices local_cov).

(** ** numpts (core.py 299-422) *)

(** [np.linalg.det] by expansion along the first row. *)
Fixpoint det (n : nat) (A : nat -> nat -> fl) : fl :=
  match n with
  | O => Fin 1
  | S m =>
      fsum (map (fun j =>
                   let minor := fun r c => A (S r) (if Nat.ltb c j then c else S c) in
                   let term := fmul (A O j) (det m minor) in
                   if Nat.even j then term else fneg term)
                (seq 0 n))
  end.

Definition np_det (A : ndarray) : outcome fl :=
  if Nat.eqb (shape0 A) (shape1 A) then Ok (det (shape0 A) (item A))
  else Raise (ValueError "Last 2 dimensions of the array must be square").

(** The result of [numpts]: shape [(N,)], or [(N, 1)] when the estimate was
    written row by row into [np.zeros((N, 1))]. *)
Inductive npts_array : Type :=
| Flat (v : list fl)
| Column (v : list fl).

Definition npts_values (n : npts_array) : list fl :=
  match n with Flat v => v | Column v => v end.

Definition with_values (n : npts_array) (v : list fl) : npts_array :=
  match n with Flat _ => Flat v | Column _ => Column v end.

Definition npts_map (f : fl -> fl) (n : npts_array) : npts_array :=
  with_values n (map f (npts_values n)).

Definition epsilon17 : R := 1e-17.
Definition ten4 : R := 10 ^ 4.

(** Element-wise product of two vectors of equal length, or of a vector
    and a one-element vector. *)
Definition vec_mul (u v : list fl) : outcome (list fl) :=
  match broadcast_dim (length u) (length v) with
  | Some n =>
      Ok (map (fun i => fmul (nth (bidx (length u) i) u NaN)
                             (nth (bidx (length v) i) v NaN)) (seq 0 n))
  | None => Raise broadcast_error
  end.

(** [((kernel_sigma**2 + noise_cov**2) / (2 * noise_cov**2)) ** (dim/2)] *)
Definition equalize_factor (sig noise : fl) (dim : Z) : fl :=
  fpowr (fdiv (fadd (fpow sig 2) (fpow noise 2)) (fmul (Fin 2) (fpow noise 2)))
        (IZR dim / 2).

(** [det(I + cov / (2 * sig**2)) ** 0.5], with [I] the identity of the
    shape of [cov]. *)
Definition equalize_det (cov : ndarray) (sig : fl) : outcome fl :=
  match broadcast2 fadd
          {| shape0 := shape0 cov; shape1 := shape1 cov;
             item := fun i j => if Nat.eqb i j then Fin 1 else Fin 0 |}
          (map_array (fun x => fdiv x (fmul (Fin 2) (fpow sig 2))) cov) with
  | Raise e => Raise e
  | Ok A => match np_det A with
            | Raise e => Raise e
            | Ok d => Ok (fpowr d (1 / 2))
            end
  end.

(** [x + 1e-17] in double precision.  For [x >= 1/8] and for [x < -1/8]
    the guard [1e-17] is less than half the spacing (at least [2^-55]) of
    the doubles next to [x], so the sum rounds to [x] again; in between the
    sum is kept as a real number. *)
Definition Rguard (r : R) : R :=
  if Rlt_dec r (1 / 8)
  then (if Rlt_dec r (- (1 / 8)) then r else r + epsilon17)
  else r.

Definition add_guard (x : fl) : fl :=
  match x with
  | Fin r => Fin (Rguard r)
  | _ => fadd x (Fin epsilon17)
  end.

(** [(number_estimate * M) / (np.sum(number_estimate) + 1e-17)] *)
Definition scale_to (M : Z) (v : list fl) : list fl :=
  map (fun x => fdiv (fmul x (of_Z M)) (add_guard (fsum v))) v.

(** [kernel_sigma[i]] when the bandwidth is adaptive, else [kernel_sigma]. *)
Definition sigma_at (kernel_sigma : sigma_val) (i : nat) : Py fl :=
  match kernel_sigma with
  | SigScalar s => ret s
  | SigVector v => from_option (nth_error v i) (IndexError "index out of bounds")
  end.

(** The equalizing estimate (core.py 367-384). *)
Definition equalized_estimate (degree : list fl) (const : fl)
    (noise_cov : noise_model) (kernel_sigma : sigma_val) (dim : option Z)
    (logger : bool) : Py npts_array :=
  match noise_cov with
  | NoiseScalar c =>
      log logger (LogInfo "Density equalizaton according to scalar noise covariance...") ;;;
      (* [... / (2 * noise_cov**2)]: a scalar bandwidth is a Python number
         (the [int | float] of the signature), and Python numbers raise on
         a zero divisor where NumPy arrays and NumPy scalars return an
         infinity or NaN *)
      (match kernel_sigma with
       | SigScalar _ =>
           if feqb (fmul (Fin 2) (fpow c 2)) (Fin 0)
           then raise (ZeroDivisionError "float division by zero")
           else ret tt
       | SigVector _ => ret tt
       end) ;;;
      match dim with
      | None => raise (TypeError "unsupported operand type(s) for /: 'NoneType' and 'int'")
      | Some d =>
          let factor :=
            match kernel_sigma with
            | SigScalar s => [equalize_factor s c d]
            | SigVector v => map (fun s => equalize_factor s c d) v
            end in
          v <- lift (vec_mul (map (fun x => fsub const x) degree) factor) ;;
          ret (Flat v)
      end
  | NoiseVector v =>
      log logger (LogInfo "Density equalizaton according to local noise covariance...") ;;;
      est <- for_each (seq 0 (length degree))
               (fun i (acc : list fl) =>
                  sig <- sigma_at kernel_sigma i ;;
                  c <- from_option (nth_error v i) (IndexError "index out of bounds") ;;
                  raise (TypeError "eye() missing 1 required positional argument: 'N'"))
               [] ;;
      ret (Column est)
  | NoiseMatrices covs =>
      log logger (LogInfo "Density equalizaton according to local noise covariance...") ;;;
      est <- for_each (seq 0 (length degree))
               (fun i acc =>
                  sig <- sigma_at kernel_sigma i ;;
                  cov <- from_option (nth_error covs i) (IndexError "index out of bounds") ;;
                  d <- lift (equalize_det cov sig) ;;
                  ret (acc ++ [fmul (fsub const (nth i degree NaN)) d]))
               [] ;;
      ret (Column est)
  end.

Definition numpts (degree : list fl) (noise_cov : noise_model)
    (kernel_sigma : sigma_val) (dim : option Z) (M : Z) (equalize : bool)
    (logger : bool) : Py npts_array :=
  let N := length degree in
  const <- lift (np_max degree) ;;
  npts <-
    (if equalize then
       number_estimate <-
         equalized_estimate degree const noise_cov kernel_sigma dim logger ;;
       if negb (Z.eqb M 0) then
         log logger (LogInfo "Applying total generation constraint M.") ;;;
         let number_sum := fsum (npts_values number_estimate) in
         (if flt (fdiv (of_Z M) number_sum) (Fin (1 / 10))
          then log logger (LogPercent (fmul (fdiv (of_Z M) number_sum) (Fin 100)))
          else ret tt) ;;;
         let number_estimate :=
           with_values number_estimate (scale_to M (npts_values number_estimate)) in
         ret (npts_map ffloor number_estimate)
       else
         ret (npts_map ffloor number_estimate)
     else
       log logger (LogInfo "Generating without density equalization") ;;;
       M <- (if Z.eqb M 0
             then log logger (LogInfo "No M supplied, M = N") ;;; ret (Z.of_nat N)
             else ret M) ;;
       let number_estimate := map (fun x => fsub const x) degree in
       let number_estimate := scale_to M number_estimate in
       ret (Flat (map ffloor number_estimate))) ;;
  if feqb (fsum (npts_values npts)) (Fin 0) then
    log logger (LogWarning "Point generation estimate < 0, either provide/increase M or decrease noise_cov.") ;;;
    ret (Flat (map (fun _ => Fin 1) degree))
  else if flt (Fin ten4) (fsum (npts_values npts)) then
    log logger (LogWarning "Point generation estimate > 1e4, either provide/decrease M or increase noise_cov.") ;;;
    ret npts
  else
    ret npts.


(** ** generate (core.py 425-513) *)

Definition INT64_MIN : Z := (- 2 ^ 63)%Z.
Definition INT64_MAX : Z := (2 ^ 63 - 1)%Z.

(** [npts.astype(int)], a cast to 64-bit integers: truncation toward zero;
    NaN, the infinities and every value whose truncation does not fit in 64
    bits are cast to the most negative integer. *)
Definition to_int (x : fl) : Z :=
  match x with
  | Fin r =>
      let z := if Rneg r then Zceil r else Zfloor r in
      if ((INT64_MIN <=? z) && (z <=? INT64_MAX))%Z then z else INT64_MIN
  | _ => INT64_MIN
  end.

(** The value of [npts[i]] after the cast; for an [(N, 1)] budget it is the
    single entry of the one-element array [npts[i]]. *)
Definition npts_at (npts : npts_array) (i : nat) : Py Z :=
  from_option (nth_error (map to_int (npts_values npts)) i)
    (IndexError "index is out of bounds for axis 0").

(** The repetition count accepted by [np.tile]. *)
Definition tile_reps (n : Z) : Py nat :=
  if (n <? 0)%Z then raise (ValueError "negative dimensions are not allowed")
  else ret (Z.to_nat n).

(** [np.tile(row.reshape(-1, 1), (1, npts[i]))] for a row of [d] values.
    For a flat budget [npts[i]] is a number.  For an [(N, 1)] budget it is
    a one-element array: [np.tile] returns a copy when every repetition
    equals 1; otherwise it repeats a non-empty row, which rejects a
    negative count, and ends on a reshape to a shape that holds that
    array, which is a TypeError. *)
Definition tile_columns (npts : npts_array) (d : nat) (n : Z) : Py nat :=
  match npts with
  | Flat _ => tile_reps n
  | Column _ =>
      if (n =? 1)%Z then ret 1%nat
      else if negb (Nat.eqb d 0) && (n <? 0)%Z
           then raise (ValueError "repeats may not contain negative values.")
           else raise (TypeError "only integer scalar arrays can be converted to a scalar index")
  end.

Definition label : Type := string.

(** [labels_out = [labels_out, new_labels]] nests the previous value. *)
Inductive labels_out_t : Type :=
| LabelsEmpty
| LabelsPair (previous : labels_out_t) (new_labels : list label).

(** [if labels: new_labels = np.tile(labels[i], npts[i]);
    labels_out = [labels_out, new_labels]] *)
Definition add_labels (labels : list label) (i reps : nat)
    (labels_out : labels_out_t) : Py labels_out_t :=
  match labels with
  | [] => ret labels_out
  | _ =>
      l <- from_option (nth_error labels i) (IndexError "list index out of range") ;;
      ret (LabelsPair labels_out (repeat l reps))
  end.

(** The objects on which the code reads the attribute [.T]. *)
Inductive pyobj : Type :=
| PyList (items : list (list fl))
| PyArray (A : ndarray).

Definition attr_T (o : pyobj) : outcome ndarray :=
  match o with
  | PyArray A => Ok (transpose A)
  | PyList _ => Raise (AttributeError "'list' object has no attribute 'T'")
  end.

(** [np.tile(cov, n).reshape(-1, r, c)] for an [r x c] matrix [cov]: the
    tiled [r x (c n)] array is re-read in row-major order. *)
Definition tile_reshape (cov : ndarray) (n : nat) : outcome (list ndarray) :=
  let r := shape0 cov in
  let c := shape1 cov in
  if Nat.eqb (r * c) 0
  then Raise (ValueError "cannot reshape array of size 0")
  else Ok (map (fun m =>
                  {| shape0 := r; shape1 := c;
                     item := fun a b =>
                       let flat := (m * r * c + a * c + b)%nat in
                       item cov (flat / (c * n)) ((flat mod (c * n)) mod c) |})
               (seq 0 n)).

Definition same_shape (A B : ndarray) : bool :=
  Nat.eqb (shape0 A) (shape0 B) && Nat.eqb (shape1 A) (shape1 B).

(** [np.vstack] of stacks of matrices: concatenation along the first axis. *)
Definition vstack (blocks : list (list ndarray)) : outcome (list ndarray) :=
  match concat blocks, blocks with
  | _, [] => Raise (ValueError "need at least one array to concatenate")
  | [], _ => Ok []
  | A :: rest, _ =>
      if forallb (same_shape A) rest then Ok (A :: rest)
      else Raise (ValueError "all the input array dimensions except for the concatenation axis must match exactly")
  end.

(** [np.vstack] of vectors: they become the rows of a matrix. *)
Definition vstack_vectors (blocks : list (list fl)) : outcome (list (list fl)) :=
  match blocks with
  | [] => Raise (ValueError "need at least one array to concatenate")
  | v :: rest =>
      if forallb (fun u => Nat.eqb (length u) (length v)) rest then Ok blocks
      else Raise (ValueError "all the input array dimensions except for the concatenation axis must match exactly")
  end.

Definition hcat (A B : ndarray) : ndarray :=
  {| shape0 := shape0 A; shape1 := shape1 A + shape1 B;
     item := fun a t => if Nat.ltb t (shape1 A) then item A a t
                        else item B a (t - shape1 A) |}.

(** [np.hstack] of matrices: concatenation along the second axis. *)
Definition hstack (blocks : list ndarray) : outcome ndarray :=
  match blocks with
  | [] => Raise (ValueError "need at least one array to concatenate")
  | A :: rest =>
      if forallb (fun B => Nat.eqb (shape0 B) (shape0 A)) rest
      then Ok (fold_left hcat rest A)
      else Raise (ValueError "all the input array dimensions except for the concatenation axis must match exactly")
  end.

(** [np.array(rows)] for a list of equally long vectors. *)
Definition array_of_rows (l : list (list fl)) : ndarray :=
  {| shape0 := length l; shape1 := length (hd [] l);
     item := fun i j => nth j (nth i l []) NaN |}.

(** [np.random.multivariate_normal(mean, cov)]: the covariance must be a
    square matrix of the size of [mean]; the sample has the shape of
    [mean] and advances the global generator. *)
Definition multivariate_normal (mean : list fl) (cov : ndarray) : Py (list fl) :=
  if Nat.eqb (shape0 cov) (shape1 cov) && Nat.eqb (length mean) (shape0 cov)
  then fun w =>
         (Ok (map (fun j => nth j (mvn_sample (draws w) mean cov) NaN)
                  (seq 0 (length mean))),
          {| trace := trace w ++ [Draw mean]; draws := S (draws w) |})
  else raise (ValueError "mean and cov must have same length; cov must be 2 dimensional and square").

Definition generate (data : ndarray) (npts : npts_array)
    (noise_cov : noise_model) (labels : list label) (logger : bool)
    : Py (ndarray * labels_out_t) :=
  match noise_cov with
  | NoiseScalar c =>
      log logger (LogInfo "Constant covariance, no need to replicate covariance") ;;;
      '(rep_centers, labels_out) <-
        for_each (seq 0 (shape0 data))
          (fun i '(rep_centers, labels_out) =>
             n <- npts_at npts i ;;
             reps <- tile_reps n ;;
             let new_center := concat (repeat (row data i) reps) in
             let rep_centers := rep_centers ++ [new_center] in
             labels_out <- add_labels labels i reps labels_out ;;
             ret (rep_centers, labels_out))
          ([], LabelsEmpty) ;;
      centers_T <- lift (attr_T (PyList rep_centers)) ;;
      (* [np.ones(1, data.shape[1])] passes the width as a dtype *)
      raise (TypeError "Cannot interpret data.shape[1] as a data type")
  | NoiseMatrices covs =>
      '(rep_centers, rep_cov, labels_out) <-
        for_each (seq 0 (shape0 data))
          (fun i '(rep_centers, rep_cov, labels_out) =>
             n <- npts_at npts i ;;
             reps <- tile_columns npts (shape1 data) n ;;
             let new_center :=
               {| shape0 := shape1 data; shape1 := reps;
                  item := fun a _ => item data i a |} in
             labels_out <- add_labels labels i reps labels_out ;;
             let rep_centers :=
               if Nat.eqb (shape0 new_center * shape1 new_center) 0
               then rep_centers else rep_centers ++ [new_center] in
             if negb (Z.eqb n 0) then
               cov <- from_option (nth_error covs i)
                        (IndexError "index is out of bounds for axis 0") ;;
               tiled <- lift (tile_reshape cov reps) ;;
               ret (rep_centers, rep_cov ++ [tiled], labels_out)
             else ret (rep_centers, rep_cov, labels_out))
          ([], [], LabelsEmpty) ;;
      rep_cov <- lift (vstack rep_cov) ;;
      rep_centers <- lift (hstack rep_centers) ;;
      centers_T <- lift (attr_T (PyArray rep_centers)) ;;
      random_points <-
        for_each (seq 0 (shape0 centers_T))
          (fun i random_points =>
             cov <- from_option (nth_error rep_cov i)
                      (IndexError "index is out of bounds for axis 0") ;;
             x <- multivariate_normal (row centers_T i) cov ;;
             ret (random_points ++ [x]))
          [] ;;
      ret (array_of_rows random_points, labels_out)
  | NoiseVector v =>
      '(rep_centers, rep_cov, labels_out) <-
        for_each (seq 0 (shape0 data))
          (fun i '(rep_centers, rep_cov, labels_out) =>
             n <- npts_at npts i ;;
             reps <- tile_columns npts (shape1 data) n ;;
             let new_center :=
               {| shape0 := shape1 data; shape1 := reps;
                  item := fun a _ => item data i a |} in
             labels_out <- add_labels labels i reps labels_out ;;
             let rep_centers :=
               if Nat.eqb (shape0 new_center * shape1 new_center) 0
               then rep_centers else rep_centers ++ [new_center] in
             if negb (Z.eqb n 0) then
               c <- from_option (nth_error v i)
                      (IndexError "index is out of bounds for axis 0") ;;
               ret (rep_centers, rep_cov ++ [repeat c reps], labels_out)
             else ret (rep_centers, rep_cov, labels_out))
          ([], [], LabelsEmpty) ;;
      rep_cov <- lift (vstack_vectors rep_cov) ;;
      rep_centers <- lift (hstack rep_centers) ;;
      centers_T <- lift (attr_T (PyArray rep_centers)) ;;
      random_points <-
        for_each (seq 0 (shape0 centers_T))
          (fun i (random_points : list (list fl)) =>
             cov <- from_option (nth_error rep_cov i)
                      (IndexError "index is out of bounds for axis 0") ;;
             (* [rep_cov[i]] is a vector, not a matrix *)
             raise (ValueError "cov must be 2 dimensional and square"))
          [] ;;
      ret (array_of_rows random_points, labels_out)
  end.

(** ** matlab_percentile (core.py 517-543) *)

(** [np.interp(x, xp, fp, left, right)] at one abscissa: walk to the last
    node not above [x], then interpolate linearly. *)
Fixpoint interp_from (x : fl) (xp fp : list fl) : fl :=
  match xp, fp with
  | x0 :: xt, y0 :: yt =>
      match xt, yt with
      | x1 :: _, y1 :: _ =>
          if fle x1 x then interp_from x xt yt
          else if feqb x0 x then y0
          else
            let slope := fdiv (fsub y1 y0) (fsub x1 x0) in
            let result := fadd (fmul slope (fsub x x0)) y0 in
            if fisnan result then
              let result := fadd (fmul slope (fsub x x1)) y1 in
              if fisnan result && feqb y0 y1 then y0 else result
            else result
      | _, _ => y0
      end
  | _, _ => NaN
  end.

Definition np_interp (x : fl) (xp fp : list fl) (left right : fl) : fl :=
  if fisnan x then x
  else if flt x (hd NaN xp) then left
  else if flt (last xp NaN) x then right
  else interp_from x xp fp.

Definition matlab_percentile (in_data : list fl) (percentiles : fl) : outcome fl :=
  let data := np_sort in_data in
  let size := length data in
  let p_rank :=
    map (fun i => fdiv (fmul (Fin 100) (fadd (of_nat i) (Fin (1 / 2)))) (of_nat size))
        (seq 0 size) in
  match data with
  | [] => Raise (IndexError "index 0 is out of bounds for axis 0 with size 0")
  | first :: _ => Ok (np_interp percentiles p_rank data first (last data NaN))
  end.

(** [np.apply_along_axis(matlab_percentile, 0, A, 95)] *)
Fixpoint collect {A} (l : list (outcome A)) : outcome (list A) :=
  match l with
  | [] => Ok []
  | Raise e :: _ => Raise e
  | Ok a :: t => match collect t with
                 | Ok r => Ok (a :: r)
                 | Raise e => Raise e
                 end
  end.

Definition percentile_axis0 (A : ndarray) (q : fl) : outcome (list fl) :=
  match shape1 A with
  | O => Raise (ValueError "Cannot apply_along_axis when any iteration dimensions are 0")
  | _ => collect (map (fun c => matlab_percentile c q) (cols A))
  end.

(** ** magic (core.py 546-612) *)

(** [A @ B] *)
Definition matmul (A B : ndarray) : outcome ndarray :=
  if Nat.eqb (shape1 A) (shape0 B)
  then Ok {| shape0 := shape0 A; shape1 := shape1 B;
             item := fun i k => dot (row A i) (col B k) |}
  else Raise (ValueError "matmul: Input operand 1 has a mismatch in its core dimension 0").

(** [diffusion_degree[np.isinf(diffusion_degree)] = 0] *)
Definition zero_inf (x : fl) : fl := if fisinf x then Fin 0 else x.

(** The diffusion operator (core.py 589-594). *)
Definition diffusion_operator_of (kernel : ndarray) : outcome ndarray :=
  let diffusion_degree := np_diag (map (fun x => fpow x (-1)) (sum_axis1 kernel)) in
  let diffusion_degree := map_array zero_inf diffusion_degree in
  matmul diffusion_degree kernel.

(** [for i in range(t): data_imputed = diffusion_operator @ data_imputed] *)
Fixpoint diffuse (steps : nat) (operator data_imputed : ndarray) : outcome ndarray :=
  match steps with
  | O => Ok data_imputed
  | S n => match matmul operator data_imputed with
           | Ok next => diffuse n operator next
           | Raise e => Raise e
           end
  end.

Definition vec_div (u v : list fl) : outcome (list fl) :=
  match broadcast_dim (length u) (length v) with
  | Some n =>
      Ok (map (fun i => fdiv (nth (bidx (length u) i) u NaN)
                             (nth (bidx (length v) i) v NaN)) (seq 0 n))
  | None => Raise broadcast_error
  end.

(** The data as [magic] uses it after its shape test: transposed when only
    its second dimension matches the kernel. *)
Definition oriented (data kernel : ndarray) : ndarray :=
  if negb (Nat.eqb (shape0 data) (shape0 kernel))
  then (if negb (Nat.eqb (shape1 data) (shape0 kernel)) then data
        else transpose data)
  else data.

Definition magic (data kernel : ndarray) (t : Z) (rescale : bool)
    (logger : bool) : Py (ndarray * ndarray) :=
  data <-
    (if negb (Nat.eqb (shape0 data) (shape0 kernel)) then
       if negb (Nat.eqb (shape1 data) (shape0 kernel)) then
         log logger (LogWarning "Data does not match kernel size") ;;; ret data
       else ret (transpose data)
     else ret data) ;;
  diffusion_operator <- lift (diffusion_operator_of kernel) ;;
  data_imputed <- lift (diffuse (Z.to_nat t) diffusion_operator data) ;;
  if rescale then
    before <- lift (percentile_axis0 data (Fin 95)) ;;
    after <- lift (percentile_axis0 data_imputed (Fin 95)) ;;
    ratio <- lift (vec_div before after) ;;
    data_imputed <- lift (broadcast2 fmul data_imputed (row_vector ratio)) ;;
    ret (data_imputed, diffusion_operator)
  else
    ret (data_imputed, diffusion_operator).

(** ** mgc_magic (core.py 615-703) *)

Definition mgc_magic (X Y : ndarray) (s_hat : list fl) (sigma : sigma_spec)
    (k a fac t : Z) (magic_rescale : bool) (logger : bool)
    : Py (ndarray * ndarray * ndarray) :=
  new_data <-
    (if Z.eqb t 0 then
       log logger (LogWarning "mgc_magic was passed t=0, no mgc_magic was performed") ;;;
       ret (Some Y)
     else ret None) ;;
  '(new_to_old, sigma_nto) <- gauss_kernel Y X sigma k a fac false ;;
  '(old_to_new, sigma_otn) <- gauss_kernel X Y sigma k a fac false ;;
  new_to_old_sparsity <- lift (broadcast2 fmul new_to_old (row_vector s_hat)) ;;
  mgc_kernel <- lift (matmul new_to_old_sparsity old_to_new) ;;
  mgc_kernel <- lift (broadcast2 fadd mgc_kernel (transpose mgc_kernel)) ;;
  let mgc_kernel := map_array (fun x => fdiv x (Fin 2)) mgc_kernel in
  '(new_data, mgc_diffusion_operator) <- magic Y mgc_kernel t magic_rescale false ;;
  ret (new_data, mgc_kernel, mgc_diffusion_operator).

(** ** sugar (core.py 706-903) *)

(** The [noise_cov] argument of [sugar]: the literal ["knn"] or a number. *)
Inductive noise_spec : Type :=
| NoiseKnn
| NoiseNum (c : fl).

(** Values bound to the local names of [sugar]. *)
Inductive pyval : Type :=
| VArray (A : ndarray)
| VVector (v : list fl)
| VNpts (n : npts_array)
| VBandwidth (s : sigma_val)
| VSigmaSpec (s : sigma_spec)
| VNoise (n : noise_model)
| VNoiseSpec (n : noise_spec)
| VLabels (l : list label)
| VLabelsOut (l : labels_out_t)
| VEmptyList
| VInt (z : Z)
| VBool (b : bool)
| VGlobal (name : string).

(** The local namespace of one call, most recent binding first. *)
Definition frame : Type := list (string * pyval).

Definition store (name : string) (v : pyval) (f : frame) : frame :=
  (name, v) :: f.

Fixpoint load_local (name : string) (f : frame) : option pyval :=
  match f with
  | [] => None
  | (n, v) :: rest => if String.eqb n name then Some v else load_local name rest
  end.

(** The names bound at module level by core.py (imports, constants and
    functions). *)
Definition module_globals : list string :=
  ["os"; "inspect"; "datetime"; "logging"; "np"; "pd"; "sp"; "pdist"; "cdist";
   "sns"; "plt"; "Union"; "Optional"; "Tuple"; "Literal"; "TypeVar";
   "Callable"; "NearestNeighbors"; "KNeighborsClassifier"; "numpy";
   "__file"; "ROOT_DIR"; "LOG_FILE"; "basename"; "logger";
   "VALID_SIGMAS"; "SigmaType"; "validate_sigma"; "gauss_kernel"; "degrees";
   "local_covariance"; "feature_scale"; "numpts"; "generate";
   "matlab_percentile"; "magic"; "mgc_magic"; "sugar"; "random";
   "generate_imbalanced_circle"].

(** Reading a name: the local namespace, then the module's. *)
Definition load (name : string) (f : frame) : Py pyval :=
  match load_local name f with
  | Some v => ret v
  | None =>
      if str_in name module_globals then ret (VGlobal name)
      else raise (NameError name)
  end.

(** A [return a, b, ...] statement evaluates the names from left to right. *)
Fixpoint return_tuple (names : list string) (f : frame) : Py (list pyval) :=
  match names with
  | [] => ret []
  | n :: rest =>
      v <- load n f ;;
      vs <- return_tuple rest f ;;
      ret (v :: vs)
  end.

Definition sugar (data : ndarray) (labels : list label) (noise_cov : noise_spec)
    (noise_k : Z) (sparsity_idx : list Z) (degree_sigma : sigma_spec)
    (degree_k degree_a degree_fac : Z) (M : Z) (equalize : bool) (mgc_t : Z)
    (mgc_sigma : sigma_spec) (mgc_k mgc_a mgc_fac : Z) (magic_rescale : bool)
    (logger : bool) : Py (list pyval) :=
  let f : frame :=
    [("data", VArray data); ("labels", VLabels labels);
     ("noise_cov", VNoiseSpec noise_cov); ("noise_k", VInt noise_k);
     ("sparsity_idx", VVector (map of_Z sparsity_idx));
     ("degree_sigma", VSigmaSpec degree_sigma); ("degree_k", VInt degree_k);
     ("degree_a", VInt degree_a); ("degree_fac", VInt degree_fac);
     ("M", VInt M); ("equalize", VBool equalize); ("mgc_t", VInt mgc_t);
     ("mgc_sigma", VSigmaSpec mgc_sigma); ("mgc_k", VInt mgc_k);
     ("mgc_a", VInt mgc_a); ("mgc_fac", VInt mgc_fac);
     ("magic_rescale", VBool magic_rescale); ("suppress", VBool false);
     ("n_jobs", VInt (-1)); ("logger", VBool logger)] in
  log logger (LogInfo "Initializing SUGAR") ;;;
  let dim := Z.of_nat (shape1 data) in
  let f := store "dim" (VInt dim) f in
  log logger (LogInfo "Obtaining Degree Estimate") ;;;
  let f := match sparsity_idx with
           | [] => store "sparsity_idx"
                     (VVector (repeat (Fin 0) (shape1 data))) f
           | _ => f
           end in
  '(d_hat, s_hat, degree_sigma) <-
     degrees data degree_sigma degree_k degree_a degree_fac logger ;;
  let f := store "degree_sigma" (VBandwidth degree_sigma)
             (store "s_hat" (VVector s_hat) (store "d_hat" (VVector d_hat) f)) in
  log logger (LogValue "d_hat" d_hat) ;;;
  log logger (LogValue "s_hat" s_hat) ;;;
  log logger (LogBandwidth "degree_sigma" degree_sigma) ;;;
  '(noise_cov, f) <-
     match noise_cov with
     | NoiseKnn =>
         log logger (LogInfo "Local Covariance estimation") ;;;
         noise <- local_covariance data noise_k ;;
         ret (noise, store "noise_cov" (VNoise noise) (store "noise" (VNoise noise) f))
     | NoiseNum c => ret (NoiseScalar c, f)
     end ;;
  log logger (LogInfo "Estimating number of points to generate") ;;;
  npts <- numpts d_hat noise_cov degree_sigma (Some dim) M equalize logger ;;
  let f := store "npts" (VNpts npts) f in
  log logger (LogInfo "Generating points") ;;;
  '(random_points, out_labels) <- generate data npts noise_cov labels false ;;
  let f := store "out_labels" (VLabelsOut out_labels)
             (store "random_points" (VArray random_points) f) in
  f <- (if (0 <? mgc_t)%Z then
          log logger (LogInfo "Diffusing points via MGC Magic") ;;;
          '(Y, mgc_kernel, mgc_diffusion_operator) <-
             mgc_magic data random_points s_hat mgc_sigma mgc_k mgc_a mgc_fac
               mgc_t magic_rescale logger ;;
          ret (store "mgc_diffusion_operator" (VArray mgc_diffusion_operator)
                 (store "mgc_kernel" (VArray mgc_kernel)
                    (store "Y" (VArray Y) f)))
        else
          ret (store "mgc_diffusion_operator" VEmptyList
                 (store "mgc_kernel" VEmptyList
                    (store "Y" (VArray random_points) f)))) ;;
  return_tuple ["Y"; "out_labels"; "d_hat"; "s_hat"; "sigma"; "noise"; "npts";
                "random_points"; "mgc_kernel"; "mgc_diffusion_operator"] f.

End Collaborators.

(** ** feature_scale (core.py 294-296) *)

(** [np.min(v)] of a vector. *)
Definition np_min (v : list fl) : outcome fl :=
  match fold1 fmin2 v with
  | Some x => Ok x
  | None => Raise (ValueError "zero-size array to reduction operation minimum which has no identity")
  end.

(** The elements of an array in row-major order, as a reduction without an
    axis reads them. *)
Definition ravel (A : ndarray) : list fl := concat (rows A).

(** The largest double, and the result of an operation whose exact value
    is [x]: a value beyond the largest double is an infinity. *)
Definition DBL_MAX : R := (2 - / 2 ^ 52) * 2 ^ 1023.

Definition overflow (x : fl) : fl :=
  match x with
  | Fin r => if Rlt_dec DBL_MAX (Rabs r) then Inf (Rneg r) else Fin r
  | _ => x
  end.

(** [np.divide(x - np.min(x), np.max(x) - np.min(x))]: the two differences
    can overflow; the quotient of two finite differences is at most 1. *)
Definition feature_scale (x : ndarray) : outcome ndarray :=
  match np_min (ravel x) with
  | Raise e => Raise e
  | Ok lo =>
      let shifted := map_array (fun v => overflow (fsub v lo)) x in
      match np_max (ravel x) with
      | Raise e => Raise e
      | Ok hi =>
          match np_min (ravel x) with
          | Raise e => Raise e
          | Ok lo' =>
              Ok (map_array (fun v => fdiv v (overflow (fsub hi lo'))) shifted)
          end
      end
  end.

(** ** generate_imbalanced_circle (core.py 909-937) *)

Definition fcos (x : fl) : fl :=
  match x with Fin r => Fin (cos r) | _ => NaN end.

Definition fsin (x : fl) : fl :=
  match x with Fin r => Fin (sin r) | _ => NaN end.

(** [np.linspace(start, stop, num)]: [num] evenly spaced values, both ends
    included; a single value is [start]. *)
Definition linspace (start stop : R) (num : Z) : outcome (list fl) :=
  if (num <? 0)%Z
  then Raise (ValueError "Number of samples must be non-negative")
  else
    let n := Z.to_nat num in
    Ok (map (fun i => Fin (if Nat.eqb n 1 then start
                           else start + INR i * ((stop - start) / INR (n - 1))))
            (seq 0 n)).

(** [coords[idx]] for a list of row indices. *)
Definition take_points (coords : list (list fl)) (idx : list nat)
    : outcome (list (list fl)) :=
  collect (map (fun i => match nth_error coords i with
                         | Some r => Ok r
                         | None => Raise (IndexError "index is out of bounds for axis 0")
                         end) idx).

(** [choices n weights k] stands for
    [random.choices(np.arange(0, n), weights=weights, k=k)]: the chosen
    elements of the population, or the exception of the standard library. *)
Definition generate_imbalanced_circle
    (choices : nat -> list fl -> Z -> outcome (list nat))
    (n_points n_total : Z) (weight : fl) : outcome ndarray :=
  match linspace (- PI) PI n_total with
  | Raise e => Raise e
  | Ok theta =>
      let a := map (fun x => fmul (Fin 1) (fcos x)) theta in
      let b := map (fun x => fmul (Fin 1) (fsin x)) theta in
      let coords := map (fun i => [nth i a NaN; nth i b NaN]) (seq 0 (length theta)) in
      match choices (length coords) (map (fun x => fadd weight x) a) n_points with
      | Raise e => Raise e
      | Ok idx =>
          match take_points coords idx with
          | Raise e => Raise e
          | Ok pnts =>
              Ok {| shape0 := length pnts; shape1 := 2;
                    item := fun i j => nth j (nth i pnts []) NaN |}
          end
      end
  end.

(* ================================================================== *)
(** * Part II: properties                                              *)
(* ================================================================== *)

(** ** The monad *)

Lemma never_returns_raise : forall A (e : exn), never_returns (@raise A e).
Proof. intros A e w. exists e, w. reflexivity. Qed.

Lemma never_returns_bind_l :
  forall A B (m : Py A) (k : A -> Py B),
    never_returns m -> never_returns (bind m k).
Proof.
  intros A B m k Hm w. destruct (Hm w) as (e & w' & Hw).
  exists e, w'. unfold bind. rewrite Hw. reflexivity.
Qed.

Lemma never_returns_bind_r :
  forall A B (m : Py A) (k : A -> Py B),
    (forall a, never_returns (k a)) -> never_returns (bind m k).
Proof.
  intros A B m k Hk w. unfold bind.
  destruct (m w) as [[a | e] w'].
  - apply Hk.
  - exists e, w'. reflexivity.
Qed.

Lemma never_returns_bind_post :
  forall A B (m : Py A) (k : A -> Py B) (Q : A -> Prop),
    ensures m Q -> (forall a, Q a -> never_returns (k a)) ->
    never_returns (bind m k).
Proof.
  intros A B m k Q Hm Hk w. unfold bind.
  destruct (m w) as [[a | e] w'] eqn:E.
  - apply Hk. eapply Hm. exact E.
  - exists e, w'. reflexivity.
Qed.

Lemma ensures_ret : forall A (a : A) (Q : A -> Prop), Q a -> ensures (ret a) Q.
Proof. intros A a Q H w b w' E. inversion E. subst. exact H. Qed.

Lemma ensures_bind :
  forall A B (m : Py A) (k : A -> Py B) (Q : B -> Prop),
    (forall a, ensures (k a) Q) -> ensures (bind m k) Q.
Proof.
  intros A B m k Q Hk w b w' E. unfold bind in E.
  destruct (m w) as [[a | e] w1]; [ | discriminate ].
  eapply Hk. exact E.
Qed.

Lemma log_run :
  forall logger e w,
    log logger e w =
    (Ok tt, {| trace := trace w ++ (if logger then [e] else []); draws := draws w |}).
Proof.
  intros [] e [tr d]; unfold log, emit, ret; simpl; [ reflexivity | ].
  rewrite app_nil_r. reflexivity.
Qed.

(** ** validate_sigma and the entry of gauss_kernel *)

Lemma validate_sigma_unknown :
  forall sigma logger w,
    is_known sigma = false ->
    validate_sigma sigma logger w =
    (Raise (ValueError (sigma_message sigma false)),
     {| trace := trace w ++ (if logger then [LogInfo (sigma_message sigma false)] else []);
        draws := draws w |}).
Proof.
  intros sigma logger w H. unfold validate_sigma, bind.
  rewrite log_run, H. reflexivity.
Qed.

Lemma validate_sigma_known :
  forall sigma logger w,
    is_known sigma = true ->
    validate_sigma sigma logger w =
    (Ok tt,
     {| trace := trace w ++ (if logger then [LogInfo (sigma_message sigma true)] else []);
        draws := draws w |}).
Proof.
  intros sigma logger w H. unfold validate_sigma, bind.
  rewrite log_run, H. reflexivity.
Qed.

(** C5.  A bandwidth spec that is neither a recognised name, nor callable,
    nor numeric makes [gauss_kernel] raise the invalid-bandwidth
    [ValueError] at once: the only effect of the call is the optional log
    record of [validate_sigma], and no pairwise-distance computation
    ([cdist]) has taken place. *)
Theorem gauss_kernel_rejects_unknown_sigma :
  forall data1 data2 sigma k a fac logger w,
    is_known sigma = false ->
    exists w',
      gauss_kernel data1 data2 sigma k a fac logger w
      = (Raise (ValueError (sigma_message sigma false)), w')
      /\ trace w' = trace w ++ (if logger then [LogInfo (sigma_message sigma false)] else [])
      /\ draws w' = draws w
      /\ (forall n1 n2, In (CallCdist n1 n2) (trace w') ->
                        In (CallCdist n1 n2) (trace w)).
Proof.
  intros data1 data2 sigma k a fac logger w H.
  eexists. split.
  - unfold gauss_kernel, bind at 1.
    rewrite (validate_sigma_unknown _ _ _ H). reflexivity.
  - simpl. repeat split.
    intros n1 n2 Hin. apply in_app_or in Hin. destruct Hin as [Hin | Hin].
    + exact Hin.
    + destruct logger; simpl in Hin.
      * destruct Hin as [Hin | []]. discriminate Hin.
      * destruct Hin.
Qed.

Lemma gauss_kernel_rejects_unknown_sigma_witness :
  exists w',
    gauss_kernel (of_rows [[0]; [1]]) (of_rows [[0]; [1]]) (SigmaStr "bogus")
                 5 2 1 true {| trace := []; draws := 0 |}
    = (Raise (ValueError (sigma_message (SigmaStr "bogus") false)), w')
    /\ trace w' = [LogInfo (sigma_message (SigmaStr "bogus") false)].
Proof.
  destruct (gauss_kernel_rejects_unknown_sigma
              (of_rows [[0]; [1]]) (of_rows [[0]; [1]]) (SigmaStr "bogus")
              5 2 1 true {| trace := []; draws := 0 |} eq_refl)
    as (w' & H1 & H2 & _).
  exists w'. split; [ exact H1 | exact H2 ].
Defined.

(** ** generate with a scalar noise variance *)

Lemma never_returns_lift_T :
  forall rep_centers B (k : ndarray -> Py B),
    never_returns (bind (lift (attr_T (PyList rep_centers))) k).
Proof.
  intros rep_centers B k w. unfold bind, lift. simpl.
  eexists. eexists. reflexivity.
Qed.

(** C3.  With a scalar noise variance [generate] produces no rows at all:
    whatever the data, the budget and the labels, the call raises.  The
    replicated centres are collected in a Python list, and reading [.T] on
    that list raises [AttributeError] (unless an earlier index or
    repetition count already failed). *)
Theorem generate_scalar_noise_never_returns :
  forall mvn_sample data npts c labels logger,
    never_returns (generate mvn_sample data npts (NoiseScalar c) labels logger).
Proof.
  intros mvn_sample data npts c labels logger. unfold generate.
  apply never_returns_bind_r. intros _.
  apply never_returns_bind_r. intros [rep_centers labels_out].
  apply never_returns_lift_T.
Qed.

(** ** sugar *)

Lemma load_unbound_sigma :
  forall f, load_local "sigma" f = None -> never_returns (load "sigma" f).
Proof.
  intros f H w. unfold load. rewrite H. simpl.
  exists (NameError "sigma"), w. reflexivity.
Qed.

Lemma return_statement_raises :
  forall f,
    load_local "sigma" f = None ->
    never_returns
      (return_tuple ["Y"; "out_labels"; "d_hat"; "s_hat"; "sigma"; "noise"; "npts";
                     "random_points"; "mgc_kernel"; "mgc_diffusion_operator"] f).
Proof.
  intros f H.
  do 4 (cbn [return_tuple]; apply never_returns_bind_r; intros ?;
        apply never_returns_bind_l).
  cbn [return_tuple]. apply never_returns_bind_l.
  apply load_unbound_sigma. exact H.
Qed.

(** C1.  [sugar] never returns normally.  Its [return] statement reads the
    name [sigma], which is bound neither in the function (the bandwidth is
    kept in [degree_sigma]) nor at module level, so every call that reaches
    the end raises [NameError]; a call with a scalar [noise_cov] raises
    even earlier, inside [generate]. *)
Theorem sugar_never_returns :
  forall kneighbors mvn_sample data labels noise_cov noise_k sparsity_idx
         degree_sigma degree_k degree_a degree_fac M equalize mgc_t
         mgc_sigma mgc_k mgc_a mgc_fac magic_rescale logger,
    never_returns
      (sugar kneighbors mvn_sample data labels noise_cov noise_k sparsity_idx
             degree_sigma degree_k degree_a degree_fac M equalize mgc_t
             mgc_sigma mgc_k mgc_a mgc_fac magic_rescale logger).
Proof.
  intros. unfold sugar.
  do 2 (apply never_returns_bind_r; intros _).
  apply never_returns_bind_r. intros [[d_hat s_hat] degree_sigma'].
  do 3 (apply never_returns_bind_r; intros _).
  eapply never_returns_bind_post
    with (Q := fun p : noise_model * frame => load_local "sigma" (snd p) = None).
  { destruct noise_cov.
    - apply ensures_bind. intros _. apply ensures_bind. intros noise.
      apply ensures_ret. destruct sparsity_idx; reflexivity.
    - apply ensures_ret. destruct sparsity_idx; reflexivity. }
  intros [noise_cov' f] Hf. simpl in Hf.
  apply never_returns_bind_r. intros _.
  apply never_returns_bind_r. intros npts.
  apply never_returns_bind_r. intros _.
  apply never_returns_bind_r. intros [random_points out_labels].
  eapply never_returns_bind_post
    with (Q := fun f' : frame => load_local "sigma" f' = None).
  { destruct (0 <? mgc_t)%Z.
    - apply ensures_bind. intros _. apply ensures_bind.
      intros [[Y mgc_kernel] mgc_diffusion_operator].
      apply ensures_ret. simpl. exact Hf.
    - apply ensures_ret. simpl. exact Hf. }
  intros f' Hf'. apply return_statement_raises. exact Hf'.
Qed.

(** ** The minmax bandwidth and rectangular distance matrices *)

Lemma broadcast_dim_one_r : forall n, broadcast_dim n 1 = Some n.
Proof.
  intros n. unfold broadcast_dim.
  destruct (Nat.eqb n 1) eqn:E; [ | reflexivity ].
  apply Nat.eqb_eq in E. subst. reflexivity.
Qed.

Lemma broadcast_dim_refl : forall n, broadcast_dim n n = Some n.
Proof. intros n. unfold broadcast_dim. rewrite Nat.eqb_refl. reflexivity. Qed.

Lemma broadcast_dim_none :
  forall a b, broadcast_dim a b = None <-> (a <> b /\ a <> 1%nat /\ b <> 1%nat).
Proof.
  intros a b. unfold broadcast_dim.
  destruct (Nat.eqb_spec a b); [ split; [ discriminate | tauto ] | ].
  destruct (Nat.eqb_spec a 1); [ split; [ discriminate | tauto ] | ].
  destruct (Nat.eqb_spec b 1); [ split; [ discriminate | tauto ] | ].
  tauto.
Qed.

Lemma broadcast_dim_some :
  forall a b, a = b \/ a = 1%nat \/ b = 1%nat ->
              exists c, broadcast_dim a b = Some c /\ (c = a \/ c = b).
Proof.
  intros a b H. destruct (broadcast_dim a b) as [c | ] eqn:E.
  - exists c. split; [ reflexivity | ].
    unfold broadcast_dim in E.
    destruct (Nat.eqb a b); [ inversion E; auto | ].
    destruct (Nat.eqb a 1); [ inversion E; auto | ].
    destruct (Nat.eqb b 1); [ inversion E; auto | discriminate ].
  - apply broadcast_dim_none in E. lia.
Qed.

(** The branch fails with the broadcasting error exactly when the distance
    matrix is rectangular with neither side of length one. *)
Lemma sigma_minmax_shape_error :
  forall D,
    sigma_minmax D = Raise broadcast_error
    <-> (shape0 D <> shape1 D /\ shape0 D <> 1%nat /\ shape1 D <> 1%nat).
Proof.
  intros D. unfold sigma_minmax, broadcast2. simpl.
  rewrite broadcast_dim_refl.
  destruct (broadcast_dim (shape1 D) (shape0 D)) as [c | ] eqn:E.
  - split.
    + intros H. exfalso. unfold min_axis0 in H. simpl in H.
      destruct (shape0 D); [ discriminate | ].
      match type of H with
      | match np_max ?v with _ => _ end = _ =>
          unfold np_max in H; destruct (fold1 fmax2 v); discriminate
      end.
    + intros H. assert (broadcast_dim (shape1 D) (shape0 D) = None)
        by (apply broadcast_dim_none; lia).
      congruence.
  - split; [ | reflexivity ].
    intros _. apply broadcast_dim_none in E. lia.
Qed.

Lemma sigma_minmax_single_point :
  forall D,
    (shape0 D = shape1 D \/ shape0 D = 1 \/ shape1 D = 1)%nat ->
    (1 <= shape0 D)%nat -> (1 <= shape1 D)%nat ->
    exists x, sigma_minmax D = Ok (SigScalar x).
Proof.
  intros D H H0 H1. unfold sigma_minmax, broadcast2. simpl.
  rewrite broadcast_dim_refl.
  destruct (broadcast_dim_some (shape1 D) (shape0 D)) as (c & E & Hc); [ lia | ].
  rewrite E. unfold min_axis0. simpl.
  destruct (shape0 D) as [ | n] eqn:E0; [ lia | ].
  destruct c as [ | c]; [ lia | ].
  unfold np_max. rewrite <- cons_seq. simpl. eexists. reflexivity.
Qed.

(** ** Arithmetic on finite values *)

Arguments fadd : simpl never.
Arguments fsub : simpl never.
Arguments fmul : simpl never.
Arguments fdiv : simpl never.
Arguments fneg : simpl never.
Arguments fexp : simpl never.
Arguments fsqrt : simpl never.
Arguments ffloor : simpl never.
Arguments fpow : simpl never.
Arguments fpowr : simpl never.
Arguments flt : simpl never.
Arguments feqb : simpl never.
Arguments fle : simpl never.
Arguments fmin2 : simpl never.
Arguments fmax2 : simpl never.
Arguments zero_nan : simpl never.
Arguments zero_small : simpl never.
Arguments zero_inf : simpl never.

Lemma Rneg_false : forall r, 0 <= r -> Rneg r = false.
Proof. intros r H. unfold Rneg. destruct (Rlt_dec r 0); [ lra | reflexivity ]. Qed.

Lemma Rneg_true : forall r, r < 0 -> Rneg r = true.
Proof. intros r H. unfold Rneg. destruct (Rlt_dec r 0); [ reflexivity | lra ]. Qed.

Lemma Rzero_false : forall r, r <> 0 -> Rzero r = false.
Proof.
  intros r H. unfold Rzero. destruct (Req_dec_T r 0); [ contradiction | reflexivity ].
Qed.

Lemma Rzero_true : forall r, r = 0 -> Rzero r = true.
Proof.
  intros r H. unfold Rzero. destruct (Req_dec_T r 0); [ reflexivity | contradiction ].
Qed.

Lemma fadd_Fin : forall a b, fadd (Fin a) (Fin b) = Fin (a + b).
Proof. reflexivity. Qed.

Lemma fneg_Fin : forall a, fneg (Fin a) = Fin (- a).
Proof. reflexivity. Qed.

Lemma fsub_Fin : forall a b, fsub (Fin a) (Fin b) = Fin (a - b).
Proof. reflexivity. Qed.

Lemma fmul_Fin : forall a b, fmul (Fin a) (Fin b) = Fin (a * b).
Proof. reflexivity. Qed.

Lemma fexp_Fin : forall a, fexp (Fin a) = Fin (exp a).
Proof. reflexivity. Qed.

Lemma ffloor_Fin : forall a, ffloor (Fin a) = Fin (IZR (Zfloor a)).
Proof. reflexivity. Qed.

Lemma fdiv_Fin : forall a b, b <> 0 -> fdiv (Fin a) (Fin b) = Fin (a / b).
Proof. intros a b H. unfold fdiv. rewrite (Rzero_false b H). reflexivity. Qed.

Lemma fdiv_zero_zero : forall a b, a = 0 -> b = 0 -> fdiv (Fin a) (Fin b) = NaN.
Proof.
  intros a b Ha Hb. unfold fdiv.
  rewrite (Rzero_true b Hb), (Rzero_true a Ha). reflexivity.
Qed.

Lemma fdiv_pos_zero : forall a b, 0 < a -> b = 0 -> fdiv (Fin a) (Fin b) = Inf false.
Proof.
  intros a b Ha Hb. unfold fdiv.
  rewrite (Rzero_true b Hb), (Rzero_false a), (Rneg_false a) by lra. reflexivity.
Qed.

Lemma fsqrt_Fin : forall a, 0 <= a -> fsqrt (Fin a) = Fin (sqrt a).
Proof. intros a H. unfold fsqrt. rewrite (Rneg_false a H). reflexivity. Qed.

Lemma flt_Fin_true : forall a b, a < b -> flt (Fin a) (Fin b) = true.
Proof. intros a b H. unfold flt. destruct (Rlt_dec a b); [ reflexivity | lra ]. Qed.

Lemma flt_Fin_false : forall a b, b <= a -> flt (Fin a) (Fin b) = false.
Proof. intros a b H. unfold flt. destruct (Rlt_dec a b); [ lra | reflexivity ]. Qed.

Lemma feqb_Fin_true : forall a b, a = b -> feqb (Fin a) (Fin b) = true.
Proof.
  intros a b H. unfold feqb. destruct (Req_dec_T a b); [ reflexivity | contradiction ].
Qed.

Lemma feqb_Fin_false : forall a b, a <> b -> feqb (Fin a) (Fin b) = false.
Proof.
  intros a b H. unfold feqb. destruct (Req_dec_T a b); [ contradiction | reflexivity ].
Qed.

Lemma fmin2_Fin : forall a b, fmin2 (Fin a) (Fin b) = Fin (Rmin a b).
Proof.
  intros a b. unfold fmin2, flt, Rmin. simpl.
  destruct (Rlt_dec b a), (Rle_dec a b); try reflexivity; f_equal; lra.
Qed.

Lemma fmax2_Fin : forall a b, fmax2 (Fin a) (Fin b) = Fin (Rmax a b).
Proof.
  intros a b. unfold fmax2, flt, Rmax. simpl.
  destruct (Rlt_dec a b), (Rle_dec a b); try reflexivity; f_equal; lra.
Qed.

Lemma fpow_2 : forall x, fpow x 2 = fmul (fmul (Fin 1) x) x.
Proof. reflexivity. Qed.

Lemma fpow_m1 : forall x, fpow x (-1) = fdiv (Fin 1) (fmul (Fin 1) x).
Proof. reflexivity. Qed.

Lemma zero_nan_Fin : forall a, zero_nan (Fin a) = Fin a.
Proof. reflexivity. Qed.

Lemma zero_inf_Fin : forall a, zero_inf (Fin a) = Fin a.
Proof. reflexivity. Qed.

Lemma zero_small_keep :
  forall a, noise_floor <= a -> zero_small (Fin a) = Fin a.
Proof. intros a H. unfold zero_small. rewrite flt_Fin_false by exact H. reflexivity. Qed.

Lemma zero_small_drop :
  forall a, a < noise_floor -> zero_small (Fin a) = Fin 0.
Proof. intros a H. unfold zero_small. rewrite flt_Fin_true by exact H. reflexivity. Qed.

Lemma of_Z_Fin : forall z, of_Z z = Fin (IZR z).
Proof. reflexivity. Qed.

Lemma of_nat_Fin : forall n, of_nat n = Fin (INR n).
Proof. reflexivity. Qed.

Create Rewrite HintDb fl_eval.

#[local] Hint Rewrite fadd_Fin fneg_Fin fsub_Fin fmul_Fin fexp_Fin ffloor_Fin
  fmin2_Fin fmax2_Fin fpow_2 fpow_m1 zero_nan_Fin zero_inf_Fin of_Z_Fin
  of_nat_Fin : fl_eval.

(** Evaluation of the model on literal inputs: unconditional equations
    first, then the ones whose side condition is linear arithmetic. *)
Ltac fl_norm_consts :=
  unfold ten15, epsilon17, noise_floor, ten4 in *; simpl INR in *.

Ltac fl_side := fl_norm_consts; try lra.

Ltac fl_eval_step :=
  first
    [ progress autorewrite with fl_eval
    | match goal with
      | |- context [sqrt ?x] =>
          first [ replace x with 0 by lra; rewrite sqrt_0
                | replace x with 1 by lra; rewrite sqrt_1 ]
      | |- context [exp ?x] =>
          replace x with 0 by lra; rewrite exp_0
      | |- context [fsqrt (Fin ?a)] => rewrite (fsqrt_Fin a) by fl_side
      | |- context [fdiv (Fin ?a) (Fin ?b)] =>
          first [ rewrite (fdiv_Fin a b) by fl_side
                | rewrite (fdiv_zero_zero a b) by fl_side ]
      | |- context [flt (Fin ?a) (Fin ?b)] =>
          first [ rewrite (flt_Fin_true a b) by fl_side
                | rewrite (flt_Fin_false a b) by fl_side ]
      | |- context [feqb (Fin ?a) (Fin ?b)] =>
          first [ rewrite (feqb_Fin_true a b) by fl_side
                | rewrite (feqb_Fin_false a b) by fl_side ]
      | |- context [zero_small (Fin ?a)] =>
          first [ rewrite (zero_small_keep a) by fl_side
                | rewrite (zero_small_drop a) by fl_side ]
      | |- context [Rmin ?a ?b] =>
          first [ rewrite (Rmin_left a b) by fl_side
                | rewrite (Rmin_right a b) by fl_side ]
      | |- context [Rmax ?a ?b] =>
          first [ rewrite (Rmax_left a b) by fl_side
                | rewrite (Rmax_right a b) by fl_side ]
      end ].

Ltac fl_eval := repeat fl_eval_step.

(** Closing a goal between two finite values. *)
Ltac fin_eq := fl_eval; try reflexivity; f_equal; fl_norm_consts; lra.

(** ** C10: the minmax branch on rectangular inputs *)

Lemma gauss_kernel_minmax_run :
  forall data1 data2 k a fac logger w,
    shape1 data1 = shape1 data2 ->
    exists w',
      gauss_kernel data1 data2 (SigmaStr "minmax") k a fac logger w
      = let D := distance_matrix data1 data2 in
        match sigma_minmax D with
        | Raise e => (Raise e, w')
        | Ok s =>
            match broadcast2 fdiv D (sigma_array (sigma_scale s fac)) with
            | Raise e => (Raise e, w')
            | Ok K0 =>
                let K := map_array zero_small
                           (map_array zero_nan
                              (map_array (fun x => fexp (fneg (fpow x a))) K0)) in
                (Ok (if Nat.eqb (shape0 K) (shape1 K) then symmetrize K else K,
                     sigma_scale s fac), w')
            end
        end.
Proof.
  intros data1 data2 k a fac logger w Hc.
  unfold gauss_kernel, bind at 1.
  rewrite validate_sigma_known by reflexivity.
  unfold cdist, bind, emit, lift, ret. simpl.
  rewrite Hc, Nat.eqb_refl.
  eexists.
  destruct (sigma_minmax (distance_matrix data1 data2)) as [s | e]; [ | reflexivity ].
  destruct (broadcast2 fdiv _ _) as [K0 | e]; reflexivity.
Qed.

(** C10 (as amended).  For two sets with the same number of columns and
    [N] and [M] points, the minmax branch of [gauss_kernel] raises the
    broadcasting (shape) error when [N <> M] and neither [N] nor [M] is 1.
    When one of the two sets is a single point and the other is not empty,
    the sum [D + eye(N) * 1e15] broadcasts, and a kernel of shape [N x M]
    and a scalar bandwidth are returned. *)
Theorem gauss_kernel_minmax_rectangular :
  forall data1 data2 k a fac logger w,
    shape1 data1 = shape1 data2 ->
    (shape0 data1 <> shape0 data2 ->
     shape0 data1 <> 1%nat -> shape0 data2 <> 1%nat ->
     fst (gauss_kernel data1 data2 (SigmaStr "minmax") k a fac logger w)
     = Raise broadcast_error)
    /\
    ((shape0 data1 = 1 \/ shape0 data2 = 1)%nat ->
     shape0 data1 <> 0%nat -> shape0 data2 <> 0%nat ->
     exists K x,
       fst (gauss_kernel data1 data2 (SigmaStr "minmax") k a fac logger w)
       = Ok (K, SigScalar x)
       /\ shape0 K = shape0 data1 /\ shape1 K = shape0 data2).
Proof.
  intros data1 data2 k a fac logger w Hc.
  destruct (gauss_kernel_minmax_run data1 data2 k a fac logger w Hc)
    as (w' & Hrun).
  rewrite Hrun. clear Hrun.
  set (D := distance_matrix data1 data2).
  assert (H0 : shape0 D = shape0 data1) by reflexivity.
  assert (H1 : shape1 D = shape0 data2) by reflexivity.
  cbv zeta. split.
  - intros Hne Hn Hm.
    assert (E : sigma_minmax D = Raise broadcast_error)
      by (apply sigma_minmax_shape_error; lia).
    rewrite E. reflexivity.
  - intros Hone Hn Hm.
    destruct (sigma_minmax_single_point D) as (x & E); try lia.
    rewrite E. unfold broadcast2. simpl.
    rewrite !broadcast_dim_one_r. simpl.
    eexists. eexists. split; [ reflexivity | ].
    destruct (Nat.eqb (shape0 data1) (shape0 data2)); simpl; split; reflexivity.
Qed.

Lemma gauss_kernel_minmax_rectangular_witness :
  exists K x,
    fst (gauss_kernel (of_rows [[0]; [1]; [2]]) (of_rows [[0]])
           (SigmaStr "minmax") 5 2 1 false {| trace := []; draws := 0 |})
    = Ok (K, SigScalar x)
    /\ shape0 K = 3%nat /\ shape1 K = 1%nat.
Proof.
  apply (gauss_kernel_minmax_rectangular
           (of_rows [[0]; [1]; [2]]) (of_rows [[0]]) 5 2 1 false
           {| trace := []; draws := 0 |} eq_refl).
  - right. reflexivity.
  - simpl. lia.
  - simpl. lia.
Defined.

(** C10, counterexample to the claim as stated: two points against one
    point is a rectangular input ([N = 2], [M = 1]), yet the minmax branch
    returns the bandwidth [2 * 1 ** 2 = 2] and a [2 x 1] kernel. *)
Lemma minmax_two_points_against_one :
  exists K w',
    gauss_kernel (of_rows [[0]; [1]]) (of_rows [[0]]) (SigmaStr "minmax")
                 5 2 1 false {| trace := []; draws := 0 |}
    = (Ok (K, SigScalar (Fin 2)), w')
    /\ shape0 K = 2%nat /\ shape1 K = 1%nat.
Proof.
  assert (E : exists K s w',
             gauss_kernel (of_rows [[0]; [1]]) (of_rows [[0]]) (SigmaStr "minmax")
                          5 2 1 false {| trace := []; draws := 0 |}
             = (Ok (K, s), w')
             /\ s = SigScalar (Fin 2) /\ shape0 K = 2%nat /\ shape1 K = 1%nat).
  { eexists. eexists. eexists. split; [ | split ].
    - unfold gauss_kernel, bind, validate_sigma, log, cdist, emit, lift, ret. simpl.
      unfold sigma_minmax, broadcast2. simpl. reflexivity.
    - unfold distance_matrix, euclid, row. simpl. fl_eval. f_equal. fin_eq.
    - split; reflexivity. }
  destruct E as (K & s & w' & E & Hs & HK). subst s.
  exists K, w'. split; assumption.
Qed.

(** ** mgc_magic with [t = 0] *)

(** C4.  Called with [t = 0] (and a logger), [mgc_magic] logs the warning
    and then carries on: both cross kernels are built (two [cdist] calls),
    and the returned mgc kernel and diffusion operator are the [1 x 1]
    matrices [[1]] for a single point, not empty outputs. *)
Theorem mgc_magic_zero_steps_builds_kernels :
  exists new_data K P w',
    mgc_magic (of_rows [[1]]) (of_rows [[1]]) [Fin 1] (SigmaNum (Fin 1))
              5 2 1 0 true true {| trace := []; draws := 0 |}
    = (Ok (new_data, K, P), w')
    /\ trace w' = [LogWarning "mgc_magic was passed t=0, no mgc_magic was performed";
                   CallCdist 1 1; CallCdist 1 1]
    /\ (shape0 K = 1%nat /\ shape1 K = 1%nat /\ item K 0 0 = Fin 1)
    /\ (shape0 P = 1%nat /\ shape1 P = 1%nat /\ item P 0 0 = Fin 1).
Proof.
  eexists. eexists. eexists. eexists. split.
  - unfold mgc_magic, gauss_kernel, validate_sigma, cdist, magic,
      bind, log, emit, lift, ret.
    simpl.
    unfold percentile_axis0, matlab_percentile, cols, col. simpl.
    unfold np_interp, broadcast2, transpose, sum_axis1, rows, row, dot,
      distance_matrix, euclid, row.
    simpl. fl_eval. simpl. fl_eval. reflexivity.
  - simpl. repeat split; fin_eq.
Qed.

(** ** magic with [t = 0] *)

Lemma nth_map_seq :
  forall (f : nat -> fl) n i d, (i < n)%nat -> nth i (map f (seq 0 n)) d = f i.
Proof.
  intros f n i d H.
  rewrite (nth_indep _ d (f O)) by (rewrite length_map, length_seq; exact H).
  rewrite (map_nth f (seq 0 n) O i), seq_nth by exact H. reflexivity.
Qed.

Lemma length_sum_axis1 : forall K, length (sum_axis1 K) = shape0 K.
Proof. intros K. unfold sum_axis1, rows. rewrite !length_map, length_seq. reflexivity. Qed.

Lemma length_sum_axis0 : forall K, length (sum_axis0 K) = shape1 K.
Proof. intros K. unfold sum_axis0, cols. rewrite !length_map, length_seq. reflexivity. Qed.

Lemma diffusion_operator_of_ok :
  forall kernel,
    diffusion_operator_of kernel
    = Ok {| shape0 := shape0 kernel; shape1 := shape1 kernel;
            item := fun i k =>
              dot (row (map_array zero_inf
                          (np_diag (map (fun x => fpow x (-1)) (sum_axis1 kernel)))) i)
                  (col kernel k) |}.
Proof.
  intros kernel. unfold diffusion_operator_of, matmul. simpl.
  rewrite length_map, length_sum_axis1, Nat.eqb_refl. reflexivity.
Qed.

Lemma collect_length :
  forall A (l : list (outcome A)) r, collect l = Ok r -> length r = length l.
Proof.
  intros A l. induction l as [ | [a | e] l IH]; intros r H; simpl in H.
  - inversion H. reflexivity.
  - destruct (collect l) as [r' | e]; [ | discriminate ].
    inversion H. simpl. f_equal. apply IH. reflexivity.
  - discriminate.
Qed.

Lemma percentile_axis0_length :
  forall A q ps, percentile_axis0 A q = Ok ps -> length ps = shape1 A.
Proof.
  intros A q ps H. unfold percentile_axis0 in H.
  destruct (shape1 A) eqn:E; [ discriminate | ].
  apply collect_length in H. rewrite H. unfold cols.
  rewrite !length_map, length_seq. exact E.
Qed.

Lemma fmul_one : forall x r, r = 1 -> fmul x (Fin r) = x.
Proof.
  intros x r ->. destruct x as [ | s | a]; unfold fmul.
  - reflexivity.
  - rewrite Rzero_false, Rneg_false by lra. rewrite xorb_false_r. reflexivity.
  - f_equal. lra.
Qed.

Lemma bidx_lt : forall n i, (i < n)%nat -> bidx n i = i.
Proof.
  intros n i H. unfold bidx. destruct (Nat.eqb_spec n 1); [ lia | reflexivity ].
Qed.

Lemma magic_orientation :
  forall data kernel logger w,
    exists w',
      (if negb (Nat.eqb (shape0 data) (shape0 kernel)) then
         if negb (Nat.eqb (shape1 data) (shape0 kernel)) then
           log logger (LogWarning "Data does not match kernel size") ;;; ret data
         else ret (transpose data)
       else ret data) w
      = (Ok (oriented data kernel), w').
Proof.
  intros data kernel logger w. unfold oriented.
  destruct (negb (Nat.eqb (shape0 data) (shape0 kernel))).
  - destruct (negb (Nat.eqb (shape1 data) (shape0 kernel))).
    + unfold bind. rewrite log_run. eexists. reflexivity.
    + eexists. reflexivity.
  - eexists. reflexivity.
Qed.

Lemma magic_returns_operator :
  forall data kernel t rescale logger w out P w',
    magic data kernel t rescale logger w = (Ok (out, P), w') ->
    diffusion_operator_of kernel = Ok P.
Proof.
  intros data kernel t rescale logger w out P w' H.
  unfold magic in H. unfold bind at 1 in H.
  destruct (magic_orientation data kernel logger w) as (w1 & E).
  rewrite E in H. clear E.
  unfold bind at 1, lift at 1 in H.
  destruct (diffusion_operator_of kernel) as [Q | e]; [ | discriminate ].
  unfold bind at 1, lift at 1 in H.
  destruct (diffuse (Z.to_nat t) Q (oriented data kernel)) as [imputed | e];
    [ | discriminate ].
  destruct rescale.
  - unfold bind, lift, ret in H.
    destruct (percentile_axis0 (oriented data kernel) (Fin 95)); [ | discriminate ].
    destruct (percentile_axis0 imputed (Fin 95)); [ | discriminate ].
    destruct (vec_div _ _); [ | discriminate ].
    destruct (broadcast2 fmul imputed _); [ | discriminate ].
    inversion H. reflexivity.
  - unfold ret in H. inversion H. reflexivity.
Qed.

(** C8 (as amended).  With [t = 0], [magic] returns the points unchanged
    (in the orientation that matches the kernel) when [rescale] is off, and
    also when [rescale] is on provided the 95th percentile of every column
    is a finite non-zero number; the rescaling factor is then exactly 1. *)
Theorem magic_zero_steps_identity :
  forall data kernel rescale logger w,
    (rescale = true ->
     exists ps,
       percentile_axis0 (oriented data kernel) (Fin 95) = Ok ps
       /\ Forall (fun p => exists r, p = Fin r /\ r <> 0) ps) ->
    exists out P w',
      magic data kernel 0 rescale logger w = (Ok (out, P), w')
      /\ shape0 out = shape0 (oriented data kernel)
      /\ shape1 out = shape1 (oriented data kernel)
      /\ forall i j, (i < shape0 out)%nat -> (j < shape1 out)%nat ->
                     item out i j = item (oriented data kernel) i j.
Proof.
  intros data kernel rescale logger w Hp.
  unfold magic. unfold bind at 1.
  destruct (magic_orientation data kernel logger w) as (w' & ->).
  set (d := oriented data kernel) in *.
  unfold bind at 1, lift at 1. rewrite diffusion_operator_of_ok.
  unfold bind at 1, lift at 1. simpl diffuse. cbv iota beta.
  destruct rescale.
  - destruct (Hp eq_refl) as (ps & Hps & Hall).
    unfold bind, lift, ret. rewrite Hps.
    pose proof (percentile_axis0_length _ _ _ Hps) as Hlen.
    unfold vec_div. rewrite broadcast_dim_refl.
    unfold broadcast2. simpl.
    rewrite length_map, length_seq, Hlen.
    rewrite broadcast_dim_one_r, broadcast_dim_refl.
    eexists. eexists. eexists. split; [ reflexivity | ]. simpl.
    split; [ reflexivity | ]. split; [ reflexivity | ].
    intros i j Hi Hj.
    rewrite (bidx_lt _ i Hi), (bidx_lt _ j Hj).
    rewrite nth_map_seq by lia.
    rewrite bidx_lt by lia.
    rewrite Forall_forall in Hall.
    destruct (Hall (nth j ps NaN)) as (r & Hr & Hnz).
    { apply nth_In. lia. }
    rewrite Hr. rewrite fdiv_Fin by exact Hnz.
    apply fmul_one. field. exact Hnz.
  - unfold ret. eexists. eexists. eexists. split; [ reflexivity | ].
    repeat split.
Qed.

Lemma magic_zero_steps_identity_witness :
  exists out P w',
    magic (of_rows [[1]; [3]]) (of_rows [[1; 0]; [0; 1]]) 0 true false
          {| trace := []; draws := 0 |}
    = (Ok (out, P), w')
    /\ shape0 out = shape0 (oriented (of_rows [[1]; [3]]) (of_rows [[1; 0]; [0; 1]]))
    /\ shape1 out = shape1 (oriented (of_rows [[1]; [3]]) (of_rows [[1; 0]; [0; 1]]))
    /\ forall i j, (i < shape0 out)%nat -> (j < shape1 out)%nat ->
                   item out i j
                   = item (oriented (of_rows [[1]; [3]]) (of_rows [[1; 0]; [0; 1]])) i j.
Proof.
  apply (magic_zero_steps_identity (of_rows [[1]; [3]]) (of_rows [[1; 0]; [0; 1]])
           true false {| trace := []; draws := 0 |}).
  intros _. exists [Fin 3]. split.
  - unfold percentile_axis0, matlab_percentile, cols, col, oriented. simpl.
    unfold np_interp, sort_le, fle. simpl. fl_eval. simpl. fl_eval. simpl. reflexivity.
  - constructor; [ | constructor ]. exists 3. split; [ reflexivity | lra ].
Defined.

(** C8, counterexample to the claim as stated: a single point at the
    origin with [rescale] on.  The 95th percentile of the only column is 0,
    the rescaling factor is 0/0, and the point comes back as NaN. *)
Lemma magic_zero_steps_origin_becomes_nan :
  exists out P w',
    magic (of_rows [[0]]) (of_rows [[1]]) 0 true false {| trace := []; draws := 0 |}
    = (Ok (out, P), w')
    /\ item (of_rows [[0]]) 0 0 = Fin 0
    /\ item out 0 0 = NaN.
Proof.
  eexists. eexists. eexists. split.
  - unfold magic, bind, log, emit, lift, ret. simpl.
    unfold percentile_axis0, matlab_percentile, cols, col. simpl.
    unfold np_interp, broadcast2. simpl. fl_eval. simpl. fl_eval.
    reflexivity.
  - simpl. split; reflexivity.
Qed.

(** ** Sums of finite values *)

Lemma fsum_Fin : forall l : list R, fsum (map Fin l) = Fin (Rsum l).
Proof.
  induction l as [ | a l IH]; [ reflexivity | ].
  change (fsum (map Fin (a :: l))) with (fadd (Fin a) (fsum (map Fin l))).
  rewrite IH. reflexivity.
Qed.

Lemma fsum_map_Fin :
  forall A (f : A -> fl) (g : A -> R) (l : list A),
    (forall x, In x l -> f x = Fin (g x)) ->
    fsum (map f l) = Fin (Rsum (map g l)).
Proof.
  intros A f g l H.
  rewrite (map_ext_in f (fun x => Fin (g x)) l H).
  rewrite <- (map_map g Fin). apply fsum_Fin.
Qed.

Lemma Rsum_scale :
  forall A (g : A -> R) c (l : list A),
    Rsum (map (fun x => c * g x) l) = c * Rsum (map g l).
Proof.
  intros A g c l. induction l as [ | a l IH]; simpl; [ lra | ].
  rewrite IH. lra.
Qed.

Lemma Rsum_nonneg :
  forall A (g : A -> R) (l : list A),
    (forall x, In x l -> 0 <= g x) -> 0 <= Rsum (map g l).
Proof.
  intros A g l H. induction l as [ | a l IH]; simpl; [ lra | ].
  assert (0 <= g a) by (apply H; left; reflexivity).
  assert (0 <= Rsum (map g l)) by (apply IH; intros; apply H; right; assumption).
  lra.
Qed.

(** A sum in which only the term of index [i] is not multiplied by 0. *)
Lemma Rsum_indicator :
  forall (g : nat -> R) c i n a,
    Rsum (map (fun j => (if Nat.eqb i j then c else 0) * g j) (seq a n))
    = if (Nat.leb a i && Nat.ltb i (a + n))%bool then c * g i else 0.
Proof.
  intros g c i n. induction n as [ | n IH]; intros a.
  - simpl. replace (a + 0)%nat with a by lia.
    destruct (Nat.leb_spec a i), (Nat.ltb_spec i a); simpl; try reflexivity; lia.
  - simpl. rewrite IH.
    destruct (Nat.eqb_spec i a) as [-> | Hne].
    + rewrite Nat.leb_refl.
      replace (Nat.leb (S a) a) with false by (symmetry; apply Nat.leb_gt; lia).
      replace (Nat.ltb a (a + S n)) with true by (symmetry; apply Nat.ltb_lt; lia).
      simpl. lra.
    + replace (Nat.ltb i (S a + n)) with (Nat.ltb i (a + S n))
        by (f_equal; lia).
      destruct (Nat.leb_spec (S a) i), (Nat.leb_spec a i); simpl; try lia;
        try destruct (Nat.ltb i (a + S n)); lra.
Qed.


(** ** The diffusion operator of magic *)

(** Pairing two maps over the same index list. *)
Lemma pairs_of_maps :
  forall (X Y Z : Type) (idx : list X) (u : X -> Y) (v : X -> Z),
    map (fun x => (u x, v x)) idx = combine (map u idx) (map v idx).
Proof.
  intros X Y Z idx u v. induction idx as [ | x idx IH]; simpl.
  - reflexivity.
  - f_equal. exact IH.
Qed.

Lemma dot_map_seq :
  forall (f g : nat -> fl) n,
    dot (map f (seq 0 n)) (map g (seq 0 n))
    = fsum (map (fun j => fmul (f j) (g j)) (seq 0 n)).
Proof.
  intros f g n. unfold dot. rewrite <- pairs_of_maps, map_map. reflexivity.
Qed.

(** [x ** -1] followed by the replacement of infinities by 0, on a
    non-negative finite [x]. *)
Lemma inverse_degree :
  forall r, 0 <= r ->
    zero_inf (fpow (Fin r) (-1)) = Fin (if Req_dec_T r 0 then 0 else 1 / r).
Proof.
  intros r Hr. rewrite fpow_m1, fmul_Fin.
  destruct (Req_dec_T r 0) as [E | E].
  - rewrite fdiv_pos_zero by lra. reflexivity.
  - rewrite fdiv_Fin by lra. rewrite zero_inf_Fin. f_equal. field. exact E.
Qed.

Lemma row_sum_finite :
  forall kernel i,
    (forall j, (j < shape1 kernel)%nat ->
               exists r, item kernel i j = Fin r /\ 0 <= r) ->
    fsum (row kernel i)
    = Fin (Rsum (map (fun j => to_R (item kernel i j)) (seq 0 (shape1 kernel))))
    /\ 0 <= Rsum (map (fun j => to_R (item kernel i j)) (seq 0 (shape1 kernel))).
Proof.
  intros kernel i H. split.
  - unfold row. apply fsum_map_Fin. intros j Hj. apply in_seq in Hj.
    destruct (H j) as (r & -> & _); [ lia | reflexivity ].
  - apply Rsum_nonneg. intros j Hj. apply in_seq in Hj.
    destruct (H j) as (r & -> & Hr); [ lia | exact Hr ].
Qed.

(** C7.  For a kernel with finite non-negative entries, the diffusion
    operator [diag(row_sum(kernel) ** -1) @ kernel] built (and returned) by
    [magic], with infinite inverse degrees replaced by 0, has the shape of
    the kernel and finite non-negative entries; a row whose kernel row sum
    is 0 is entirely 0 (and sums to 0), every other row sums to 1. *)
Theorem diffusion_operator_rows :
  forall kernel,
    (forall i j, (i < shape0 kernel)%nat -> (j < shape1 kernel)%nat ->
                 exists r, item kernel i j = Fin r /\ 0 <= r) ->
    exists P,
      diffusion_operator_of kernel = Ok P
      /\ (forall data t rescale logger w out P' w',
            magic data kernel t rescale logger w = (Ok (out, P'), w') -> P' = P)
      /\ shape0 P = shape0 kernel /\ shape1 P = shape1 kernel
      /\ forall i, (i < shape0 kernel)%nat ->
           (forall j, (j < shape1 kernel)%nat ->
                      exists r, item P i j = Fin r /\ 0 <= r)
           /\ (fsum (row kernel i) = Fin 0 ->
               (forall j, (j < shape1 kernel)%nat -> item P i j = Fin 0)
               /\ fsum (row P i) = Fin 0)
           /\ (fsum (row kernel i) <> Fin 0 -> fsum (row P i) = Fin 1).
Proof.
  intros kernel H.
  eexists. split; [ apply diffusion_operator_of_ok | ].
  split.
  { intros data t rescale logger w out P' w' Hrun.
    apply magic_returns_operator in Hrun.
    rewrite diffusion_operator_of_ok in Hrun. inversion Hrun. reflexivity. }
  split; [ reflexivity | ]. split; [ reflexivity | ].
  intros i Hi.
  set (n := shape0 kernel) in *. set (m := shape1 kernel) in *.
  set (Kr := fun a b => to_R (item kernel a b)).
  assert (HK : forall a b, (a < n)%nat -> (b < m)%nat ->
                           item kernel a b = Fin (Kr a b) /\ 0 <= Kr a b).
  { intros a b Ha Hb. destruct (H a b Ha Hb) as (r & E & Hr).
    unfold Kr. rewrite E. split; [ reflexivity | exact Hr ]. }
  destruct (row_sum_finite kernel i) as (Hrow & Hrow0).
  { intros j Hj. apply H; assumption. }
  fold m in Hrow, Hrow0. fold (Kr i) in Hrow, Hrow0.
  set (Ri := Rsum (map (Kr i) (seq 0 m))) in *.
  set (ci := if Req_dec_T Ri 0 then 0 else 1 / Ri).
  assert (Hci : 0 <= ci).
  { unfold ci. destruct (Req_dec_T Ri 0); [ lra | ].
    apply Rlt_le. apply Rdiv_lt_0_compat; lra. }
  (* the entries of row [i] *)
  assert (Hentry : forall k, (k < m)%nat ->
            dot (row (map_array zero_inf
                        (np_diag (map (fun x => fpow x (-1)) (sum_axis1 kernel)))) i)
                (col kernel k)
            = Fin (ci * Kr i k)).
  { intros k Hk. unfold row, col. simpl.
    rewrite length_map, length_sum_axis1. fold n.
    rewrite dot_map_seq.
    rewrite (fsum_map_Fin _ _ (fun j => (if Nat.eqb i j then ci else 0) * Kr j k)).
    - rewrite Rsum_indicator. simpl.
      replace (Nat.ltb i n) with true by (symmetry; apply Nat.ltb_lt; exact Hi).
      reflexivity.
    - intros j Hj. apply in_seq in Hj.
      destruct (HK j k) as (-> & _); [ lia | exact Hk | ].
      destruct (Nat.eqb i j).
      + unfold sum_axis1, rows. rewrite !map_map.
        rewrite nth_map_seq by exact Hi.
        fold n. rewrite Hrow, inverse_degree by exact Hrow0. reflexivity.
      + reflexivity. }
  assert (Hsum : fsum (row {| shape0 := n; shape1 := m;
                              item := fun i0 k =>
                                dot (row (map_array zero_inf
                                            (np_diag (map (fun x => fpow x (-1))
                                                          (sum_axis1 kernel)))) i0)
                                    (col kernel k) |} i)
                 = Fin (ci * Ri)).
  { unfold row at 1. simpl.
    rewrite (fsum_map_Fin _ _ (fun k => ci * Kr i k)).
    - rewrite Rsum_scale. reflexivity.
    - intros k Hk. apply in_seq in Hk. apply Hentry. lia. }
  split; [ | split ].
  - intros j Hj. simpl. rewrite Hentry by exact Hj.
    exists (ci * Kr i j). split; [ reflexivity | ].
    apply Rmult_le_pos; [ exact Hci | apply HK; assumption ].
  - intros Hz. rewrite Hrow in Hz. injection Hz as Hz.
    assert (Hc0 : ci = 0) by (unfold ci; destruct (Req_dec_T Ri 0); [ reflexivity | contradiction ]).
    split.
    + intros j Hj. simpl. rewrite Hentry by exact Hj. f_equal. rewrite Hc0. lra.
    + rewrite Hsum. f_equal. rewrite Hc0. lra.
  - intros Hnz. rewrite Hsum. f_equal.
    assert (Hr : Ri <> 0) by (intros E; apply Hnz; rewrite Hrow, E; reflexivity).
    unfold ci. destruct (Req_dec_T Ri 0); [ contradiction | ]. field. exact Hr.
Qed.

Lemma diffusion_operator_rows_witness :
  exists P,
    diffusion_operator_of (of_rows [[1; 3]; [0; 0]]) = Ok P
    /\ (forall data t rescale logger w out P' w',
          magic data (of_rows [[1; 3]; [0; 0]]) t rescale logger w
          = (Ok (out, P'), w') -> P' = P)
    /\ shape0 P = 2%nat /\ shape1 P = 2%nat
    /\ forall i, (i < 2)%nat ->
         (forall j, (j < 2)%nat -> exists r, item P i j = Fin r /\ 0 <= r)
         /\ (fsum (row (of_rows [[1; 3]; [0; 0]]) i) = Fin 0 ->
             (forall j, (j < 2)%nat -> item P i j = Fin 0)
             /\ fsum (row P i) = Fin 0)
         /\ (fsum (row (of_rows [[1; 3]; [0; 0]]) i) <> Fin 0 ->
             fsum (row P i) = Fin 1).
Proof.
  apply (diffusion_operator_rows (of_rows [[1; 3]; [0; 0]])).
  simpl. intros i j Hi Hj.
  destruct i as [ | [ | i]]; [ | | lia ];
    (destruct j as [ | [ | j]]; [ | | lia ]);
    simpl; eexists; (split; [ reflexivity | lra ]).
Defined.

(** ** numpts without density equalization *)

Lemma fold_fmax2_Fin :
  forall t x, fold_left fmax2 (map Fin t) (Fin x) = Fin (fold_left Rmax t x).
Proof.
  induction t as [ | y t IH]; intros x; simpl; [ reflexivity | ].
  rewrite fmax2_Fin. apply IH.
Qed.

Lemma np_max_Fin :
  forall ds, ds <> [] -> np_max (map Fin ds) = Ok (Fin (Rmax_list ds)).
Proof.
  intros [ | x t] H; [ contradiction | ].
  unfold np_max. simpl. rewrite fold_fmax2_Fin. reflexivity.
Qed.

Lemma fold_Rmax_ge_init : forall t x, x <= fold_left Rmax t x.
Proof.
  induction t as [ | y t IH]; intros x; simpl; [ lra | ].
  eapply Rle_trans; [ apply (Rmax_l x y) | apply IH ].
Qed.

Lemma Rmax_list_ge : forall ds d, In d ds -> d <= Rmax_list ds.
Proof.
  intros [ | x t] d H; [ destruct H | ]. simpl.
  revert x d H. induction t as [ | y t IH]; intros x d H.
  - destruct H as [E | []]. subst. simpl. lra.
  - simpl. destruct H as [E | H].
    + subst. eapply Rle_trans; [ apply (Rmax_l d y) | apply fold_Rmax_ge_init ].
    + destruct H as [E | H].
      * subst. eapply Rle_trans; [ apply (Rmax_r x d) | apply fold_Rmax_ge_init ].
      * apply IH. right. exact H.
Qed.

Lemma Zsum_floor_bounds :
  forall xs : list R,
    IZR (Zsum (map Zfloor xs)) <= Rsum xs
    /\ Rsum xs <= IZR (Zsum (map Zfloor xs)) + INR (length xs)
    /\ (xs <> [] -> Rsum xs < IZR (Zsum (map Zfloor xs)) + INR (length xs)).
Proof.
  induction xs as [ | x xs IH].
  - simpl. repeat split; try lra. intros H. contradiction.
  - destruct IH as (IH1 & IH2 & _).
    change (Zsum (map Zfloor (x :: xs))) with (Zfloor x + Zsum (map Zfloor xs))%Z.
    change (Rsum (x :: xs)) with (x + Rsum xs).
    change (length (x :: xs)) with (S (length xs)).
    rewrite plus_IZR, S_INR.
    pose proof (Zfloor_bound x) as [Hx1 Hx2].
    repeat split; try lra.
Qed.

Lemma fsum_IZR :
  forall zs : list Z, fsum (map (fun z => Fin (IZR z)) zs) = Fin (IZR (Zsum zs)).
Proof.
  induction zs as [ | z zs IH]; [ reflexivity | ].
  change (fsum (map (fun z => Fin (IZR z)) (z :: zs)))
    with (fadd (Fin (IZR z)) (fsum (map (fun z => Fin (IZR z)) zs))).
  rewrite IH, fadd_Fin. change (Zsum (z :: zs)) with (z + Zsum zs)%Z.
  rewrite plus_IZR. reflexivity.
Qed.

Lemma Rsum_raw_nonneg :
  forall ds, 0 <= Rsum (map (fun d => Rmax_list ds - d) ds).
Proof.
  intros ds. apply Rsum_nonneg. intros d Hd.
  pose proof (Rmax_list_ge ds d Hd). lra.
Qed.

Lemma feqb_IZR_zero : forall z, feqb (Fin (IZR z)) (Fin 0) = Z.eqb z 0.
Proof.
  intros z. destruct (Z.eqb_spec z 0) as [-> | H].
  - apply feqb_Fin_true. reflexivity.
  - apply feqb_Fin_false. intros E. apply H. apply eq_IZR. exact E.
Qed.

Lemma Rguard_large : forall r, 1 / 8 <= r -> Rguard r = r.
Proof.
  intros r H. unfold Rguard. destruct (Rlt_dec r (1 / 8)); [ lra | reflexivity ].
Qed.

Lemma Rguard_small : forall r, - (1 / 8) <= r < 1 / 8 -> Rguard r = r + epsilon17.
Proof.
  intros r H. unfold Rguard.
  destruct (Rlt_dec r (1 / 8)); [ | lra ].
  destruct (Rlt_dec r (- (1 / 8))); [ lra | reflexivity ].
Qed.

Lemma Rguard_pos : forall r, 0 <= r -> 0 < Rguard r.
Proof.
  intros r H. unfold Rguard, epsilon17.
  destruct (Rlt_dec r (1 / 8)); [ destruct (Rlt_dec r (- (1 / 8))) | ]; lra.
Qed.

(** The plain branch on finite degrees, in closed form. *)
Lemma numpts_plain_run :
  forall ds noise_cov kernel_sigma dim M logger w,
    ds <> [] ->
    let N := length ds in
    let M' := if Z.eqb M 0 then Z.of_nat N else M in
    let raw := map (fun d => Rmax_list ds - d) ds in
    let b := map (fun r => Zfloor (r * IZR M' / Rguard (Rsum raw))) raw in
    fst (numpts (map Fin ds) noise_cov kernel_sigma dim M false logger w)
    = Ok (Flat (map (fun z => Fin (IZR z))
                    (if Z.eqb (Zsum b) 0 then repeat 1%Z N else b))).
Proof.
  intros ds noise_cov kernel_sigma dim M logger w Hne N M' raw b.
  pose proof (Rsum_raw_nonneg ds) as Hraw. fold raw in Hraw.
  pose proof (Rguard_pos _ Hraw) as HG.
  unfold numpts. unfold bind at 1, lift at 1.
  rewrite (np_max_Fin ds Hne).
  assert (Hb : map ffloor
                 (scale_to M' (map (fun x => fsub (Fin (Rmax_list ds)) x) (map Fin ds)))
               = map (fun z => Fin (IZR z)) b).
  { unfold scale_to. rewrite !map_map.
    rewrite (fsum_map_Fin _ _ (fun d => Rmax_list ds - d))
      by (intros; apply fsub_Fin).
    cbn [add_guard]. unfold b, raw. rewrite !map_map.
    apply map_ext. intros d. rewrite fsub_Fin, of_Z_Fin, fmul_Fin.
    rewrite fdiv_Fin by (unfold raw in HG; lra). reflexivity. }
  assert (Hones : map (fun _ : fl => Fin 1) (map Fin ds)
                  = map (fun z => Fin (IZR z)) (repeat 1%Z N)).
  { unfold N. clear. induction ds as [ | d ds IH]; simpl; [ reflexivity | ].
    rewrite IH. reflexivity. }
  assert (HM : forall w1, exists w2,
             (if Z.eqb M 0
              then log logger (LogInfo "No M supplied, M = N") ;;;
                   ret (Z.of_nat (length (map Fin ds)))
              else ret M) w1 = (Ok M', w2)).
  { intros w1. unfold M', N. rewrite length_map.
    destruct (Z.eqb M 0).
    - unfold bind. rewrite log_run. eexists. reflexivity.
    - eexists. reflexivity. }
  unfold bind at 1. unfold bind at 1. rewrite log_run.
  unfold bind at 1.
  match goal with
  | |- context [(if Z.eqb M 0 then _ else _) ?w1] =>
      destruct (HM w1) as (w2 & ->)
  end.
  unfold ret at 1. rewrite Hb. unfold npts_values.
  rewrite fsum_IZR, feqb_IZR_zero.
  destruct (Z.eqb (Zsum b) 0).
  - unfold bind. rewrite log_run. unfold ret. simpl. rewrite Hones. reflexivity.
  - destruct (flt (Fin ten4) (Fin (IZR (Zsum b)))).
    + unfold bind. rewrite log_run. reflexivity.
    + reflexivity.
Qed.


Lemma Rmax_list_1_2_4 : Rmax_list [1; 2; 4] = 4.
Proof.
  unfold Rmax_list. simpl.
  rewrite (Rmax_right 1 2) by lra. rewrite (Rmax_right 2 4) by lra. reflexivity.
Qed.


Lemma Rmax_list_1_2 : Rmax_list [1; 2] = 2.
Proof. unfold Rmax_list. simpl. apply Rmax_right. lra. Qed.


(** ** The self-affinity kernel *)

Lemma gauss_kernel_ok_inv :
  forall data1 data2 sigma k a fac logger w K s w',
    gauss_kernel data1 data2 sigma k a fac logger w = (Ok (K, s), w') ->
    exists s0 K0,
      is_known sigma = true
      /\ shape1 data1 = shape1 data2
      /\ resolve_sigma sigma (distance_matrix data1 data2) k = Ok s0
      /\ s = sigma_scale s0 fac
      /\ broadcast2 fdiv (distance_matrix data1 data2) (sigma_array s) = Ok K0
      /\ K = (let K1 := map_array zero_small
                          (map_array zero_nan
                             (map_array (fun x => fexp (fneg (fpow x a))) K0)) in
              if Nat.eqb (shape0 K1) (shape1 K1) then symmetrize K1 else K1).
Proof.
  intros data1 data2 sigma k a fac logger w K s w' H.
  unfold gauss_kernel in H. unfold bind at 1 in H.
  destruct (is_known sigma) eqn:Hk.
  2:{ rewrite validate_sigma_unknown in H by exact Hk. discriminate. }
  rewrite validate_sigma_known in H by exact Hk.
  unfold cdist, bind, emit, lift, ret in H. simpl in H.
  destruct (Nat.eqb_spec (shape1 data1) (shape1 data2)) as [Hc | Hc];
    [ | discriminate ].
  destruct (resolve_sigma sigma (distance_matrix data1 data2) k) as [s0 | e];
    [ | discriminate ].
  destruct (broadcast2 fdiv (distance_matrix data1 data2)
              (sigma_array (sigma_scale s0 fac))) as [K0 | e] eqn:HK0;
    [ | discriminate ].
  inversion H. subst. exists s0, K0. repeat split; try assumption.
Qed.

Lemma fpow_pos_nonneg :
  forall p q, 0 <= q -> exists r, fpow_pos (Fin q) p = Fin r /\ 0 <= r.
Proof.
  intros p q Hq. unfold fpow_pos.
  apply (Pos.iter_invariant p fl (fun acc => fmul acc (Fin q))
           (fun y => exists r, y = Fin r /\ 0 <= r)).
  - intros y (r & -> & Hr). exists (r * q). split; [ reflexivity | ].
    apply Rmult_le_pos; assumption.
  - exists 1. split; [ reflexivity | lra ].
Qed.

Lemma exp_neg_range : forall r, 0 <= r -> 0 <= exp (- r) <= 1.
Proof.
  intros r Hr. split.
  - apply Rlt_le, exp_pos.
  - destruct (Req_dec_T r 0) as [-> | Hne].
    + rewrite Ropp_0, exp_0. lra.
    + rewrite <- exp_0. apply Rlt_le, exp_increasing. lra.
Qed.

Lemma clean_range :
  forall r, 0 <= r <= 1 -> exists r', clean (Fin r) = Fin r' /\ 0 <= r' <= 1.
Proof.
  intros r Hr. unfold clean. rewrite zero_nan_Fin. unfold zero_small.
  destruct (flt (Fin r) (Fin noise_floor)).
  - exists 0. split; [ reflexivity | lra ].
  - exists r. split; [ reflexivity | exact Hr ].
Qed.

Lemma clean_nan : clean NaN = Fin 0.
Proof.
  unfold clean. change (zero_nan NaN) with (Fin 0). unfold zero_small.
  destruct (flt (Fin 0) (Fin noise_floor)); reflexivity.
Qed.

(** The Gaussian decay ([a = 2]) of any value, cleaned, lies in [0,1]. *)
Lemma gaussian_entry_range :
  forall x, exists r, clean (fexp (fneg (fpow x 2))) = Fin r /\ 0 <= r <= 1.
Proof.
  intros x. rewrite fpow_2. destruct x as [ | s | q].
  - exists 0. split; [ apply clean_nan | lra ].
  - unfold fmul at 2. rewrite Rzero_false, Rneg_false by lra.
    rewrite xorb_false_r. unfold fmul. rewrite xorb_nilpotent.
    unfold fneg, fexp. simpl negb. cbv iota.
    apply (clean_range 0). lra.
  - rewrite !fmul_Fin, fneg_Fin, fexp_Fin. apply clean_range.
    apply exp_neg_range. nra.
Qed.

(** Any integer decay of a non-negative finite value, cleaned, lies in
    [0,1]. *)
Lemma decay_entry_range :
  forall a q, 0 <= q ->
    exists r, clean (fexp (fneg (fpow (Fin q) a))) = Fin r /\ 0 <= r <= 1.
Proof.
  intros a q Hq. destruct a as [ | p | p]; unfold fpow.
  - rewrite fneg_Fin, fexp_Fin. apply clean_range. apply exp_neg_range. lra.
  - destruct (fpow_pos_nonneg p q Hq) as (r & -> & Hr).
    rewrite fneg_Fin, fexp_Fin. apply clean_range. apply exp_neg_range. exact Hr.
  - destruct (fpow_pos_nonneg p q Hq) as (r & -> & Hr).
    destruct (Req_dec_T r 0) as [-> | Hne].
    + rewrite fdiv_pos_zero by lra. unfold fneg, fexp. simpl negb. cbv iota.
      apply (clean_range 0). lra.
    + rewrite fdiv_Fin by exact Hne. rewrite fneg_Fin, fexp_Fin.
      apply clean_range. apply exp_neg_range.
      apply Rlt_le. apply Rdiv_lt_0_compat; lra.
Qed.

Lemma clean_below_floor :
  forall x, flt x (Fin noise_floor) = true -> clean x = Fin 0.
Proof.
  intros x H. destruct x as [ | s | r].
  - apply clean_nan.
  - unfold clean. change (zero_nan (Inf s)) with (Inf s).
    unfold zero_small. rewrite H. reflexivity.
  - unfold clean. rewrite zero_nan_Fin. unfold zero_small. rewrite H. reflexivity.
Qed.

Lemma euclid_finite :
  forall A B i j,
    shape1 A = shape1 B ->
    (forall c, finite (item A i c)) -> (forall c, finite (item B j c)) ->
    exists d, euclid (row A i) (row B j) = Fin d /\ 0 <= d.
Proof.
  intros A B i j Hs HA HB. unfold euclid, row. rewrite <- Hs.
  rewrite <- pairs_of_maps, map_map. simpl.
  rewrite (fsum_map_Fin _ _
             (fun c => (to_R (item A i c) - to_R (item B j c))
                       * (to_R (item A i c) - to_R (item B j c)))).
  - assert (H0 : 0 <= Rsum (map (fun c => (to_R (item A i c) - to_R (item B j c))
                                          * (to_R (item A i c) - to_R (item B j c)))
                                (seq 0 (shape1 A)))).
    { apply Rsum_nonneg. intros c _. cbv beta. apply Rle_0_sqr. }
    rewrite fsqrt_Fin by exact H0. eexists. split; [ reflexivity | ].
    apply sqrt_pos.
  - intros c _. destruct (HA c) as (a & ->). destruct (HB c) as (b & ->).
    reflexivity.
Qed.

Lemma broadcast_bandwidth :
  forall D s K0,
    shape0 D = shape1 D ->
    bandwidth_fits s (shape1 D) ->
    broadcast2 fdiv D (sigma_array s) = Ok K0 ->
    shape0 K0 = shape0 D /\ shape1 K0 = shape1 D
    /\ forall i j, (i < shape0 D)%nat -> (j < shape1 D)%nat ->
                   item K0 i j = fdiv (item D i j) (bandwidth_at s j).
Proof.
  intros D s K0 Hsq Hfit H. unfold broadcast2 in H.
  destruct s as [x | v]; simpl in H, Hfit.
  - rewrite !broadcast_dim_one_r in H. inversion H. subst K0. simpl.
    repeat split. intros i j Hi Hj. rewrite !bidx_lt by assumption. reflexivity.
  - rewrite broadcast_dim_one_r, Hfit, broadcast_dim_refl in H.
    inversion H. subst K0. simpl.
    repeat split. intros i j Hi Hj. rewrite !bidx_lt by assumption. reflexivity.
Qed.

(** The entries of a self-affinity kernel: each is the mean of two cleaned
    affinities, and each cleaned affinity is a finite number in [0,1]. *)
Lemma self_affinity_entries :
  forall data sigma k a fac logger w K s w',
    gauss_kernel data data sigma k a fac logger w = (Ok (K, s), w') ->
    bandwidth_fits s (shape0 data) ->
    (a = 2%Z
     \/ ((forall i c, finite (item data i c))
         /\ (forall j, (j < shape0 data)%nat ->
                       exists r, bandwidth_at s j = Fin r /\ 0 < r))) ->
    shape0 K = shape0 data /\ shape1 K = shape0 data
    /\ forall i j, (i < shape0 data)%nat -> (j < shape0 data)%nat ->
         item K i j
         = fdiv (fadd (clean (raw_affinity (distance_matrix data data) s a i j))
                      (clean (raw_affinity (distance_matrix data data) s a j i)))
                (Fin 2)
         /\ exists r, clean (raw_affinity (distance_matrix data data) s a i j) = Fin r
                      /\ 0 <= r <= 1.
Proof.
  intros data sigma k a fac logger w K s w' Hrun Hfit Hdecay.
  destruct (gauss_kernel_ok_inv _ _ _ _ _ _ _ _ _ _ _ Hrun)
    as (s0 & K0 & _ & _ & _ & _ & HK0 & HK).
  set (D := distance_matrix data data) in *.
  set (n := shape0 data) in *.
  destruct (broadcast_bandwidth D s K0 eq_refl Hfit HK0) as (H0 & H1 & Hitem).
  change (shape0 D) with n in *. change (shape1 D) with n in *.
  cbv zeta in HK. simpl in HK. rewrite H0, H1, Nat.eqb_refl in HK.
  split; [ subst K; simpl; exact H0 | ].
  split; [ subst K; simpl; exact H1 | ].
  intros i j Hi Hj. split.
  - subst K. simpl. rewrite (Hitem i j Hi Hj), (Hitem j i Hj Hi). reflexivity.
  - unfold raw_affinity.
    destruct Hdecay as [-> | (Hdata & Hband)].
    + apply gaussian_entry_range.
    + destruct (Hband j Hj) as (r & -> & Hr).
      destruct (euclid_finite data data i j eq_refl (Hdata i) (Hdata j))
        as (d & Hd & Hd0).
      change (item D i j) with (euclid (row data i) (row data j)).
      rewrite Hd, fdiv_Fin by lra.
      apply decay_entry_range.
      unfold Rdiv. apply Rmult_le_pos; [ exact Hd0 | ].
      apply Rlt_le, Rinv_0_lt_compat. exact Hr.
Qed.

Lemma clean_zero_or_floor :
  forall x r, clean x = Fin r -> r = 0 \/ noise_floor <= r.
Proof.
  intros x r H. unfold clean, zero_small in H.
  destruct (flt (zero_nan x) (Fin noise_floor)) eqn:Hlt.
  - injection H as <-. left. reflexivity.
  - rewrite H in Hlt. right. unfold flt in Hlt.
    destruct (Rlt_dec r noise_floor); [ discriminate | lra ].
Qed.

(** C6 (as amended).  A self-affinity kernel [K] returned by
    [gauss_kernel(data, data)] with a bandwidth that has one entry per
    column (or is a scalar), for the Gaussian decay [a = 2] (or for any
    integer decay when the data are finite and the bandwidth is positive):
    [K] is square and symmetric, every entry is a finite number in [0,1],
    and every entry is the mean of the two cleaned affinities
    [exp(-(D/sigma)^a)] at [(i,j)] and [(j,i)], where cleaning replaces NaN
    by 0 and then values below [1e-3] by 0.  The averaging comes after the
    cleaning: the floor is applied to the two affinities, not to their
    mean, so an entry of [K] is 0 or at least half the floor. *)
Theorem gauss_kernel_self_affinity :
  forall data sigma k a fac logger w K s w',
    gauss_kernel data data sigma k a fac logger w = (Ok (K, s), w') ->
    bandwidth_fits s (shape0 data) ->
    (a = 2%Z
     \/ ((forall i c, finite (item data i c))
         /\ (forall j, (j < shape0 data)%nat ->
                       exists r, bandwidth_at s j = Fin r /\ 0 < r))) ->
    shape0 K = shape0 data /\ shape1 K = shape0 data
    /\ (forall i j, (i < shape0 data)%nat -> (j < shape0 data)%nat ->
          item K i j = item K j i
          /\ (exists r, item K i j = Fin r /\ 0 <= r <= 1
                        /\ (r = 0 \/ noise_floor / 2 <= r))
          /\ item K i j
             = fdiv (fadd (clean (raw_affinity (distance_matrix data data) s a i j))
                          (clean (raw_affinity (distance_matrix data data) s a j i)))
                    (Fin 2))
    /\ clean NaN = Fin 0
    /\ (forall x, flt x (Fin noise_floor) = true -> clean x = Fin 0).
Proof.
  intros data sigma k a fac logger w K s w' Hrun Hfit Hdecay.
  destruct (self_affinity_entries _ _ _ _ _ _ _ _ _ _ Hrun Hfit Hdecay)
    as (H0 & H1 & Hall).
  split; [ exact H0 | ]. split; [ exact H1 | ].
  split; [ | split; [ apply clean_nan | apply clean_below_floor ] ].
  intros i j Hi Hj.
  destruct (Hall i j Hi Hj) as (Eij & r1 & E1 & R1).
  destruct (Hall j i Hj Hi) as (Eji & r2 & E2 & R2).
  split; [ | split ].
  - rewrite Eij, Eji, E1, E2, !fadd_Fin, !fdiv_Fin by lra. f_equal. lra.
  - pose proof (clean_zero_or_floor _ _ E1) as F1.
    pose proof (clean_zero_or_floor _ _ E2) as F2.
    rewrite Eij, E1, E2, fadd_Fin, fdiv_Fin by lra.
    exists ((r1 + r2) / 2). split; [ reflexivity | ]. split; [ lra | ].
    destruct F1 as [F1 | F1], F2 as [F2 | F2]; lra.
  - exact Eij.
Qed.

Lemma gauss_kernel_self_affinity_witness :
  exists K s w',
    gauss_kernel (of_rows [[0]; [1]; [3]]) (of_rows [[0]; [1]; [3]])
                 (SigmaStr "knn") 1 2 1 false {| trace := []; draws := 0 |}
    = (Ok (K, s), w')
    /\ shape0 K = 3%nat /\ shape1 K = 3%nat
    /\ (forall i j, (i < 3)%nat -> (j < 3)%nat ->
          item K i j = item K j i
          /\ exists r, item K i j = Fin r /\ 0 <= r <= 1
                       /\ (r = 0 \/ noise_floor / 2 <= r)).
Proof.
  assert (Hrun : exists K s w',
             gauss_kernel (of_rows [[0]; [1]; [3]]) (of_rows [[0]; [1]; [3]])
                          (SigmaStr "knn") 1 2 1 false {| trace := []; draws := 0 |}
             = (Ok (K, s), w')
             /\ bandwidth_fits s 3).
  { eexists. eexists. eexists. split.
    - unfold gauss_kernel, bind, validate_sigma, log, cdist, emit, lift, ret. simpl.
      reflexivity.
    - reflexivity. }
  destruct Hrun as (K & s & w' & Hrun & Hfit).
  exists K, s, w'. split; [ exact Hrun | ].
  destruct (gauss_kernel_self_affinity _ _ _ _ _ _ _ _ _ _ Hrun Hfit (or_introl eq_refl))
    as (H0 & H1 & Hall & _).
  split; [ exact H0 | ]. split; [ exact H1 | ].
  intros i j Hi Hj. destruct (Hall i j Hi Hj) as (Hs & Hr & _).
  split; assumption.
Defined.

Lemma sort_le_Fin :
  forall x y, sort_le (Fin x) (Fin y) = if Rle_dec x y then true else false.
Proof.
  intros x y. unfold sort_le, fle.
  destruct (Rle_dec x y) as [H | H].
  - destruct (Rle_lt_or_eq_dec x y H) as [Hlt | Heq].
    + rewrite flt_Fin_true by exact Hlt. reflexivity.
    + rewrite feqb_Fin_true by exact Heq. apply orb_true_r.
  - rewrite flt_Fin_false by lra. rewrite feqb_Fin_false by lra. reflexivity.
Qed.

Lemma euclid_line :
  forall a b d,
    0 <= d -> (a - b) * (a - b) = d * d -> euclid [Fin a] [Fin b] = Fin d.
Proof.
  intros a b d Hd E. unfold euclid, fsum. cbn [combine map fst snd fold_right].
  rewrite fsub_Fin, fmul_Fin, fadd_Fin, fsqrt_Fin by nra.
  f_equal. rewrite Rplus_0_r, E. apply sqrt_square. exact Hd.
Qed.

Lemma insert_sorted_first :
  forall x y t, x <= y -> insert_sorted (Fin x) (Fin y :: t) = Fin x :: Fin y :: t.
Proof.
  intros x y t H. cbn [insert_sorted]. rewrite sort_le_Fin.
  destruct (Rle_dec x y); [ reflexivity | lra ].
Qed.

Lemma insert_sorted_later :
  forall x y t, y < x -> insert_sorted (Fin x) (Fin y :: t) = Fin y :: insert_sorted (Fin x) t.
Proof.
  intros x y t H. cbn [insert_sorted]. rewrite sort_le_Fin.
  destruct (Rle_dec x y); [ lra | reflexivity ].
Qed.

Lemma insert_sorted_empty : forall x, insert_sorted x [] = [x].
Proof. reflexivity. Qed.

Ltac sort_eval :=
  unfold np_sort; cbn [map fold_right];
  repeat first [ rewrite insert_sorted_empty
               | rewrite insert_sorted_first by lra
               | rewrite insert_sorted_later by lra ].

(** Lower bounds of the exponential by repeated squaring. *)
Lemma exp_double_lower :
  forall x c, 0 <= c -> c <= exp x -> c * c <= exp (2 * x).
Proof.
  intros x c Hc H. replace (2 * x) with (x + x) by lra. rewrite exp_plus. nra.
Qed.

Lemma exp_169_25_lower : 617 <= exp (169 / 25).
Proof.
  assert (H0 : 1769 / 1600 <= exp (169 / 1600)).
  { pose proof (exp_ineq1_le (169 / 1600)). lra. }
  assert (H1 : 764 / 625 <= exp (169 / 800)).
  { pose proof (exp_double_lower (169 / 1600) (1769 / 1600) ltac:(lra) H0) as H.
    replace (2 * (169 / 1600)) with (169 / 800) in H by lra. lra. }
  assert (H2 : 7471 / 5000 <= exp (169 / 400)).
  { pose proof (exp_double_lower (169 / 800) (764 / 625) ltac:(lra) H1) as H.
    replace (2 * (169 / 800)) with (169 / 400) in H by lra. lra. }
  assert (H3 : 11163 / 5000 <= exp (169 / 200)).
  { pose proof (exp_double_lower (169 / 400) (7471 / 5000) ltac:(lra) H2) as H.
    replace (2 * (169 / 400)) with (169 / 200) in H by lra. lra. }
  assert (H4 : 9969 / 2000 <= exp (169 / 100)).
  { pose proof (exp_double_lower (169 / 200) (11163 / 5000) ltac:(lra) H3) as H.
    replace (2 * (169 / 200)) with (169 / 100) in H by lra. lra. }
  assert (H5 : 62113 / 2500 <= exp (169 / 50)).
  { pose proof (exp_double_lower (169 / 100) (9969 / 2000) ltac:(lra) H4) as H.
    replace (2 * (169 / 100)) with (169 / 50) in H by lra. lra. }
  pose proof (exp_double_lower (169 / 50) (62113 / 2500) ltac:(lra) H5) as H.
    replace (2 * (169 / 50)) with (169 / 25) in H by lra. lra.
Qed.

Lemma exp_minus_169_25_lower : 1 / 1000 <= exp (- (169 / 25)).
Proof.
  assert (H0 : 12631 / 12800 <= exp (- (169 / 12800))).
  { pose proof (exp_ineq1_le (- (169 / 12800))). lra. }
  assert (H1 : 9737 / 10000 <= exp (- (169 / 6400))).
  { pose proof (exp_double_lower (- (169 / 12800)) (12631 / 12800) ltac:(lra) H0) as H.
    replace (2 * (- (169 / 12800))) with (- (169 / 6400)) in H by lra. lra. }
  assert (H2 : 94809 / 100000 <= exp (- (169 / 3200))).
  { pose proof (exp_double_lower (- (169 / 6400)) (9737 / 10000) ltac:(lra) H1) as H.
    replace (2 * (- (169 / 6400))) with (- (169 / 3200)) in H by lra. lra. }
  assert (H3 : 89887 / 100000 <= exp (- (169 / 1600))).
  { pose proof (exp_double_lower (- (169 / 3200)) (94809 / 100000) ltac:(lra) H2) as H.
    replace (2 * (- (169 / 3200))) with (- (169 / 1600)) in H by lra. lra. }
  assert (H4 : 20199 / 25000 <= exp (- (169 / 800))).
  { pose proof (exp_double_lower (- (169 / 1600)) (89887 / 100000) ltac:(lra) H3) as H.
    replace (2 * (- (169 / 1600))) with (- (169 / 800)) in H by lra. lra. }
  assert (H5 : 65279 / 100000 <= exp (- (169 / 400))).
  { pose proof (exp_double_lower (- (169 / 800)) (20199 / 25000) ltac:(lra) H4) as H.
    replace (2 * (- (169 / 800))) with (- (169 / 400)) in H by lra. lra. }
  assert (H6 : 42613 / 100000 <= exp (- (169 / 200))).
  { pose proof (exp_double_lower (- (169 / 400)) (65279 / 100000) ltac:(lra) H5) as H.
    replace (2 * (- (169 / 400))) with (- (169 / 200)) in H by lra. lra. }
  assert (H7 : 9079 / 50000 <= exp (- (169 / 100))).
  { pose proof (exp_double_lower (- (169 / 200)) (42613 / 100000) ltac:(lra) H6) as H.
    replace (2 * (- (169 / 200))) with (- (169 / 100)) in H by lra. lra. }
  assert (H8 : 3297 / 100000 <= exp (- (169 / 50))).
  { pose proof (exp_double_lower (- (169 / 100)) (9079 / 50000) ltac:(lra) H7) as H.
    replace (2 * (- (169 / 100))) with (- (169 / 50)) in H by lra. lra. }
  pose proof (exp_double_lower (- (169 / 50)) (3297 / 100000) ltac:(lra) H8) as H.
    replace (2 * (- (169 / 50))) with (- (169 / 25)) in H by lra. lra.
Qed.

Lemma knn_bandwidth_on_line :
  resolve_sigma (SigmaStr "knn")
    (distance_matrix (of_rows [[0]; [1]; [13]; [18]]) (of_rows [[0]; [1]; [13]; [18]])) 1
  = Ok (SigVector [Fin 1; Fin 1; Fin 5; Fin 5]).
Proof.
  assert (Hcols : cols (distance_matrix (of_rows [[0]; [1]; [13]; [18]])
                                        (of_rows [[0]; [1]; [13]; [18]]))
                  = [map Fin [0; 1; 13; 18]; map Fin [1; 0; 12; 17];
                     map Fin [13; 12; 0; 5]; map Fin [18; 17; 5; 0]]).
  { unfold cols, col, distance_matrix, row, of_rows.
    cbn [shape0 shape1 item length hd seq map nth].
    repeat f_equal; apply euclid_line; lra. }
  unfold resolve_sigma. cbn [String.eqb Ascii.eqb Bool.eqb].
  unfold sigma_knn. rewrite Hcols. cbn [map].
  assert (S0 : np_sort [Fin 0; Fin 1; Fin 13; Fin 18] = [Fin 0; Fin 1; Fin 13; Fin 18])
    by (sort_eval; reflexivity).
  assert (S1 : np_sort [Fin 1; Fin 0; Fin 12; Fin 17] = [Fin 0; Fin 1; Fin 12; Fin 17])
    by (sort_eval; reflexivity).
  assert (S2 : np_sort [Fin 13; Fin 12; Fin 0; Fin 5] = [Fin 0; Fin 5; Fin 12; Fin 13])
    by (sort_eval; reflexivity).
  assert (S3 : np_sort [Fin 18; Fin 17; Fin 5; Fin 0] = [Fin 0; Fin 5; Fin 17; Fin 18])
    by (sort_eval; reflexivity).
  rewrite S0, S1, S2, S3. reflexivity.
Qed.

Lemma gaussian_affinity_value :
  forall D s i j d b,
    item D i j = Fin d -> bandwidth_at s j = Fin b -> b <> 0 ->
    raw_affinity D s 2 i j = Fin (exp (- (d / b * (d / b)))).
Proof.
  intros D s i j d b Hd Hb Hne. unfold raw_affinity.
  rewrite Hd, Hb, fdiv_Fin by exact Hne.
  rewrite fpow_2, !fmul_Fin, fneg_Fin, fexp_Fin. f_equal. f_equal. lra.
Qed.

(** C6, counterexample to "entries of K below the noise floor are replaced
    by 0".  The floor is applied to the affinities, not to their mean: on
    the four points 0, 1, 13, 18 of the line with the nearest-neighbour bandwidth
    ([k = 1], which gives the bandwidths 1, 1, 5, 5) the affinity of points
    0 and 2 is [exp(-(13/5)^2)], about 1.16e-3, in one direction and
    [exp(-13^2)], which the floor zeroes, in the other.  The entry of [K]
    is their mean, about 5.8e-4: not zero, and below the floor. *)
Lemma gauss_kernel_entry_below_floor :
  exists K s w',
    gauss_kernel (of_rows [[0]; [1]; [13]; [18]]) (of_rows [[0]; [1]; [13]; [18]])
                 (SigmaStr "knn") 1 2 1 false {| trace := []; draws := 0 |}
    = (Ok (K, s), w')
    /\ item K 0 2 = Fin (exp (- (169 / 25)) / 2)
    /\ 0 < exp (- (169 / 25)) / 2 < noise_floor.
Proof.
  assert (Hrun : exists K s w',
             gauss_kernel (of_rows [[0]; [1]; [13]; [18]]) (of_rows [[0]; [1]; [13]; [18]])
                          (SigmaStr "knn") 1 2 1 false {| trace := []; draws := 0 |}
             = (Ok (K, s), w')).
  { eexists. eexists. eexists.
    unfold gauss_kernel, bind, validate_sigma, log, cdist, emit, lift, ret. simpl.
    reflexivity. }
  destruct Hrun as (K & s & w' & Hrun).
  exists K, s, w'. split; [ exact Hrun | ].
  destruct (gauss_kernel_ok_inv _ _ _ _ _ _ _ _ _ _ _ Hrun)
    as (s0 & K0 & _ & _ & Hs0 & Hs & _ & _).
  rewrite knn_bandwidth_on_line in Hs0. injection Hs0 as <-.
  assert (Hb0 : bandwidth_at s 0 = Fin 1).
  { rewrite Hs. cbn [sigma_scale map bandwidth_at nth].
    rewrite of_Z_Fin, fmul_Fin. f_equal. lra. }
  assert (Hb2 : bandwidth_at s 2 = Fin 5).
  { rewrite Hs. cbn [sigma_scale map bandwidth_at nth].
    rewrite of_Z_Fin, fmul_Fin. f_equal. lra. }
  assert (Hfit : bandwidth_fits s 4) by (rewrite Hs; reflexivity).
  destruct (self_affinity_entries _ _ _ _ _ _ _ _ _ _ Hrun Hfit (or_introl eq_refl))
    as (_ & _ & Hall).
  destruct (Hall 0%nat 2%nat) as (E & _); [ simpl; lia | simpl; lia | ].
  assert (Hd02 : item (distance_matrix (of_rows [[0]; [1]; [13]; [18]])
                                       (of_rows [[0]; [1]; [13]; [18]])) 0 2 = Fin 13).
  { cbn [distance_matrix item]. unfold row, of_rows.
    cbn [shape1 item length hd seq map nth]. apply euclid_line; lra. }
  assert (Hd20 : item (distance_matrix (of_rows [[0]; [1]; [13]; [18]])
                                       (of_rows [[0]; [1]; [13]; [18]])) 2 0 = Fin 13).
  { cbn [distance_matrix item]. unfold row, of_rows.
    cbn [shape1 item length hd seq map nth]. apply euclid_line; lra. }
  pose proof exp_169_25_lower as Hup.
  pose proof exp_minus_169_25_lower as Hlow.
  assert (Hinv : exp (- (169 / 25)) = / exp (169 / 25)) by apply exp_Ropp.
  assert (Hsmall : exp (- (169 / 25)) < 2 / 1000).
  { rewrite Hinv. pose proof (exp_pos (169 / 25)) as Hpos.
    assert (/ exp (169 / 25) <= / 617) by (apply Rinv_le_contravar; lra).
    lra. }
  assert (Hfar : exp (- (13 / 1 * (13 / 1))) < noise_floor).
  { replace (- (13 / 1 * (13 / 1)))
      with (- (169 / 25) + (- (169 / 25) + - (3887 / 25))) by lra.
    rewrite !exp_plus.
    pose proof (exp_neg_range (3887 / 25) ltac:(lra)) as Hr.
    pose proof (exp_pos (- (169 / 25))) as Hpos.
    assert (Hsq : exp (- (169 / 25)) * exp (- (169 / 25)) <= 4 / 1000000) by nra.
    assert (Hprod : exp (- (169 / 25)) * exp (- (3887 / 25)) <= exp (- (169 / 25)))
      by nra.
    unfold noise_floor. nra. }
  split.
  - rewrite E.
    rewrite (gaussian_affinity_value _ s 0%nat 2%nat 13 5 Hd02 Hb2) by lra.
    rewrite (gaussian_affinity_value _ s 2%nat 0%nat 13 1 Hd20 Hb0) by lra.
    replace (13 / 5 * (13 / 5)) with (169 / 25) by lra.
    unfold clean. rewrite !zero_nan_Fin.
    rewrite zero_small_keep by (unfold noise_floor; lra).
    rewrite zero_small_drop by exact Hfar.
    rewrite fadd_Fin, fdiv_Fin by lra. f_equal. lra.
  - unfold noise_floor. lra.
Qed.


(** ** degrees *)

Lemma exp_minus_one_above_floor : noise_floor <= exp (- 1).
Proof.
  replace (-1) with (Ropp 1) by lra.
  rewrite exp_Ropp. pose proof exp_le_3 as H3. pose proof (exp_pos 1) as H0.
  unfold noise_floor.
  assert (H : / 3 <= / exp 1) by (apply Rinv_le_contravar; lra).
  lra.
Qed.

(** C2.  On two points with one feature ([N = 2] rows, one column) and the
    fixed bandwidth 1, the kernel column sums are both [1 + exp(-1)] and
    [degrees] rescales them by [data.shape[1] = 1], the number of columns:
    the degree vector is [1/2, 1/2] and sums to 1, not to [N = 2]. *)
Theorem degrees_mass_is_column_count :
  exists d_hat s_hat s w',
    degrees (of_rows [[0]; [1]]) (SigmaNum (Fin 1)) 5 2 1 false
            {| trace := []; draws := 0 |}
    = (Ok (d_hat, s_hat, s), w')
    /\ d_hat = [Fin (1 / 2); Fin (1 / 2)]
    /\ fsum d_hat = Fin 1
    /\ shape0 (of_rows [[0]; [1]]) = 2%nat
    /\ shape1 (of_rows [[0]; [1]]) = 1%nat.
Proof.
  assert (E : exists d_hat s_hat s w',
             degrees (of_rows [[0]; [1]]) (SigmaNum (Fin 1)) 5 2 1 false
                     {| trace := []; draws := 0 |}
             = (Ok (d_hat, s_hat, s), w')
             /\ d_hat = [Fin (1 / 2); Fin (1 / 2)]).
  { eexists. eexists. eexists. eexists. split.
    - unfold degrees, gauss_kernel, bind, validate_sigma, log, cdist, emit, lift, ret.
      simpl. reflexivity.
    - unfold sum_axis0, cols, col, distance_matrix, euclid, row. simpl. fl_eval.
      replace (- (1 * (1 / (1 * 1)) * (1 / (1 * 1)))) with (- 1) by field.
      rewrite (zero_small_keep _ exp_minus_one_above_floor).
      pose proof (exp_pos (- 1)) as He. set (e := exp (- 1)) in *.
      fl_eval. simpl INR.
      f_equal; [ | f_equal ]; f_equal; field; lra. }
  destruct E as (d_hat & s_hat & s & w' & Hrun & Hd).
  exists d_hat, s_hat, s, w'. split; [ exact Hrun | ].
  split; [ exact Hd | ]. subst d_hat.
  split; [ | split; reflexivity ].
  simpl. fin_eq.
Qed.

(** ** The trace only grows *)

Lemma keeps_ret : forall A (a : A), keeps_trace (ret a).
Proof. intros A a w e H. exact H. Qed.

Lemma keeps_raise : forall A (x : exn), keeps_trace (@raise A x).
Proof. intros A x w e H. exact H. Qed.

Lemma keeps_lift : forall A (o : outcome A), keeps_trace (lift o).
Proof. intros A o w e H. exact H. Qed.

Lemma keeps_emit : forall ev, keeps_trace (emit ev).
Proof. intros ev w e H. simpl. apply in_or_app. left. exact H. Qed.

Lemma keeps_log : forall logger ev, keeps_trace (log logger ev).
Proof.
  intros [] ev; unfold log; [ apply keeps_emit | apply keeps_ret ].
Qed.

Lemma keeps_bind :
  forall A B (m : Py A) (k : A -> Py B),
    keeps_trace m -> (forall a, keeps_trace (k a)) -> keeps_trace (bind m k).
Proof.
  intros A B m k Hm Hk w e H. unfold bind.
  specialize (Hm w e H). destruct (m w) as [[a | x] w1]; simpl in *.
  - apply Hk. exact Hm.
  - exact Hm.
Qed.

Create HintDb trace.

#[local] Hint Resolve keeps_ret keeps_raise keeps_lift keeps_emit keeps_log : trace.

Ltac keeps :=
  repeat first
    [ apply keeps_bind; [ | intros ? ]
    | solve [ auto with trace ]
    | match goal with
      | |- keeps_trace (if ?c then _ else _) => destruct c
      | |- keeps_trace (match ?x with _ => _ end) => destruct x
      end ].

Lemma keeps_validate_sigma :
  forall sigma logger, keeps_trace (validate_sigma sigma logger).
Proof. intros. unfold validate_sigma. keeps. Qed.

Lemma keeps_gauss_kernel :
  forall data1 data2 sigma k a fac logger,
    keeps_trace (gauss_kernel data1 data2 sigma k a fac logger).
Proof.
  intros. unfold gauss_kernel, cdist.
  apply keeps_bind; [ apply keeps_validate_sigma | intros ? ]. keeps.
Qed.

Lemma keeps_magic :
  forall data kernel t rescale logger,
    keeps_trace (magic data kernel t rescale logger).
Proof. intros. unfold magic. keeps. Qed.

Lemma emits_bind_first :
  forall A B e (m : Py A) (k : A -> Py B),
    emits e m -> (forall a, keeps_trace (k a)) -> emits e (bind m k).
Proof.
  intros A B e m k Hm Hk w. unfold bind.
  specialize (Hm w). destruct (m w) as [[a | x] w1]; simpl in *.
  - apply Hk. exact Hm.
  - exact Hm.
Qed.

Lemma emits_bind_after :
  forall A B e (m : Py A) (k : A -> Py B),
    always_returns m -> (forall a, emits e (k a)) -> emits e (bind m k).
Proof.
  intros A B e m k Hm Hk w. unfold bind.
  destruct (Hm w) as (a & w1 & ->). apply Hk.
Qed.

Lemma emits_emit : forall e, emits e (emit e).
Proof. intros e w. simpl. apply in_or_app. right. left. reflexivity. Qed.

Lemma emits_gauss_kernel :
  forall data1 data2 sigma k a fac logger,
    is_known sigma = true ->
    emits (CallCdist (shape0 data1) (shape0 data2))
          (gauss_kernel data1 data2 sigma k a fac logger).
Proof.
  intros data1 data2 sigma k a fac logger Hk. unfold gauss_kernel.
  apply emits_bind_after.
  - intros w. rewrite validate_sigma_known by exact Hk. eexists. eexists. reflexivity.
  - intros _. apply emits_bind_first.
    + unfold cdist. apply emits_bind_first; [ apply emits_emit | intros _; keeps ].
    + intros D. keeps.
Qed.

(** With [t = 0] and a valid bandwidth spec, every run of [mgc_magic]
    computes the distance matrix between [Y] and [X]: the kernels are
    built whatever the inputs. *)
Lemma mgc_magic_zero_steps_calls_cdist :
  forall X Y s_hat sigma k a fac rescale logger,
    is_known sigma = true ->
    emits (CallCdist (shape0 Y) (shape0 X))
          (mgc_magic X Y s_hat sigma k a fac 0 rescale logger).
Proof.
  intros X Y s_hat sigma k a fac rescale logger Hk. unfold mgc_magic.
  apply emits_bind_after.
  - simpl. intros w. unfold bind. rewrite log_run. eexists. eexists. reflexivity.
  - intros new_data. apply emits_bind_first.
    + apply emits_gauss_kernel. exact Hk.
    + intros [new_to_old sigma_nto].
      apply keeps_bind; [ apply keeps_gauss_kernel | intros [old_to_new sigma_otn] ].
      apply keeps_bind; [ apply keeps_lift | intros ? ].
      apply keeps_bind; [ apply keeps_lift | intros ? ].
      apply keeps_bind; [ apply keeps_lift | intros ? ].
      apply keeps_bind; [ apply keeps_magic | intros [? ?] ].
      apply keeps_ret.
Qed.

(** ** The total mass of the degree vector *)

Lemma degrees_ok_inv :
  forall data sigma k a fac logger w d_hat s_hat s w',
    degrees data sigma k a fac logger w = (Ok (d_hat, s_hat, s), w') ->
    exists K w1,
      gauss_kernel data data sigma k a fac logger w1 = (Ok (K, s), w')
      /\ d_hat = map (fun x => fdiv (fmul x (of_nat (shape1 data)))
                                    (fsum (sum_axis0 K)))
                     (sum_axis0 K)
      /\ s_hat = map (fun x => fdiv (Fin 1) x) d_hat.
Proof.
  intros data sigma k a fac logger w d_hat s_hat s w' H.
  unfold degrees in H. unfold bind at 1 in H.
  destruct (validate_sigma sigma logger w) as [[[] | e] w1]; [ | discriminate ].
  unfold bind at 1 in H.
  destruct (gauss_kernel data data sigma k a fac logger w1) as [[[K s1] | e] w2] eqn:E;
    [ | discriminate ].
  unfold ret in H. inversion H. subst.
  exists K, w1. repeat split. exact E.
Qed.

(** For the Gaussian decay, whenever the kernel column sums [p] do not sum
    to zero, the degree vector is [p * data.shape[1] / sum(p)]: its entries
    are non-negative and it sums to the number of columns of [data]. *)
Lemma degrees_total_mass :
  forall data sigma k fac logger w d_hat s_hat s w',
    degrees data sigma k 2 fac logger w = (Ok (d_hat, s_hat, s), w') ->
    bandwidth_fits s (shape0 data) ->
    exists p : list R,
      length p = shape0 data
      /\ Forall (fun x => 0 <= x) p
      /\ (Rsum p <> 0 ->
          d_hat = map (fun x => Fin (x * INR (shape1 data) / Rsum p)) p
          /\ fsum d_hat = Fin (INR (shape1 data))).
Proof.
  intros data sigma k fac logger w d_hat s_hat s w' Hrun Hfit.
  destruct (degrees_ok_inv _ _ _ _ _ _ _ _ _ _ _ Hrun) as (K & w1 & HK & Hd & _).
  destruct (self_affinity_entries _ _ _ _ _ _ _ _ _ _ HK Hfit (or_introl eq_refl))
    as (H0 & H1 & Hentries).
  set (n := shape0 data) in *.
  assert (Hall : forall i j, (i < n)%nat -> (j < n)%nat ->
                   exists r, item K i j = Fin r /\ 0 <= r).
  { intros i j Hi Hj.
    destruct (Hentries i j Hi Hj) as (Eij & r1 & E1 & R1).
    destruct (Hentries j i Hj Hi) as (_ & r2 & E2 & R2).
    rewrite Eij, E1, E2, fadd_Fin, fdiv_Fin by lra.
    exists ((r1 + r2) / 2). split; [ reflexivity | lra ]. }
  set (colsum := fun j => Rsum (map (fun i => to_R (item K i j)) (seq 0 n))).
  assert (Hcol : forall j, (j < n)%nat ->
            fsum (col K j) = Fin (colsum j) /\ 0 <= colsum j).
  { intros j Hj. unfold col, colsum. rewrite H0. split.
    - apply fsum_map_Fin. intros i Hi. apply in_seq in Hi.
      destruct (Hall i j) as (r & -> & _); [ lia | exact Hj | reflexivity ].
    - apply Rsum_nonneg. intros i Hi. apply in_seq in Hi.
      destruct (Hall i j) as (r & -> & Hr); [ lia | exact Hj | ].
      simpl. lra. }
  assert (Hp : sum_axis0 K = map Fin (map colsum (seq 0 n))).
  { unfold sum_axis0, cols. rewrite H1, !map_map.
    apply map_ext_in. intros j Hj. apply in_seq in Hj. apply Hcol. lia. }
  exists (map colsum (seq 0 n)).
  split; [ rewrite length_map, length_seq; reflexivity | ].
  split.
  { apply Forall_forall. intros x Hx. apply in_map_iff in Hx.
    destruct Hx as (j & <- & Hj). apply in_seq in Hj. apply Hcol. lia. }
  intros Hnz. rewrite Hp in Hd. rewrite fsum_Fin in Hd.
  assert (Hd' : d_hat = map (fun x => Fin (x * INR (shape1 data) / Rsum (map colsum (seq 0 n))))
                            (map colsum (seq 0 n))).
  { rewrite Hd, map_map. apply map_ext. intros x.
    rewrite of_nat_Fin, fmul_Fin, fdiv_Fin by exact Hnz. reflexivity. }
  split; [ exact Hd' | ].
  rewrite Hd'.
  rewrite <- (map_map (fun x => x * INR (shape1 data) / Rsum (map colsum (seq 0 n))) Fin).
  rewrite fsum_Fin. f_equal.
  rewrite (map_ext (fun x => x * INR (shape1 data) / Rsum (map colsum (seq 0 n)))
                   (fun x => (INR (shape1 data) / Rsum (map colsum (seq 0 n)))
                             * (fun y => y) x))
    by (intros; unfold Rdiv; ring).
  rewrite Rsum_scale, map_id. field. exact Hnz.
Qed.

(** ** generate with an all-zero budget *)

Lemma to_int_zero : to_int (Fin 0) = 0%Z.
Proof. unfold to_int. rewrite Rneg_false by lra. rewrite (ZfloorZ 0). reflexivity. Qed.

(** With per-point covariances, no labels and a budget of zeros (one per
    data row), nothing is collected and [np.vstack] of the empty list
    raises: the call does not return an empty point set. *)
Lemma generate_zero_budget_raises :
  forall mvn_sample data covs logger w,
    exists w',
      generate mvn_sample data (Flat (repeat (Fin 0) (shape0 data)))
               (NoiseMatrices covs) [] logger w
      = (Raise (ValueError "need at least one array to concatenate"), w').
Proof.
  intros mvn_sample data covs logger w. unfold generate.
  assert (Hloop : forall l w0,
             (forall i, In i l -> (i < shape0 data)%nat) ->
             for_each l
               (fun i '(rep_centers, rep_cov, labels_out) =>
                  n <- npts_at (Flat (repeat (Fin 0) (shape0 data))) i ;;
                  reps <- tile_columns (Flat (repeat (Fin 0) (shape0 data))) (shape1 data) n ;;
                  let new_center :=
                    {| shape0 := shape1 data; shape1 := reps;
                       item := fun a _ => item data i a |} in
                  labels_out <- add_labels [] i reps labels_out ;;
                  let rep_centers :=
                    if Nat.eqb (shape0 new_center * shape1 new_center) 0
                    then rep_centers else rep_centers ++ [new_center] in
                  if negb (Z.eqb n 0) then
                    cov <- from_option (nth_error covs i)
                             (IndexError "index is out of bounds for axis 0") ;;
                    tiled <- lift (tile_reshape cov reps) ;;
                    ret (rep_centers, rep_cov ++ [tiled], labels_out)
                  else ret (rep_centers, rep_cov, labels_out))
               ([], [], LabelsEmpty) w0
             = (Ok ([], [], LabelsEmpty), w0)).
  { induction l as [ | i l IH]; intros w0 Hl; [ reflexivity | ].
    cbn [for_each]. unfold bind at 1.
    assert (Hat : npts_at (Flat (repeat (Fin 0) (shape0 data))) i w0 = (Ok 0%Z, w0)).
    { unfold npts_at. simpl npts_values.
      rewrite (map_nth_error to_int i (repeat (Fin 0) (shape0 data)) (d := Fin 0)).
      - rewrite to_int_zero. reflexivity.
      - rewrite nth_error_repeat; [ reflexivity | apply Hl; left; reflexivity ]. }
    unfold bind at 1. rewrite Hat.
    unfold bind at 1. unfold tile_columns, tile_reps. simpl Z.ltb. cbv iota.
    unfold ret at 1. unfold bind at 1. unfold add_labels, ret at 1.
    simpl. rewrite Nat.mul_0_r. simpl.
    apply IH. intros j Hj. apply Hl. right. exact Hj. }
  unfold bind at 1. rewrite Hloop.
  - unfold bind, lift. simpl. eexists. reflexivity.
  - intros i Hi. apply in_seq in Hi. lia.
Qed.

(** ** generate with per-point covariances: an example *)

Lemma to_int_IZR :
  forall z, (0 <= z <= INT64_MAX)%Z -> to_int (Fin (IZR z)) = z.
Proof.
  intros z Hz. unfold to_int. rewrite Rneg_false by (apply IZR_le; lia).
  rewrite ZfloorZ. cbv zeta.
  replace (INT64_MIN <=? z)%Z with true
    by (symmetry; apply Z.leb_le; unfold INT64_MIN; lia).
  replace (z <=? INT64_MAX)%Z with true by (symmetry; apply Z.leb_le; lia).
  reflexivity.
Qed.

(** Two source points with budgets 2 and 1: three rows are drawn, the two
    around the first point before the one around the second, and the two
    labels are repeated alongside (in nested pairs). *)
Lemma generate_covariance_example :
  forall mvn_sample,
  exists points labels_out w',
    generate mvn_sample (of_rows [[0]; [5]]) (Flat [Fin 2; Fin 1])
             (NoiseMatrices [of_rows [[1]]; of_rows [[4]]]) ["a"; "b"] false
             {| trace := []; draws := 0 |}
    = (Ok (points, labels_out), w')
    /\ shape0 points = 3%nat
    /\ trace w' = [Draw [Fin 0]; Draw [Fin 0]; Draw [Fin 5]]
    /\ draws w' = 3%nat
    /\ labels_out = LabelsPair (LabelsPair LabelsEmpty ["a"; "a"]) ["b"].
Proof.
  intros mvn_sample.
  eexists. eexists. eexists. split.
  - assert (E2 : to_int (Fin 2) = 2%Z)
      by (apply (to_int_IZR 2); unfold INT64_MAX; lia).
    assert (E1 : to_int (Fin 1) = 1%Z)
      by (apply (to_int_IZR 1); unfold INT64_MAX; lia).
    unfold generate, npts_at, npts_values. cbn [map]. rewrite E2, E1.
    unfold bind, from_option, tile_columns, tile_reps, add_labels, lift, ret. simpl.
    reflexivity.
  - simpl. repeat split.
Qed.

(* ================================================================== *)
(** * Part III: further properties of the code                         *)
(* ================================================================== *)

(** ** gauss_kernel: the shape of the kernel and of the bandwidth *)

Lemma sigma_minmax_scalar :
  forall D s, sigma_minmax D = Ok s -> exists x, s = SigScalar x.
Proof.
  intros D s H. unfold sigma_minmax in H.
  destruct (broadcast2 fadd D _) as [sh | e]; [ | discriminate ].
  destruct (min_axis0 sh) as [m | e]; [ | discriminate ].
  destruct (np_max m) as [x | e]; [ | discriminate ].
  inversion H. eexists. reflexivity.
Qed.

Lemma sigma_scale_fits :
  forall s fac n, bandwidth_fits s n -> bandwidth_fits (sigma_scale s fac) n.
Proof.
  intros [x | v] fac n H; simpl in *; [ exact I | ].
  rewrite length_map. exact H.
Qed.

Lemma resolve_named_fits :
  forall sigma D k s,
    resolve_sigma sigma D k = Ok s ->
    (forall f, sigma <> SigmaFun f) ->
    bandwidth_fits s (shape1 D).
Proof.
  intros sigma D k s H Hnf. destruct sigma as [name | x | f | ]; simpl in H.
  - destruct (String.eqb name "minmax").
    { destruct (sigma_minmax_scalar D s H) as (x & ->). exact I. }
    destruct (String.eqb name "median"); [ inversion H; exact I | ].
    destruct (String.eqb name "std"); [ inversion H; exact I | ].
    destruct (String.eqb name "knn"); [ | discriminate ].
    unfold sigma_knn in H. destruct (py_index (shape0 D) k); [ | discriminate ].
    inversion H. simpl. unfold cols. rewrite !length_map, length_seq. reflexivity.
  - inversion H. exact I.
  - exfalso. apply (Hnf f). reflexivity.
  - discriminate.
Qed.

Lemma broadcast_fitting_bandwidth :
  forall D s K0,
    bandwidth_fits s (shape1 D) ->
    broadcast2 fdiv D (sigma_array s) = Ok K0 ->
    shape0 K0 = shape0 D /\ shape1 K0 = shape1 D
    /\ forall i j, (i < shape0 D)%nat -> (j < shape1 D)%nat ->
                   item K0 i j = fdiv (item D i j) (bandwidth_at s j).
Proof.
  intros D s K0 Hfit H. unfold broadcast2 in H.
  destruct s as [x | v]; simpl in H, Hfit.
  - rewrite !broadcast_dim_one_r in H. inversion H. subst K0. simpl.
    repeat split. intros i j Hi Hj. rewrite !bidx_lt by assumption. reflexivity.
  - rewrite broadcast_dim_one_r, Hfit, broadcast_dim_refl in H.
    inversion H. subst K0. simpl.
    repeat split. intros i j Hi Hj. rewrite !bidx_lt by assumption. reflexivity.
Qed.

(** The finished kernel in terms of the broadcast quotient [K0]. *)
Lemma finished_kernel_shape :
  forall (K0 : ndarray) a,
    let K1 := map_array zero_small
                (map_array zero_nan
                   (map_array (fun x => fexp (fneg (fpow x a))) K0)) in
    let K := if Nat.eqb (shape0 K1) (shape1 K1) then symmetrize K1 else K1 in
    shape0 K = shape0 K0 /\ shape1 K = shape1 K0.
Proof.
  intros K0 a K1 K. unfold K.
  destruct (Nat.eqb (shape0 K1) (shape1 K1)); split; reflexivity.
Qed.

(** For a named heuristic or a numeric bandwidth, a kernel between [N] and
    [M] points has shape [N x M], and the returned bandwidth is a scalar or
    has one entry per column, that is per point of [data2]. *)
Theorem gauss_kernel_shapes :
  forall data1 data2 sigma k a fac logger w K s w',
    gauss_kernel data1 data2 sigma k a fac logger w = (Ok (K, s), w') ->
    (forall f, sigma <> SigmaFun f) ->
    shape0 K = shape0 data1 /\ shape1 K = shape0 data2
    /\ bandwidth_fits s (shape0 data2).
Proof.
  intros data1 data2 sigma k a fac logger w K s w' Hrun Hnf.
  destruct (gauss_kernel_ok_inv _ _ _ _ _ _ _ _ _ _ _ Hrun)
    as (s0 & K0 & _ & _ & Hres & Hs & HK0 & HK).
  assert (Hfit : bandwidth_fits s (shape0 data2)).
  { subst s. apply sigma_scale_fits.
    apply (resolve_named_fits _ _ _ _ Hres Hnf). }
  destruct (broadcast_fitting_bandwidth (distance_matrix data1 data2) s K0 Hfit HK0)
    as (H0 & H1 & _).
  destruct (finished_kernel_shape K0 a) as (E0 & E1).
  rewrite HK. cbv zeta in E0, E1 |- *. rewrite E0, E1, H0, H1.
  repeat split. exact Hfit.
Qed.

Lemma gauss_kernel_shapes_witness :
  exists K s w',
    gauss_kernel (of_rows [[0]; [1]; [3]]) (of_rows [[0]; [2]])
                 (SigmaStr "knn") 1 2 1 false {| trace := []; draws := 0 |}
    = (Ok (K, s), w')
    /\ shape0 K = 3%nat /\ shape1 K = 2%nat /\ bandwidth_fits s 2.
Proof.
  assert (Hrun : exists K s w',
             gauss_kernel (of_rows [[0]; [1]; [3]]) (of_rows [[0]; [2]])
                          (SigmaStr "knn") 1 2 1 false {| trace := []; draws := 0 |}
             = (Ok (K, s), w')).
  { eexists. eexists. eexists.
    unfold gauss_kernel, bind, validate_sigma, log, cdist, emit, lift, ret. simpl.
    reflexivity. }
  destruct Hrun as (K & s & w' & Hrun).
  exists K, s, w'. split; [ exact Hrun | ].
  apply (gauss_kernel_shapes _ _ _ _ _ _ _ _ _ _ _ Hrun).
  intros f. discriminate.
Defined.

(** ** gauss_kernel: the k-nearest-neighbour bandwidth needs more than k points *)

Lemma py_index_none :
  forall n k, py_index n k = None <-> (k < - Z.of_nat n \/ Z.of_nat n <= k)%Z.
Proof.
  intros n k. unfold py_index.
  destruct (Z.leb_spec 0 k).
  - destruct (Z.ltb_spec k (Z.of_nat n)); split; intros; try discriminate; try lia.
    reflexivity.
  - destruct (Z.leb_spec (- Z.of_nat n) k); split; intros; try discriminate; try lia.
    reflexivity.
Qed.

(** With [sigma = "knn"] and two sets with the same number of features,
    [gauss_kernel] raises [IndexError] exactly when [k] is not a valid row
    index of the distance matrix ([k >= N] or [k < -N], with [N] the number
    of points of [data1]); otherwise it returns a kernel with an adaptive
    bandwidth, one entry per point of [data2].  The default [k = 5] thus
    needs at least six points. *)
Theorem gauss_kernel_knn_needs_points :
  forall data1 data2 k a fac logger w,
    shape1 data1 = shape1 data2 ->
    ((k < - Z.of_nat (shape0 data1) \/ Z.of_nat (shape0 data1) <= k)%Z ->
     fst (gauss_kernel data1 data2 (SigmaStr "knn") k a fac logger w)
     = Raise (IndexError "index is out of bounds for axis 0"))
    /\ ((- Z.of_nat (shape0 data1) <= k < Z.of_nat (shape0 data1))%Z ->
        exists K v,
          fst (gauss_kernel data1 data2 (SigmaStr "knn") k a fac logger w)
          = Ok (K, SigVector v)
          /\ length v = shape0 data2).
Proof.
  intros data1 data2 k a fac logger w Hc.
  split; intros Hk; unfold gauss_kernel, bind at 1;
    rewrite validate_sigma_known by reflexivity;
    unfold cdist, bind, emit, lift, ret; simpl;
    rewrite Hc, Nat.eqb_refl; unfold sigma_knn; simpl shape0.
  - apply py_index_none in Hk. rewrite Hk. reflexivity.
  - destruct (py_index (shape0 data1) k) as [i | ] eqn:E.
    + unfold broadcast2. simpl.
      rewrite broadcast_dim_one_r.
      unfold cols. rewrite !length_map, length_seq. simpl shape1.
      rewrite broadcast_dim_refl.
      eexists. eexists. split; [ reflexivity | ].
      rewrite !length_map, length_seq. reflexivity.
    + apply py_index_none in E. lia.
Qed.

Lemma gauss_kernel_knn_needs_points_witness :
  fst (gauss_kernel (of_rows [[0]; [1]; [2]; [3]; [4]]) (of_rows [[0]; [1]; [2]; [3]; [4]])
         (SigmaStr "knn") 5 2 1 false {| trace := []; draws := 0 |})
  = Raise (IndexError "index is out of bounds for axis 0").
Proof.
  apply (gauss_kernel_knn_needs_points
           (of_rows [[0]; [1]; [2]; [3]; [4]]) (of_rows [[0]; [1]; [2]; [3]; [4]])
           5 2 1 false {| trace := []; draws := 0 |} eq_refl).
  right. simpl. lia.
Defined.

(** ** gauss_kernel: the entries of the kernel *)

(** Without symmetrization ([N <> M]) an entry is the cleaned affinity;
    with it ([N = M]) it is the mean of the two cleaned affinities. *)
Lemma gauss_kernel_entries :
  forall data1 data2 sigma k a fac logger w K s w',
    gauss_kernel data1 data2 sigma k a fac logger w = (Ok (K, s), w') ->
    bandwidth_fits s (shape0 data2) ->
    let D := distance_matrix data1 data2 in
    forall i j, (i < shape0 data1)%nat -> (j < shape0 data2)%nat ->
      (shape0 data1 <> shape0 data2 ->
       item K i j = clean (raw_affinity D s a i j))
      /\ (shape0 data1 = shape0 data2 ->
          item K i j = fdiv (fadd (clean (raw_affinity D s a i j))
                                  (clean (raw_affinity D s a j i))) (Fin 2)).
Proof.
  intros data1 data2 sigma k a fac logger w K s w' Hrun Hfit D i j Hi Hj.
  destruct (gauss_kernel_ok_inv _ _ _ _ _ _ _ _ _ _ _ Hrun)
    as (s0 & K0 & _ & _ & _ & _ & HK0 & HK).
  destruct (broadcast_fitting_bandwidth (distance_matrix data1 data2) s K0 Hfit HK0)
    as (H0 & H1 & Hitem).
  simpl shape0 in *. simpl shape1 in *.
  cbv zeta in HK. simpl in HK. rewrite H0, H1 in HK.
  split; intros Hs.
  - apply Nat.eqb_neq in Hs. rewrite Hs in HK. subst K. simpl.
    rewrite (Hitem i j Hi Hj). reflexivity.
  - assert (Hj' : (j < shape0 data1)%nat) by lia.
    assert (Hi' : (i < shape0 data2)%nat) by lia.
    apply Nat.eqb_eq in Hs. rewrite Hs in HK. subst K. simpl.
    rewrite (Hitem i j Hi Hj), (Hitem j i Hj' Hi'). reflexivity.
Qed.

Lemma clean_floor :
  forall r, 0 <= r <= 1 ->
    exists r', clean (Fin r) = Fin r' /\ (r' = 0 \/ noise_floor <= r' <= 1).
Proof.
  intros r Hr. unfold clean. rewrite zero_nan_Fin. unfold zero_small, flt.
  destruct (Rlt_dec r noise_floor).
  - exists 0. split; [ reflexivity | left; reflexivity ].
  - exists r. split; [ reflexivity | right; lra ].
Qed.

Lemma gaussian_entry_floor :
  forall x, exists r,
    clean (fexp (fneg (fpow x 2))) = Fin r /\ (r = 0 \/ noise_floor <= r <= 1).
Proof.
  intros x. rewrite fpow_2. destruct x as [ | s | q].
  - exists 0. split; [ apply clean_nan | left; reflexivity ].
  - unfold fmul at 2. rewrite Rzero_false, Rneg_false by lra.
    rewrite xorb_false_r. unfold fmul. rewrite xorb_nilpotent.
    unfold fneg, fexp. simpl negb. cbv iota.
    apply (clean_floor 0). lra.
  - rewrite !fmul_Fin, fneg_Fin, fexp_Fin. apply clean_floor.
    apply exp_neg_range. nra.
Qed.

(** A kernel between two sets of different sizes is not symmetrized: for
    the Gaussian decay every entry is either exactly 0 or a number between
    the noise floor [1e-3] and 1. *)
Theorem gauss_kernel_rectangular_floor :
  forall data1 data2 sigma k fac logger w K s w',
    gauss_kernel data1 data2 sigma k 2 fac logger w = (Ok (K, s), w') ->
    bandwidth_fits s (shape0 data2) ->
    shape0 data1 <> shape0 data2 ->
    forall i j, (i < shape0 data1)%nat -> (j < shape0 data2)%nat ->
      exists r, item K i j = Fin r /\ (r = 0 \/ noise_floor <= r <= 1).
Proof.
  intros data1 data2 sigma k fac logger w K s w' Hrun Hfit Hne i j Hi Hj.
  destruct (gauss_kernel_entries _ _ _ _ _ _ _ _ _ _ _ Hrun Hfit i j Hi Hj)
    as (Hrect & _).
  rewrite (Hrect Hne). unfold raw_affinity. apply gaussian_entry_floor.
Qed.

Lemma gauss_kernel_rectangular_floor_witness :
  exists K s w',
    gauss_kernel (of_rows [[0]; [1]; [3]]) (of_rows [[0]; [2]])
                 (SigmaStr "knn") 1 2 1 false {| trace := []; draws := 0 |}
    = (Ok (K, s), w')
    /\ forall i j, (i < 3)%nat -> (j < 2)%nat ->
         exists r, item K i j = Fin r /\ (r = 0 \/ noise_floor <= r <= 1).
Proof.
  assert (Hrun : exists K s w',
             gauss_kernel (of_rows [[0]; [1]; [3]]) (of_rows [[0]; [2]])
                          (SigmaStr "knn") 1 2 1 false {| trace := []; draws := 0 |}
             = (Ok (K, s), w') /\ bandwidth_fits s 2).
  { eexists. eexists. eexists. split.
    - unfold gauss_kernel, bind, validate_sigma, log, cdist, emit, lift, ret. simpl.
      reflexivity.
    - reflexivity. }
  destruct Hrun as (K & s & w' & Hrun & Hfit).
  exists K, s, w'. split; [ exact Hrun | ].
  apply (gauss_kernel_rectangular_floor _ _ _ _ _ _ _ _ _ _ Hrun Hfit).
  simpl. lia.
Defined.

(** ** gauss_kernel: a zero bandwidth *)

Lemma zero_bandwidth_entry :
  forall x, clean (fexp (fneg (fpow (fdiv x (Fin 0)) 2))) = Fin 0.
Proof.
  intros x.
  assert (Hinf : forall s, clean (fexp (fneg (fpow (Inf s) 2))) = Fin 0).
  { intros s. rewrite fpow_2. unfold fmul at 2.
    rewrite Rzero_false, Rneg_false by lra. rewrite xorb_false_r.
    unfold fmul. rewrite xorb_nilpotent. unfold fneg, fexp. simpl negb. cbv iota.
    unfold clean. rewrite zero_nan_Fin. unfold zero_small, flt.
    destruct (Rlt_dec 0 noise_floor); reflexivity. }
  destruct x as [ | s | q].
  - apply clean_nan.
  - unfold fdiv. apply Hinf.
  - unfold fdiv. rewrite Rzero_true by reflexivity.
    destruct (Rzero q); [ apply clean_nan | apply Hinf ].
Qed.

(** When the resolved bandwidth is the scalar 0 (a numeric [sigma = 0], or
    a heuristic that evaluates to 0), the Gaussian kernel is identically 0,
    diagonal included: the quotients [D / 0] are NaN or infinite and are
    all cleaned away. *)
Theorem gauss_kernel_zero_bandwidth :
  forall data1 data2 sigma k fac logger w K w',
    gauss_kernel data1 data2 sigma k 2 fac logger w
    = (Ok (K, SigScalar (Fin 0)), w') ->
    forall i j, (i < shape0 data1)%nat -> (j < shape0 data2)%nat ->
      item K i j = Fin 0.
Proof.
  intros data1 data2 sigma k fac logger w K w' Hrun i j Hi Hj.
  destruct (gauss_kernel_entries _ _ _ _ _ _ _ _ _ _ _ Hrun I i j Hi Hj)
    as (Hrect & Hsq).
  destruct (Nat.eq_dec (shape0 data1) (shape0 data2)) as [E | E].
  - rewrite (Hsq E). unfold raw_affinity. simpl bandwidth_at.
    rewrite !zero_bandwidth_entry, fadd_Fin, fdiv_Fin by lra. f_equal. lra.
  - rewrite (Hrect E). unfold raw_affinity. simpl bandwidth_at.
    apply zero_bandwidth_entry.
Qed.

Lemma gauss_kernel_zero_bandwidth_witness :
  exists K w',
    gauss_kernel (of_rows [[0]; [1]]) (of_rows [[0]; [1]]) (SigmaNum (Fin 0))
                 5 2 1 false {| trace := []; draws := 0 |}
    = (Ok (K, SigScalar (Fin 0)), w')
    /\ forall i j, (i < 2)%nat -> (j < 2)%nat -> item K i j = Fin 0.
Proof.
  assert (Hrun : exists K w',
             gauss_kernel (of_rows [[0]; [1]]) (of_rows [[0]; [1]]) (SigmaNum (Fin 0))
                          5 2 1 false {| trace := []; draws := 0 |}
             = (Ok (K, SigScalar (Fin 0)), w')).
  { assert (E : fmul (Fin 0) (of_Z 1) = Fin 0)
      by (rewrite of_Z_Fin, fmul_Fin; f_equal; lra).
    eexists. eexists.
    unfold gauss_kernel, bind, validate_sigma, log, cdist, emit, lift, ret. simpl.
    rewrite E. reflexivity. }
  destruct Hrun as (K & w' & Hrun).
  exists K, w'. split; [ exact Hrun | ].
  apply (gauss_kernel_zero_bandwidth _ _ _ _ _ _ _ _ _ Hrun).
Defined.

(** ** gauss_kernel: the diagonal of a self-affinity kernel *)

Lemma Rsum_all_zero :
  forall (X : Type) (h : X -> R) (idx : list X),
    (forall x, In x idx -> h x = 0) -> Rsum (map h idx) = 0.
Proof.
  intros X h idx H. induction idx as [ | x idx IH]; [ reflexivity | ].
  simpl. rewrite (H x) by (left; reflexivity).
  rewrite IH; [ lra | ]. intros y Hy. apply H. right. exact Hy.
Qed.

Lemma euclid_self :
  forall A i, (forall c, finite (item A i c)) ->
    euclid (row A i) (row A i) = Fin 0.
Proof.
  intros A i HA. unfold euclid, row.
  rewrite <- pairs_of_maps, map_map. simpl.
  rewrite (fsum_map_Fin _ _ (fun c => (to_R (item A i c) - to_R (item A i c))
                                      * (to_R (item A i c) - to_R (item A i c)))).
  - rewrite Rsum_all_zero by (intros; ring).
    rewrite fsqrt_Fin by lra. rewrite sqrt_0. reflexivity.
  - intros c _. destruct (HA c) as (a & ->). reflexivity.
Qed.

Lemma diagonal_affinity :
  forall data sigma k fac logger w K s w' i,
    gauss_kernel data data sigma k 2 fac logger w = (Ok (K, s), w') ->
    bandwidth_fits s (shape0 data) ->
    (i < shape0 data)%nat ->
    (forall c, finite (item data i c)) ->
    (exists r, bandwidth_at s i = Fin r /\ 0 < r) ->
    item K i i = Fin 1.
Proof.
  intros data sigma k fac logger w K s w' i Hrun Hfit Hi Hdata (r & Hs & Hr).
  destruct (gauss_kernel_entries _ _ _ _ _ _ _ _ _ _ _ Hrun Hfit i i Hi Hi)
    as (_ & Hsq).
  rewrite (Hsq eq_refl). unfold raw_affinity.
  change (item (distance_matrix data data) i i)
    with (euclid (row data i) (row data i)).
  rewrite (euclid_self data i Hdata), Hs.
  rewrite fdiv_Fin by lra. rewrite fpow_2, !fmul_Fin, fneg_Fin, fexp_Fin.
  replace (- (1 * (0 / r) * (0 / r))) with 0 by (field; lra).
  rewrite exp_0. unfold clean. rewrite zero_nan_Fin.
  rewrite zero_small_keep by (unfold noise_floor; lra).
  rewrite fadd_Fin, fdiv_Fin by lra. f_equal. lra.
Qed.

(** A point has affinity exactly 1 with itself: for the Gaussian decay,
    the diagonal entry of a self-affinity kernel is 1 at every point whose
    coordinates are finite and whose bandwidth is finite and positive; in
    particular the whole diagonal is 1 when this holds at every point. *)
Theorem gauss_kernel_unit_diagonal :
  forall data sigma k fac logger w K s w' i,
    gauss_kernel data data sigma k 2 fac logger w = (Ok (K, s), w') ->
    bandwidth_fits s (shape0 data) ->
    (i < shape0 data)%nat ->
    (forall c, finite (item data i c)) ->
    (exists r, bandwidth_at s i = Fin r /\ 0 < r) ->
    item K i i = Fin 1.
Proof.
  intros data sigma k fac logger w K s w' i Hrun Hfit Hi Hdata Hs.
  exact (diagonal_affinity _ _ _ _ _ _ _ _ _ i Hrun Hfit Hi Hdata Hs).
Qed.

Lemma gauss_kernel_unit_diagonal_witness :
  exists K s w',
    gauss_kernel (of_rows [[0]; [1]]) (of_rows [[0]; [1]]) (SigmaNum (Fin 3))
                 5 2 1 false {| trace := []; draws := 0 |}
    = (Ok (K, s), w')
    /\ item K 1 1 = Fin 1.
Proof.
  assert (Hrun : exists K s w',
             gauss_kernel (of_rows [[0]; [1]]) (of_rows [[0]; [1]]) (SigmaNum (Fin 3))
                          5 2 1 false {| trace := []; draws := 0 |}
             = (Ok (K, s), w')
             /\ bandwidth_fits s 2
             /\ bandwidth_at s 1 = fmul (Fin 3) (of_Z 1)).
  { eexists. eexists. eexists. split; [ | split ].
    - unfold gauss_kernel, bind, validate_sigma, log, cdist, emit, lift, ret. simpl.
      reflexivity.
    - exact I.
    - reflexivity. }
  destruct Hrun as (K & s & w' & Hrun & Hfit & Hs).
  exists K, s, w'. split; [ exact Hrun | ].
  apply (gauss_kernel_unit_diagonal _ _ _ _ _ _ _ _ _ 1%nat Hrun Hfit).
  - simpl. lia.
  - intros c. simpl. eexists. reflexivity.
  - exists (3 * 1). split; [ rewrite Hs; reflexivity | lra ].
Defined.

(** ** gauss_kernel: a scalar bandwidth needs no symmetrization *)

Lemma square_difference_sym :
  forall a b, fmul (fsub a b) (fsub a b) = fmul (fsub b a) (fsub b a).
Proof.
  intros [ | s | x] [ | t | y]; try reflexivity.
  - destruct s, t; reflexivity.
  - unfold fsub, fneg, fadd, fmul. destruct s; reflexivity.
  - unfold fsub, fneg, fadd, fmul. destruct t; reflexivity.
  - rewrite !fsub_Fin, !fmul_Fin. f_equal. ring.
Qed.

Lemma euclid_sym : forall u v, euclid u v = euclid v u.
Proof.
  intros u v. unfold euclid. f_equal. f_equal.
  revert v. induction u as [ | a u IH]; intros [ | b v]; try reflexivity.
  simpl. rewrite IH. f_equal. apply square_difference_sym.
Qed.

(** With a scalar bandwidth the affinities of a self-affinity kernel are
    already symmetric, so the averaging changes nothing: for the Gaussian
    decay every entry is a cleaned affinity, hence exactly 0 or between the
    noise floor [1e-3] and 1. *)
Theorem gauss_kernel_scalar_bandwidth_floor :
  forall data sigma k fac logger w K x w',
    gauss_kernel data data sigma k 2 fac logger w = (Ok (K, SigScalar x), w') ->
    forall i j, (i < shape0 data)%nat -> (j < shape0 data)%nat ->
      item K i j = clean (raw_affinity (distance_matrix data data) (SigScalar x) 2 i j)
      /\ exists r, item K i j = Fin r /\ (r = 0 \/ noise_floor <= r <= 1).
Proof.
  intros data sigma k fac logger w K x w' Hrun i j Hi Hj.
  destruct (gauss_kernel_entries _ _ _ _ _ _ _ _ _ _ _ Hrun I i j Hi Hj)
    as (_ & Hsq).
  assert (Hsym : raw_affinity (distance_matrix data data) (SigScalar x) 2 j i
                 = raw_affinity (distance_matrix data data) (SigScalar x) 2 i j).
  { unfold raw_affinity. simpl. rewrite (euclid_sym (row data j) (row data i)).
    reflexivity. }
  rewrite (Hsq eq_refl), Hsym.
  unfold raw_affinity at 1 2.
  destruct (gaussian_entry_floor
              (fdiv (item (distance_matrix data data) i j)
                    (bandwidth_at (SigScalar x) j))) as (r & Er & Hr).
  assert (Hmean : fdiv (fadd (Fin r) (Fin r)) (Fin 2) = Fin r)
    by (rewrite fadd_Fin, fdiv_Fin by lra; f_equal; lra).
  unfold raw_affinity. rewrite Er, Hmean.
  split; [ reflexivity | ]. exists r. split; [ reflexivity | exact Hr ].
Qed.

Lemma gauss_kernel_scalar_bandwidth_floor_witness :
  exists K x w',
    gauss_kernel (of_rows [[0]; [1]]) (of_rows [[0]; [1]]) (SigmaStr "median")
                 5 2 1 false {| trace := []; draws := 0 |}
    = (Ok (K, SigScalar x), w')
    /\ forall i j, (i < 2)%nat -> (j < 2)%nat ->
         exists r, item K i j = Fin r /\ (r = 0 \/ noise_floor <= r <= 1).
Proof.
  assert (Hrun : exists K x w',
             gauss_kernel (of_rows [[0]; [1]]) (of_rows [[0]; [1]]) (SigmaStr "median")
                          5 2 1 false {| trace := []; draws := 0 |}
             = (Ok (K, SigScalar x), w')).
  { eexists. eexists. eexists.
    unfold gauss_kernel, bind, validate_sigma, log, cdist, emit, lift, ret. simpl.
    reflexivity. }
  destruct Hrun as (K & x & w' & Hrun).
  exists K, x, w'. split; [ exact Hrun | ].
  intros i j Hi Hj.
  apply (gauss_kernel_scalar_bandwidth_floor _ _ _ _ _ _ _ _ _ Hrun i j Hi Hj).
Defined.

(** ** degrees: positive degrees and finite sparsity *)

Lemma kernel_shape :
  forall data1 data2 sigma k a fac logger w K s w',
    gauss_kernel data1 data2 sigma k a fac logger w = (Ok (K, s), w') ->
    bandwidth_fits s (shape0 data2) ->
    shape0 K = shape0 data1 /\ shape1 K = shape0 data2.
Proof.
  intros data1 data2 sigma k a fac logger w K s w' Hrun Hfit.
  destruct (gauss_kernel_ok_inv _ _ _ _ _ _ _ _ _ _ _ Hrun)
    as (s0 & K0 & _ & _ & _ & _ & HK0 & HK).
  destruct (broadcast_fitting_bandwidth (distance_matrix data1 data2) s K0 Hfit HK0)
    as (H0 & H1 & _).
  destruct (finished_kernel_shape K0 a) as (E0 & E1).
  rewrite HK. cbv zeta in E0, E1 |- *. rewrite E0, E1, H0, H1. split; reflexivity.
Qed.

Lemma Rsum_ge_term :
  forall (X : Type) (h : X -> R) (idx : list X) x,
    (forall y, In y idx -> 0 <= h y) -> In x idx -> h x <= Rsum (map h idx).
Proof.
  intros X h idx x Hpos Hin. induction idx as [ | y idx IH]; [ destruct Hin | ].
  simpl.
  assert (0 <= h y) by (apply Hpos; left; reflexivity).
  assert (0 <= Rsum (map h idx))
    by (apply Rsum_nonneg; intros; apply Hpos; right; assumption).
  destruct Hin as [-> | Hin]; [ lra | ].
  assert (h x <= Rsum (map h idx))
    by (apply IH; [ intros; apply Hpos; right; assumption | exact Hin ]).
  lra.
Qed.

(** The column sums of the self-affinity kernel behind a degree vector. *)
Lemma degrees_column_sums :
  forall data sigma k fac logger w d_hat s_hat s w',
    degrees data sigma k 2 fac logger w = (Ok (d_hat, s_hat, s), w') ->
    bandwidth_fits s (shape0 data) ->
    exists K w1,
      gauss_kernel data data sigma k 2 fac logger w1 = (Ok (K, s), w')
      /\ (forall i j, (i < shape0 data)%nat -> (j < shape0 data)%nat ->
                      exists r, item K i j = Fin r /\ 0 <= r <= 1)
      /\ sum_axis0 K
         = map (fun j => Fin (Rsum (map (fun i => to_R (item K i j))
                                        (seq 0 (shape0 data)))))
               (seq 0 (shape0 data))
      /\ d_hat = map (fun x => fdiv (fmul x (of_nat (shape1 data)))
                                    (fsum (sum_axis0 K)))
                     (sum_axis0 K)
      /\ s_hat = map (fun x => fdiv (Fin 1) x) d_hat.
Proof.
  intros data sigma k fac logger w d_hat s_hat s w' Hrun Hfit.
  destruct (degrees_ok_inv _ _ _ _ _ _ _ _ _ _ _ Hrun) as (K & w1 & HK & Hd & Hs).
  exists K, w1. split; [ exact HK | ].
  destruct (self_affinity_entries _ _ _ _ _ _ _ _ _ _ HK Hfit (or_introl eq_refl))
    as (H0 & H1 & Hentries).
  assert (Hall : forall i j, (i < shape0 data)%nat -> (j < shape0 data)%nat ->
                   exists r, item K i j = Fin r /\ 0 <= r <= 1).
  { intros i j Hi Hj.
    destruct (Hentries i j Hi Hj) as (Eij & r1 & E1 & R1).
    destruct (Hentries j i Hj Hi) as (_ & r2 & E2 & R2).
    rewrite Eij, E1, E2, fadd_Fin, fdiv_Fin by lra.
    exists ((r1 + r2) / 2). split; [ reflexivity | lra ]. }
  split; [ exact Hall | ].
  split; [ | split; assumption ].
  unfold sum_axis0, cols. rewrite H1, map_map.
  apply map_ext_in. intros j Hj. apply in_seq in Hj.
  unfold col. rewrite H0. apply fsum_map_Fin.
  intros i Hi. apply in_seq in Hi.
  destruct (Hall i j) as (r & -> & _); [ lia | lia | reflexivity ].
Qed.

Lemma degrees_positive_core :
  forall data sigma k fac logger w d_hat s_hat s w',
    degrees data sigma k 2 fac logger w = (Ok (d_hat, s_hat, s), w') ->
    bandwidth_fits s (shape0 data) ->
    (1 <= shape0 data)%nat -> (1 <= shape1 data)%nat ->
    (forall i c, finite (item data i c)) ->
    (forall j, (j < shape0 data)%nat ->
               exists r, bandwidth_at s j = Fin r /\ 0 < r) ->
    exists p : nat -> R, exists T : R,
      0 < T
      /\ (forall j, (j < shape0 data)%nat -> 1 <= p j)
      /\ T = Rsum (map p (seq 0 (shape0 data)))
      /\ d_hat = map (fun j => Fin (p j * INR (shape1 data) / T)) (seq 0 (shape0 data))
      /\ s_hat = map (fun j => Fin (1 / (p j * INR (shape1 data) / T)))
                     (seq 0 (shape0 data)).
Proof.
  intros data sigma k fac logger w d_hat s_hat s w' Hrun Hfit HN HD Hdata Hband.
  destruct (degrees_column_sums _ _ _ _ _ _ _ _ _ _ Hrun Hfit)
    as (K & w1 & HK & Hall & Hp & Hd & Hs).
  set (n := shape0 data) in *.
  set (p := fun j => Rsum (map (fun i => to_R (item K i j)) (seq 0 n))) in *.
  assert (Hp1 : forall j, (j < n)%nat -> 1 <= p j).
  { intros j Hj.
    assert (Hdiag : item K j j = Fin 1)
      by (apply (diagonal_affinity _ _ _ _ _ _ _ _ _ j HK Hfit Hj (Hdata j) (Hband j Hj))).
    assert (Hle : to_R (item K j j) <= p j).
    { unfold p.
      apply (Rsum_ge_term nat (fun i => to_R (item K i j)) (seq 0 n) j).
      - intros i Hi. apply in_seq in Hi.
        destruct (Hall i j) as (r & -> & Hr); [ lia | exact Hj | simpl; lra ].
      - apply in_seq. lia. }
    rewrite Hdiag in Hle. exact Hle. }
  set (T := Rsum (map p (seq 0 n))).
  assert (HT : 0 < T).
  { assert (p O <= T).
    { unfold T. apply (Rsum_ge_term nat p (seq 0 n) O).
      - intros j Hj. apply in_seq in Hj.
        assert (1 <= p j) by (apply Hp1; lia). lra.
      - apply in_seq. lia. }
    assert (1 <= p O) by (apply Hp1; lia). lra. }
  assert (Hsum : fsum (sum_axis0 K) = Fin T).
  { rewrite Hp. unfold T. rewrite <- (map_map p Fin). apply fsum_Fin. }
  assert (HDr : 0 < INR (shape1 data)) by (apply lt_0_INR; lia).
  assert (Hd' : d_hat = map (fun j => Fin (p j * INR (shape1 data) / T)) (seq 0 n)).
  { rewrite Hd, Hsum, Hp, map_map. apply map_ext. intros j.
    rewrite of_nat_Fin, fmul_Fin, fdiv_Fin by lra. reflexivity. }
  exists p, T. split; [ exact HT | ]. split; [ exact Hp1 | ].
  split; [ reflexivity | ]. split; [ exact Hd' | ].
  rewrite Hs, Hd', map_map. apply map_ext_in. intros j Hj. apply in_seq in Hj.
  assert (1 <= p j) by (apply Hp1; lia).
  rewrite fdiv_Fin; [ reflexivity | ].
  assert (0 < p j * INR (shape1 data) / T)
    by (apply Rdiv_lt_0_compat; [ apply Rmult_lt_0_compat; lra | lra ]).
  lra.
Qed.

(** For the Gaussian decay, finite data with at least one point and one
    feature, and a finite positive bandwidth: every degree is a finite
    positive number, every sparsity is its finite reciprocal, there is one
    of each per point, and the degrees sum to [data.shape[1]]. *)
Theorem degrees_positive_and_finite :
  forall data sigma k fac logger w d_hat s_hat s w',
    degrees data sigma k 2 fac logger w = (Ok (d_hat, s_hat, s), w') ->
    bandwidth_fits s (shape0 data) ->
    (1 <= shape0 data)%nat -> (1 <= shape1 data)%nat ->
    (forall i c, finite (item data i c)) ->
    (forall j, (j < shape0 data)%nat ->
               exists r, bandwidth_at s j = Fin r /\ 0 < r) ->
    length d_hat = shape0 data /\ length s_hat = shape0 data
    /\ (forall j, (j < shape0 data)%nat ->
          exists r, nth j d_hat NaN = Fin r /\ 0 < r
                    /\ nth j s_hat NaN = Fin (1 / r))
    /\ fsum d_hat = Fin (INR (shape1 data)).
Proof.
  intros data sigma k fac logger w d_hat s_hat s w' Hrun Hfit HN HD Hdata Hband.
  destruct (degrees_positive_core _ _ _ _ _ _ _ _ _ _ Hrun Hfit HN HD Hdata Hband)
    as (p & T & HT & Hp1 & ET & Hd & Hs).
  assert (HDr : 0 < INR (shape1 data)) by (apply lt_0_INR; lia).
  split; [ rewrite Hd, length_map, length_seq; reflexivity | ].
  split; [ rewrite Hs, length_map, length_seq; reflexivity | ].
  split.
  - intros j Hj. exists (p j * INR (shape1 data) / T).
    rewrite Hd, Hs, !nth_map_seq by exact Hj.
    split; [ reflexivity | ]. split; [ | reflexivity ].
    assert (1 <= p j) by (apply Hp1; exact Hj).
    apply Rdiv_lt_0_compat; [ apply Rmult_lt_0_compat; lra | lra ].
  - rewrite Hd.
    rewrite <- (map_map (fun j => p j * INR (shape1 data) / T) Fin), fsum_Fin.
    f_equal.
    rewrite (map_ext (fun j => p j * INR (shape1 data) / T)
                     (fun j => (INR (shape1 data) / T) * p j))
      by (intros; unfold Rdiv; ring).
    rewrite Rsum_scale, <- ET. field. lra.
Qed.

Lemma degrees_positive_and_finite_witness :
  exists d_hat s_hat s w',
    degrees (of_rows [[0]; [1]; [3]]) (SigmaNum (Fin 2)) 5 2 1 false
            {| trace := []; draws := 0 |}
    = (Ok (d_hat, s_hat, s), w')
    /\ length d_hat = 3%nat
    /\ (forall j, (j < 3)%nat -> exists r, nth j d_hat NaN = Fin r /\ 0 < r)
    /\ fsum d_hat = Fin (INR 1).
Proof.
  assert (Hrun : exists d_hat s_hat s w',
             degrees (of_rows [[0]; [1]; [3]]) (SigmaNum (Fin 2)) 5 2 1 false
                     {| trace := []; draws := 0 |}
             = (Ok (d_hat, s_hat, s), w')
             /\ s = SigScalar (fmul (Fin 2) (of_Z 1))).
  { eexists. eexists. eexists. eexists. split.
    - unfold degrees, gauss_kernel, bind, validate_sigma, log, cdist, emit, lift, ret.
      simpl. reflexivity.
    - reflexivity. }
  destruct Hrun as (d_hat & s_hat & s & w' & Hrun & Hs).
  exists d_hat, s_hat, s, w'. split; [ exact Hrun | ].
  destruct (degrees_positive_and_finite _ _ _ _ _ _ _ _ _ _ Hrun)
    as (Hlen & _ & Hpos & Hsum).
  - subst s. exact I.
  - simpl. lia.
  - simpl. lia.
  - intros i c. simpl. eexists. reflexivity.
  - intros j _. subst s. exists (2 * 1). split; [ reflexivity | lra ].
  - split; [ exact Hlen | ]. split; [ | exact Hsum ].
    intros j Hj. destruct (Hpos j Hj) as (r & E & Hr & _). exists r. split; assumption.
Defined.

(** ** degrees: a zero bandwidth gives NaN degrees *)

(** When the bandwidth is the scalar 0 the kernel has no mass at all, and
    [degrees] divides 0 by 0: every degree and every sparsity is NaN. *)
Theorem degrees_zero_bandwidth_nan :
  forall data sigma k fac logger w d_hat s_hat w',
    degrees data sigma k 2 fac logger w
    = (Ok (d_hat, s_hat, SigScalar (Fin 0)), w') ->
    length d_hat = shape0 data /\ length s_hat = shape0 data
    /\ Forall (fun x => x = NaN) d_hat /\ Forall (fun x => x = NaN) s_hat.
Proof.
  intros data sigma k fac logger w d_hat s_hat w' Hrun.
  destruct (degrees_ok_inv _ _ _ _ _ _ _ _ _ _ _ Hrun) as (K & w1 & HK & Hd & Hs).
  destruct (kernel_shape _ _ _ _ _ _ _ _ _ _ _ HK I) as (H0 & H1).
  assert (Hzero : forall i j, (i < shape0 data)%nat -> (j < shape0 data)%nat ->
                              item K i j = Fin 0).
  { intros i j Hi Hj.
    destruct (gauss_kernel_entries _ _ _ _ _ _ _ _ _ _ _ HK I i j Hi Hj) as (_ & Hsq).
    rewrite (Hsq eq_refl). unfold raw_affinity. simpl bandwidth_at.
    rewrite !zero_bandwidth_entry, fadd_Fin, fdiv_Fin by lra. f_equal. lra. }
  assert (Hp : sum_axis0 K = map (fun _ => Fin 0) (seq 0 (shape0 data))).
  { unfold sum_axis0, cols. rewrite H1, map_map.
    apply map_ext_in. intros j Hj. apply in_seq in Hj.
    unfold col. rewrite H0.
    rewrite (fsum_map_Fin _ _ (fun _ => 0)).
    - rewrite Rsum_all_zero by reflexivity. reflexivity.
    - intros i Hi. apply in_seq in Hi. apply Hzero; lia. }
  assert (Hsum : fsum (sum_axis0 K) = Fin 0).
  { rewrite Hp. rewrite (fsum_map_Fin _ _ (fun _ => 0)) by reflexivity.
    rewrite Rsum_all_zero by reflexivity. reflexivity. }
  assert (Hd' : d_hat = map (fun _ => NaN) (seq 0 (shape0 data))).
  { rewrite Hd, Hsum, Hp, map_map. apply map_ext. intros j.
    rewrite of_nat_Fin, fmul_Fin. apply fdiv_zero_zero; [ lra | reflexivity ]. }
  assert (Hs' : s_hat = map (fun _ => NaN) (seq 0 (shape0 data))).
  { rewrite Hs, Hd', map_map. reflexivity. }
  rewrite Hd', Hs'. rewrite !length_map, !length_seq.
  repeat split; apply Forall_forall; intros x Hx;
    apply in_map_iff in Hx; destruct Hx as (j & <- & _); reflexivity.
Qed.

Lemma degrees_zero_bandwidth_nan_witness :
  exists d_hat s_hat w',
    degrees (of_rows [[0]; [1]]) (SigmaNum (Fin 0)) 5 2 1 false
            {| trace := []; draws := 0 |}
    = (Ok (d_hat, s_hat, SigScalar (Fin 0)), w')
    /\ length d_hat = 2%nat /\ Forall (fun x => x = NaN) d_hat.
Proof.
  assert (Hrun : exists d_hat s_hat w',
             degrees (of_rows [[0]; [1]]) (SigmaNum (Fin 0)) 5 2 1 false
                     {| trace := []; draws := 0 |}
             = (Ok (d_hat, s_hat, SigScalar (Fin 0)), w')).
  { assert (E : fmul (Fin 0) (of_Z 1) = Fin 0)
      by (rewrite of_Z_Fin, fmul_Fin; f_equal; lra).
    eexists. eexists. eexists.
    unfold degrees, gauss_kernel, bind, validate_sigma, log, cdist, emit, lift, ret.
    simpl. rewrite E. reflexivity. }
  destruct Hrun as (d_hat & s_hat & w' & Hrun).
  exists d_hat, s_hat, w'. split; [ exact Hrun | ].
  destruct (degrees_zero_bandwidth_nan _ _ _ _ _ _ _ _ _ Hrun) as (H1 & _ & H2 & _).
  split; assumption.
Defined.

(** ** numpts: further properties of the plain branch *)

Lemma fold_Rmax_le_bound :
  forall t x c, x <= c -> (forall y, In y t -> y <= c) -> fold_left Rmax t x <= c.
Proof.
  induction t as [ | y t IH]; intros x c Hx Ht; simpl; [ exact Hx | ].
  apply IH.
  - apply Rmax_lub; [ exact Hx | apply Ht; left; reflexivity ].
  - intros z Hz. apply Ht. right. exact Hz.
Qed.

Lemma Rmax_list_le_bound :
  forall ds c, ds <> [] -> (forall d, In d ds -> d <= c) -> Rmax_list ds <= c.
Proof.
  intros [ | x t] c Hne Hall; [ contradiction | ]. simpl.
  apply fold_Rmax_le_bound.
  - apply Hall. left. reflexivity.
  - intros y Hy. apply Hall. right. exact Hy.
Qed.

Lemma Zsum_all_zero :
  forall (X : Type) (h : X -> Z) (idx : list X),
    (forall x, In x idx -> h x = 0%Z) -> Zsum (map h idx) = 0%Z.
Proof.
  intros X h idx H. induction idx as [ | x idx IH]; [ reflexivity | ].
  simpl. rewrite (H x) by (left; reflexivity).
  rewrite IH by (intros; apply H; right; assumption). reflexivity.
Qed.

Lemma map_Fin_repeat :
  forall (r : R) n, map Fin (repeat r n) = repeat (Fin r) n.
Proof. intros r n. induction n as [ | n IH]; simpl; [ | rewrite IH ]; reflexivity. Qed.

Lemma map_IZR_ones :
  forall n, map (fun z => Fin (IZR z)) (repeat 1%Z n) = repeat (Fin 1) n.
Proof. induction n as [ | n IH]; simpl; [ | rewrite IH ]; reflexivity. Qed.

(** Without equalization, a data set whose points all have the same finite
    degree gets exactly one new point per point, whatever [M] is: the raw
    allocation [max(degree) - degree] is all zero, so the floored budget
    sums to 0 and is replaced by ones. *)
Theorem numpts_uniform_degrees_all_ones :
  forall (d : R) n noise_cov kernel_sigma dim M logger w,
    (1 <= n)%nat ->
    fst (numpts (repeat (Fin d) n) noise_cov kernel_sigma dim M false logger w)
    = Ok (Flat (repeat (Fin 1) n)).
Proof.
  intros d n noise_cov kernel_sigma dim M logger w Hn.
  assert (Hne : repeat d n <> []) by (destruct n; [ lia | discriminate ]).
  rewrite <- map_Fin_repeat.
  rewrite numpts_plain_run by exact Hne.
  assert (Hmax : Rmax_list (repeat d n) = d).
  { apply Rle_antisym.
    - apply Rmax_list_le_bound; [ exact Hne | ].
      intros x Hx. apply repeat_spec in Hx. subst. lra.
    - apply Rmax_list_ge. destruct n; [ lia | left; reflexivity ]. }
  rewrite Hmax, map_map.
  rewrite Zsum_all_zero.
  - simpl. rewrite repeat_length. apply f_equal, f_equal. apply map_IZR_ones.
  - intros x Hx. apply repeat_spec in Hx. subst.
    replace ((d - d) * _ / _) with 0.
    + apply (ZfloorZ 0).
    + unfold Rdiv. ring.
Qed.

Lemma numpts_uniform_degrees_all_ones_witness :
  fst (numpts (repeat (Fin 3) 2) (NoiseScalar (Fin 1)) (SigScalar (Fin 1)) None 7
              false false {| trace := []; draws := 0 |})
  = Ok (Flat (repeat (Fin 1) 2)).
Proof. apply numpts_uniform_degrees_all_ones. lia. Defined.

Lemma Zsum_ones : forall n, Zsum (repeat 1%Z n) = Z.of_nat n.
Proof.
  induction n as [ | n IH]; [ reflexivity | ].
  change (Zsum (repeat 1%Z (S n))) with (1 + Zsum (repeat 1%Z n))%Z. lia.
Qed.

Lemma Zsum_nonneg :
  forall zs, (forall z, In z zs -> (0 <= z)%Z) -> (0 <= Zsum zs)%Z.
Proof.
  induction zs as [ | z zs IH]; intros H; [ simpl; lia | ].
  change (Zsum (z :: zs)) with (z + Zsum zs)%Z.
  assert (0 <= z)%Z by (apply H; left; reflexivity).
  assert (0 <= Zsum zs)%Z by (apply IH; intros; apply H; right; assumption).
  lia.
Qed.

(** The budget of the plain branch for [M >= 0]. *)
Lemma plain_budget_order :
  forall ds noise_cov kernel_sigma dim M logger w,
    ds <> [] -> (0 <= M)%Z ->
    exists b,
      fst (numpts (map Fin ds) noise_cov kernel_sigma dim M false logger w)
      = Ok (Flat (map (fun z => Fin (IZR z)) b))
      /\ length b = length ds
      /\ (forall i, (i < length ds)%nat -> (0 <= nth i b 0)%Z)
      /\ (forall i j, (i < length ds)%nat -> (j < length ds)%nat ->
                      nth i ds 0 <= nth j ds 0 -> (nth j b 0 <= nth i b 0)%Z)
      /\ (1 <= Zsum b)%Z
      /\ (forall i, (i < length ds)%nat ->
                    (nth i b 0 <= Z.max M (Z.of_nat (length ds)))%Z).
Proof.
  intros ds noise_cov kernel_sigma dim M logger w Hne HM.
  eexists. split; [ apply numpts_plain_run; exact Hne | ].
  set (N := length ds).
  set (M' := if Z.eqb M 0 then Z.of_nat N else M).
  set (raw := map (fun d => Rmax_list ds - d) ds).
  set (c := IZR M' / Rguard (Rsum raw)).
  assert (HN : (1 <= N)%nat) by (unfold N; destruct ds; [ contradiction | simpl; lia ]).
  assert (HM' : 0 <= IZR M').
  { apply IZR_le. unfold M'. destruct (Z.eqb M 0); lia. }
  pose proof (Rsum_raw_nonneg ds) as Hraw. fold raw in Hraw.
  pose proof (Rguard_pos _ Hraw) as HG.
  assert (Hc : 0 <= c).
  { unfold c. apply Rmult_le_pos; [ exact HM' | ].
    apply Rlt_le, Rinv_0_lt_compat. exact HG. }
  assert (Efl : map (fun r => Zfloor (r * IZR M' / Rguard (Rsum raw))) raw
                = map (fun d => Zfloor ((Rmax_list ds - d) * c)) ds).
  { unfold raw at 2. rewrite map_map. apply map_ext. intros d.
    f_equal. unfold c, Rdiv. ring. }
  rewrite Efl.
  set (floors := map (fun d => Zfloor ((Rmax_list ds - d) * c)) ds).
  assert (Hnth : forall i, (i < N)%nat ->
                   nth i floors 0%Z = Zfloor ((Rmax_list ds - nth i ds 0) * c)).
  { intros i Hi. unfold floors.
    rewrite (nth_indep _ 0%Z (Zfloor ((Rmax_list ds - 0) * c)))
      by (rewrite length_map; exact Hi).
    apply (map_nth (fun d => Zfloor ((Rmax_list ds - d) * c))). }
  assert (Hpos : forall i, (i < N)%nat -> (0 <= nth i floors 0)%Z).
  { intros i Hi. rewrite Hnth by exact Hi.
    apply Zfloor_lub. simpl (IZR 0).
    apply Rmult_le_pos; [ | exact Hc ].
    pose proof (Rmax_list_ge ds (nth i ds 0) (nth_In ds 0 Hi)). lra. }
  assert (Hupp : forall i, (i < N)%nat -> (nth i floors 0 <= M')%Z).
  { intros i Hi. rewrite Hnth by exact Hi.
    rewrite <- (ZfloorZ M'). apply Zfloor_le.
    pose proof (Rmax_list_ge ds (nth i ds 0) (nth_In ds 0 Hi)) as Hd.
    assert (Hterm : Rmax_list ds - nth i ds 0 <= Rsum raw).
    { unfold raw.
      apply (Rsum_ge_term R (fun d => Rmax_list ds - d) ds (nth i ds 0)).
      - intros y Hy. pose proof (Rmax_list_ge ds y Hy). lra.
      - apply nth_In. exact Hi. }
    assert (HGge : Rsum raw <= Rguard (Rsum raw)).
    { unfold Rguard, epsilon17.
      destruct (Rlt_dec (Rsum raw) (1 / 8));
        [ destruct (Rlt_dec (Rsum raw) (- (1 / 8))) | ]; lra. }
    assert (Hq : 0 <= (Rmax_list ds - nth i ds 0) / Rguard (Rsum raw) <= 1).
    { assert (Hi0 : 0 < / Rguard (Rsum raw)) by (apply Rinv_0_lt_compat; exact HG).
      assert (E1 : Rguard (Rsum raw) * / Rguard (Rsum raw) = 1) by (apply Rinv_r; lra).
      unfold Rdiv. split; nra. }
    replace ((Rmax_list ds - nth i ds 0) * c)
      with (IZR M' * ((Rmax_list ds - nth i ds 0) / Rguard (Rsum raw)))
      by (unfold c, Rdiv; ring).
    nra. }
  assert (HM'max : (M' <= Z.max M (Z.of_nat N))%Z).
  { unfold M'. destruct (Z.eqb M 0); lia. }
  destruct (Z.eqb_spec (Zsum floors) 0) as [E0 | E0].
  - split; [ apply repeat_length | ]. split; [ | split; [ | split ] ].
    + intros i Hi. rewrite (nth_repeat_lt 1%Z 0%Z Hi). lia.
    + intros i j Hi Hj _.
      rewrite (nth_repeat_lt 1%Z 0%Z Hi), (nth_repeat_lt 1%Z 0%Z Hj). lia.
    + rewrite Zsum_ones. lia.
    + intros i Hi. rewrite (nth_repeat_lt 1%Z 0%Z Hi). fold N. lia.
  - split; [ unfold floors; apply length_map | ]. split; [ | split; [ | split ] ].
    + exact Hpos.
    + intros i j Hi Hj Hij. rewrite !Hnth by assumption.
      apply Zfloor_le. apply Rmult_le_compat_r; [ exact Hc | lra ].
    + assert (0 <= Zsum floors)%Z; [ | lia ].
      apply Zsum_nonneg. intros z Hz.
      destruct (In_nth floors z 0%Z Hz) as (i & Hi & <-).
      apply Hpos. unfold floors in Hi. rewrite length_map in Hi. exact Hi.
    + intros i Hi. specialize (Hupp i Hi). fold N. lia.
Qed.



(** ** numpts: error behaviour *)

Lemma divisor_not_zero :
  forall c, c <> 0 -> feqb (fmul (Fin 2) (fpow (Fin c) 2)) (Fin 0) = false.
Proof.
  intros c Hc. rewrite fpow_2, !fmul_Fin. apply feqb_Fin_false.
  assert (0 < c * c) by nra. lra.
Qed.

Lemma divisor_check_passes :
  forall (kernel_sigma : sigma_val) c w,
    c <> 0 ->
    match kernel_sigma with
    | SigScalar _ =>
        if feqb (fmul (Fin 2) (fpow (Fin c) 2)) (Fin 0)
        then raise (ZeroDivisionError "float division by zero")
        else ret tt
    | SigVector _ => ret tt
    end w = (Ok tt, w).
Proof.
  intros kernel_sigma c w Hc. rewrite (divisor_not_zero c Hc).
  destruct kernel_sigma; reflexivity.
Qed.



(** ** generate with per-point covariances: the drawn rows *)

Lemma for_each_invariant :
  forall (A S : Type) (body : A -> S -> Py S) (ok : A -> Prop)
         (P : list A -> S -> world -> Prop),
    (forall done x s w, ok x -> P done s w ->
       exists s' w', body x s w = (Ok s', w') /\ P (done ++ [x]) s' w') ->
    forall todo done s w,
      Forall ok todo -> P done s w ->
      exists s' w', for_each todo body s w = (Ok s', w') /\ P (done ++ todo) s' w'.
Proof.
  intros A S body ok P Hstep.
  induction todo as [ | x todo IH]; intros done s w Hok HP.
  - exists s, w. rewrite app_nil_r. split; [ reflexivity | exact HP ].
  - inversion Hok as [ | ? ? Hx Hrest]; subst.
    destruct (Hstep done x s w Hx HP) as (s1 & w1 & E1 & HP1).
    destruct (IH (done ++ [x]) s1 w1 Hrest HP1) as (s2 & w2 & E2 & HP2).
    exists s2, w2. split.
    + cbn [for_each]. unfold bind. rewrite E1. exact E2.
    + rewrite <- app_assoc in HP2. exact HP2.
Qed.

Lemma seq_from : forall n k, seq k n = map (fun t => (k + t)%nat) (seq 0 n).
Proof.
  induction n as [ | n IH]; intros k; [ reflexivity | ].
  cbn [seq map]. f_equal; [ lia | ].
  rewrite (IH (S k)), (IH 1%nat), map_map.
  apply map_ext. intros t. lia.
Qed.

Lemma cols_hcat :
  forall A B, shape0 B = shape0 A -> cols (hcat A B) = cols A ++ cols B.
Proof.
  intros A B HB. unfold cols. cbn [hcat shape1].
  rewrite seq_app, map_app. f_equal.
  - apply map_ext_in. intros t Ht. apply in_seq in Ht. unfold col. cbn [hcat shape0 item].
    apply map_ext. intros a.
    destruct (Nat.ltb_spec t (shape1 A)); [ reflexivity | lia ].
  - cbn [Nat.add]. rewrite (seq_from (shape1 B) (shape1 A)), map_map.
    apply map_ext. intros u. unfold col. cbn [hcat shape0 item]. rewrite HB.
    apply map_ext. intros a.
    destruct (Nat.ltb_spec (shape1 A + u) (shape1 A)); [ lia | ].
    f_equal. lia.
Qed.

Lemma cols_fold_hcat :
  forall rest A,
    Forall (fun B => shape0 B = shape0 A) rest ->
    shape0 (fold_left hcat rest A) = shape0 A
    /\ cols (fold_left hcat rest A) = cols A ++ concat (map cols rest).
Proof.
  induction rest as [ | B rest IH]; intros A Hall.
  - simpl. rewrite app_nil_r. split; reflexivity.
  - inversion Hall as [ | ? ? HB Hrest]; subst.
    cbn [fold_left map concat].
    destruct (IH (hcat A B)) as (E0 & E1); [ exact Hrest | ].
    split; [ exact E0 | ].
    rewrite E1, cols_hcat by exact HB. rewrite app_assoc. reflexivity.
Qed.

Lemma hstack_cols :
  forall blocks d,
    blocks <> [] -> Forall (fun B => shape0 B = d) blocks ->
    exists H, hstack blocks = Ok H /\ shape0 H = d
              /\ cols H = concat (map cols blocks).
Proof.
  intros [ | A rest] d Hne Hall; [ contradiction | ].
  inversion Hall as [ | ? ? HA Hrest]; subst.
  assert (Hrest' : Forall (fun B => shape0 B = shape0 A) rest) by exact Hrest.
  destruct (cols_fold_hcat rest A Hrest') as (E0 & E1).
  exists (fold_left hcat rest A). split; [ | split; [ exact E0 | exact E1 ] ].
  unfold hstack.
  replace (forallb (fun B => Nat.eqb (shape0 B) (shape0 A)) rest) with true;
    [ reflexivity | ].
  symmetry. apply forallb_forall. intros B HB.
  rewrite Forall_forall in Hrest. rewrite (Hrest B HB). apply Nat.eqb_refl.
Qed.

Lemma vstack_uniform :
  forall blocks r c,
    blocks <> [] ->
    (forall A, In A (concat blocks) -> shape0 A = r /\ shape1 A = c) ->
    vstack blocks = Ok (concat blocks).
Proof.
  intros blocks r c Hne Hall. unfold vstack.
  destruct (concat blocks) as [ | A rest] eqn:E.
  - destruct blocks; [ contradiction | reflexivity ].
  - destruct blocks; [ contradiction | ].
    replace (forallb (same_shape A) rest) with true; [ reflexivity | ].
    symmetry. apply forallb_forall. intros B HB. unfold same_shape.
    destruct (Hall A (or_introl eq_refl)) as (-> & ->).
    destruct (Hall B (or_intror HB)) as (-> & ->).
    rewrite !Nat.eqb_refl. reflexivity.
Qed.

Lemma concat_map_filter :
  forall (X Y : Type) (g : X -> list Y) (keep : X -> bool) (l : list X),
    (forall x, keep x = false -> g x = []) ->
    concat (map g (filter keep l)) = concat (map g l).
Proof.
  intros X Y g keep l Hdrop. induction l as [ | x l IH]; [ reflexivity | ].
  cbn [filter map concat]. destruct (keep x) eqn:E.
  - cbn [map concat]. rewrite IH. reflexivity.
  - rewrite (Hdrop x E), IH. reflexivity.
Qed.

Lemma length_concat_pointwise :
  forall (X Y Z : Type) (f : X -> list Y) (g : X -> list Z) (l : list X),
    (forall x, In x l -> length (f x) = length (g x)) ->
    length (concat (map f l)) = length (concat (map g l)).
Proof.
  intros X Y Z f g l H. induction l as [ | x l IH]; [ reflexivity | ].
  cbn [map concat]. rewrite !length_app, (H x (or_introl eq_refl)), IH;
    [ reflexivity | ].
  intros y Hy. apply H. right. exact Hy.
Qed.

Lemma map_const_seq :
  forall (X : Type) (x : X) n k, map (fun _ => x) (seq k n) = repeat x n.
Proof.
  intros X x n. induction n as [ | n IH]; intros k; [ reflexivity | ].
  cbn [seq map repeat]. rewrite IH. reflexivity.
Qed.

Lemma budget_total :
  forall (X : Type) (g : nat -> X) (b : list Z),
    (forall z, In z b -> (0 <= z)%Z) ->
    Z.of_nat (length (concat (map (fun i => repeat (g i) (Z.to_nat (nth i b 0%Z)))
                                  (seq 0 (length b)))))
    = Zsum b.
Proof.
  intros X g b. revert g. induction b as [ | z b IH]; intros g Hpos; [ reflexivity | ].
  cbn [length seq map concat]. rewrite length_app, repeat_length.
  rewrite (seq_from (length b) 1), map_map. cbn [nth Nat.add].
  rewrite Nat2Z.inj_add.
  rewrite (IH (fun i => g (S i))) by (intros; apply Hpos; right; assumption).
  pose proof (Hpos z (or_introl eq_refl)).
  change (Zsum (z :: b)) with (z + Zsum b)%Z. lia.
Qed.

Section GenerateRows.

Variable mvn_sample : nat -> list fl -> ndarray -> list fl.
Variable data : ndarray.
Variable b : list Z.
Variable covs : list ndarray.
Variable labels : list label.

Hypothesis features : (1 <= shape1 data)%nat.
Hypothesis budget_length : length b = shape0 data.
Hypothesis budget_range : forall z, In z b -> (0 <= z <= INT64_MAX)%Z.
Hypothesis budget_some : exists z, In z b /\ z <> 0%Z.
Hypothesis covs_length : length covs = shape0 data.
Hypothesis covs_square :
  forall cov, In cov covs ->
    shape0 cov = shape1 data /\ shape1 cov = shape1 data
    /\ forall i j, finite (item cov i j).
Hypothesis labels_length : labels = [] \/ length labels = shape0 data.

Let n (i : nat) : Z := nth i b 0%Z.
Let reps (i : nat) : nat := Z.to_nat (n i).
Let nz (i : nat) : bool := negb (Z.eqb (n i) 0).
Let budget : npts_array := Flat (map (fun z => Fin (IZR z)) b).
Let centre (i : nat) : ndarray :=
  {| shape0 := shape1 data; shape1 := reps i; item := fun a _ => item data i a |}.
Let tiles (i : nat) : list ndarray :=
  match nth_error covs i with
  | Some cov => match tile_reshape cov (reps i) with Ok tl => tl | Raise _ => [] end
  | None => []
  end.

Lemma budget_entry :
  forall i w, (i < shape0 data)%nat -> npts_at budget i w = (Ok (n i), w).
Proof.
  intros i w Hi. unfold npts_at, budget. cbn [npts_values]. rewrite map_map.
  rewrite (nth_error_nth' _ (to_int (Fin (IZR 0))))
    by (rewrite length_map, budget_length; exact Hi).
  rewrite (map_nth (fun z => to_int (Fin (IZR z))) b 0%Z i).
  rewrite to_int_IZR; [ reflexivity | ].
  apply budget_range. apply nth_In. rewrite budget_length. exact Hi.
Qed.

Lemma budget_entry_nonneg : forall i, (0 <= n i)%Z.
Proof.
  intros i. unfold n. destruct (Nat.lt_ge_cases i (length b)) as [Hi | Hi].
  - apply budget_range. apply nth_In. exact Hi.
  - rewrite nth_overflow by exact Hi. lia.
Qed.

Lemma labels_step :
  forall i k lo w, (i < shape0 data)%nat ->
    exists lo', add_labels labels i k lo w = (Ok lo', w).
Proof.
  intros i k lo w Hi. unfold add_labels.
  destruct labels_length as [E | E].
  - rewrite E. eexists. reflexivity.
  - destruct labels as [ | l0 ls] eqn:El; [ eexists; reflexivity | ].
    rewrite <- El in *.
    destruct (nth_error labels i) as [l | ] eqn:En.
    + unfold bind, from_option, ret. eexists. reflexivity.
    + apply nth_error_None in En. lia.
Qed.

Lemma tiles_spec :
  forall i, (i < shape0 data)%nat ->
    exists cov, nth_error covs i = Some cov
      /\ tile_reshape cov (reps i) = Ok (tiles i)
      /\ length (tiles i) = reps i
      /\ forall A, In A (tiles i) -> shape0 A = shape1 data /\ shape1 A = shape1 data.
Proof.
  intros i Hi.
  destruct (nth_error covs i) as [cov | ] eqn:En;
    [ | apply nth_error_None in En; lia ].
  destruct (covs_square cov (nth_error_In _ _ En)) as (H0 & H1 & _).
  exists cov. split; [ reflexivity | ].
  assert (Hsize : Nat.eqb (shape0 cov * shape1 cov) 0 = false).
  { apply Nat.eqb_neq. rewrite H0, H1. nia. }
  unfold tiles. rewrite En. unfold tile_reshape. cbv zeta. rewrite Hsize.
  split; [ reflexivity | ].
  split; [ rewrite length_map, length_seq; reflexivity | ].
  intros A HA. apply in_map_iff in HA. destruct HA as (m & <- & _).
  cbn [shape0 shape1]. split; assumption.
Qed.

Lemma cols_centre : forall i, cols (centre i) = repeat (row data i) (reps i).
Proof.
  intros i. unfold cols, col, centre. cbn [shape0 shape1 item].
  apply map_const_seq.
Qed.

Lemma generate_rows_core :
  forall logger w,
    let centres :=
      concat (map (fun i => repeat (row data i) (reps i)) (seq 0 (shape0 data))) in
    exists points labels_out w',
      generate mvn_sample data budget (NoiseMatrices covs) labels logger w
      = (Ok (points, labels_out), w')
      /\ shape0 points = length centres
      /\ shape1 points = shape1 data
      /\ trace w' = trace w ++ map Draw centres
      /\ draws w' = (draws w + length centres)%nat.
Proof.
  intros logger w centres.
  set (F := filter nz (seq 0 (shape0 data))).
  unfold generate.
  (* the replication loop *)
  unfold bind at 1.
  match goal with
  | |- context [for_each ?xs ?bd ?st w] =>
      destruct (for_each_invariant _ _ bd (fun i => (i < shape0 data)%nat)
                  (fun done s w1 =>
                     w1 = w /\ fst (fst s) = map centre (filter nz done)
                     /\ snd (fst s) = map tiles (filter nz done))
                  ) with (todo := xs) (done := @nil nat) (s := st) (w := w)
        as ([[rc rcov] lo] & w1 & -> & Ew & Hrc & Hrcov)
  end.
  { intros done i [[rc rcov] lo] w1 Hi (-> & Hrc & Hrcov).
    cbn [fst snd] in Hrc, Hrcov.
    unfold bind at 1. rewrite (budget_entry i w Hi).
    unfold bind at 1. unfold budget at 1, tile_columns, tile_reps.
    pose proof (budget_entry_nonneg i) as Hn.
    replace (n i <? 0)%Z with false by (symmetry; apply Z.ltb_ge; exact Hn).
    unfold ret at 1. unfold bind at 1.
    destruct (labels_step i (Z.to_nat (n i)) lo w Hi) as (lo' & ->).
    cbv zeta. cbn [shape0 shape1].
    rewrite filter_app. cbn [filter]. fold (nz i).
    destruct (tiles_spec i Hi) as (cov & Ecov & Etile & _).
    change (negb (n i =? 0)%Z) with (nz i).
    assert (Hcase : (nz i = false /\ n i = 0%Z) \/ (nz i = true /\ n i <> 0%Z)).
    { unfold nz. destruct (Z.eqb_spec (n i) 0); [ left | right ]; split; auto. }
    destruct Hcase as [(Enz & E0) | (Enz & E0)]; rewrite Enz.
    - rewrite E0. cbn [Z.to_nat]. rewrite Nat.mul_0_r. cbn [Nat.eqb].
      eexists. eexists. split; [ reflexivity | ].
      rewrite app_nil_r. cbn [fst snd]. repeat split; assumption.
    - assert (Hsize : Nat.eqb (shape1 data * Z.to_nat (n i)) 0 = false).
      { apply Nat.eqb_neq. nia. }
      rewrite Hsize. unfold bind at 1. rewrite Ecov. unfold from_option, ret at 1.
      unfold bind at 1, lift at 1. fold (reps i). rewrite Etile.
      eexists. eexists. split; [ reflexivity | ].
      cbn [fst snd]. rewrite !map_app, Hrc, Hrcov. repeat split. }
  { apply Forall_forall. intros i Hi. apply in_seq in Hi. lia. }
  { repeat split. }
  cbn [app fst snd] in Hrc, Hrcov. subst w1 rc rcov. fold F.
  (* the stacked covariances and centres *)
  assert (HF : F <> []).
  { destruct budget_some as (z & Hz & Hz0).
    destruct (In_nth b z 0%Z Hz) as (i & Hi & Ei).
    assert (Hin : In i F).
    { unfold F. apply filter_In. split; [ apply in_seq; lia | ].
      unfold nz, n. rewrite Ei. destruct (Z.eqb_spec z 0); [ contradiction | reflexivity ]. }
    intros E. rewrite E in Hin. destruct Hin. }
  assert (HFin : forall i, In i F -> (i < shape0 data)%nat /\ (1 <= reps i)%nat).
  { intros i Hi. unfold F in Hi. apply filter_In in Hi. destruct Hi as (Hi & Hnz).
    apply in_seq in Hi. split; [ lia | ].
    unfold nz in Hnz. pose proof (budget_entry_nonneg i).
    destruct (Z.eqb_spec (n i) 0); [ discriminate | ]. unfold reps. lia. }
  assert (Hv : vstack (map tiles F) = Ok (concat (map tiles F))).
  { apply (vstack_uniform _ (shape1 data) (shape1 data)).
    - destruct F; [ contradiction | discriminate ].
    - intros A HA. apply in_concat in HA. destruct HA as (tl & Htl & HA).
      apply in_map_iff in Htl. destruct Htl as (i & <- & Hi).
      destruct (tiles_spec i (proj1 (HFin i Hi))) as (_ & _ & _ & _ & Hsq).
      apply Hsq. exact HA. }
  destruct (hstack_cols (map centre F) (shape1 data)) as (H & EH & H0 & Hcols).
  { destruct F; [ contradiction | discriminate ]. }
  { apply Forall_forall. intros B HB. apply in_map_iff in HB.
    destruct HB as (i & <- & _). reflexivity. }
  assert (Hcentres : cols H = centres).
  { rewrite Hcols, map_map.
    rewrite (map_ext _ _ cols_centre). unfold F.
    apply concat_map_filter. intros i Hi. unfold nz in Hi.
    destruct (Z.eqb_spec (n i) 0) as [E | E]; [ | discriminate ].
    unfold reps. rewrite E. reflexivity. }
  assert (Hwidth : shape1 H = length centres).
  { rewrite <- Hcentres. unfold cols. rewrite length_map, length_seq. reflexivity. }
  assert (Hcovs : length (concat (map tiles F)) = shape1 H).
  { rewrite Hwidth, <- Hcentres, Hcols, map_map.
    apply length_concat_pointwise. intros i Hi.
    destruct (tiles_spec i (proj1 (HFin i Hi))) as (_ & _ & _ & -> & _).
    rewrite cols_centre, repeat_length. reflexivity. }
  unfold bind at 1, lift at 1. rewrite Hv.
  unfold bind at 1, lift at 1. rewrite EH.
  unfold bind at 1, lift at 1. cbn [attr_T].
  (* the sampling loop *)
  unfold bind at 1.
  match goal with
  | |- context [for_each ?xs ?bd ?st w] =>
      destruct (for_each_invariant _ _ bd (fun t => (t < shape1 H)%nat)
                  (fun done (rp : list (list fl)) w1 =>
                     trace w1 = trace w ++ map (fun t => Draw (col H t)) done
                     /\ draws w1 = (draws w + length done)%nat
                     /\ length rp = length done
                     /\ Forall (fun x => length x = shape1 data) rp)
                  ) with (todo := xs) (done := @nil nat) (s := st) (w := w)
        as (rp & w1 & -> & Etr & Edr & Elen & Hrows)
  end.
  { intros done t rp w1 Ht (Etr & Edr & Elen & Hrows).
    unfold bind at 1.
    assert (Hlt : (t < length (concat (map tiles F)))%nat) by (rewrite Hcovs; exact Ht).
    rewrite (nth_error_nth' _ (np_eye 0) Hlt). unfold from_option, ret at 1.
    set (cov := nth t (concat (map tiles F)) (np_eye 0)).
    assert (Hsq : shape0 cov = shape1 data /\ shape1 cov = shape1 data).
    { pose proof (nth_In _ (np_eye 0) Hlt) as HA. fold cov in HA.
      apply in_concat in HA. destruct HA as (tl & Htl & HA).
      apply in_map_iff in Htl. destruct Htl as (i & <- & Hi).
      destruct (tiles_spec i (proj1 (HFin i Hi))) as (_ & _ & _ & _ & Hall).
      apply Hall. exact HA. }
    destruct Hsq as (Hs0 & Hs1).
    assert (Hrow : row (transpose H) t = col H t) by reflexivity.
    assert (Hlen : length (col H t) = shape1 data).
    { unfold col. rewrite length_map, length_seq. exact H0. }
    unfold bind at 1. unfold multivariate_normal. rewrite Hrow, Hlen, Hs0, Hs1.
    rewrite Nat.eqb_refl. cbn [andb]. unfold ret.
    eexists. eexists. split; [ reflexivity | ].
    cbn [trace draws]. rewrite Etr, Edr, map_app, !length_app, Elen, <- app_assoc.
    cbn [map length]. repeat split; try lia.
    apply Forall_app. split; [ exact Hrows | ].
    constructor; [ | constructor ]. rewrite length_map, length_seq. reflexivity. }
  { apply Forall_forall. intros t Ht. apply in_seq in Ht. cbn [transpose shape0] in Ht. lia. }
  { cbn [map length]. rewrite app_nil_r, Nat.add_0_r. repeat split. constructor. }
  cbn [app] in Etr, Edr, Elen. cbn [transpose shape0] in Etr, Edr, Elen.
  rewrite length_seq in Edr, Elen.
  assert (Ecols : map (fun t => Draw (col H t)) (seq 0 (shape1 H)) = map Draw centres).
  { rewrite <- Hcentres. unfold cols. rewrite map_map. reflexivity. }
  exists (array_of_rows rp), lo, w1. split; [ reflexivity | ].
  cbn [array_of_rows shape0 shape1].
  split; [ lia | ]. split.
  - destruct rp as [ | x rp]; [ | inversion Hrows; assumption ].
    exfalso. cbn [length] in Elen.
    assert (1 <= length centres)%nat; [ | lia ].
    destruct F as [ | i F'] eqn:EF; [ contradiction | ].
    destruct (HFin i (or_introl eq_refl)) as (Hi & Hr).
    unfold centres.
    assert (Hin : In (row data i) (concat (map (fun i => repeat (row data i) (reps i))
                                               (seq 0 (shape0 data))))).
    { apply in_concat. exists (repeat (row data i) (reps i)). split.
      - apply in_map_iff. exists i. split; [ reflexivity | apply in_seq; lia ].
      - destruct (reps i); [ lia | left; reflexivity ]. }
    destruct (concat _); [ destruct Hin | cbn [length]; lia ].
  - split; [ rewrite Etr, Ecols; reflexivity | lia ].
Qed.

End GenerateRows.

(** With one covariance matrix per data row (each [D x D] with finite
    entries, [D >= 1]), a flat budget of non-negative whole numbers of at
    most [2^53] (which doubles hold exactly and the cast to 64-bit integers
    keeps) that are not all zero, and labels either absent or one per row:
    [generate] returns, it draws one sample per budgeted point, around the
    data rows in their order with row [i] repeated [budget[i]] times, and
    the result has [sum(budget)] rows and [D] columns. *)
Theorem generate_draws_budgeted_rows :
  forall mvn_sample data (b : list Z) covs labels logger w,
    (1 <= shape1 data)%nat ->
    length b = shape0 data ->
    (forall z, In z b -> (0 <= z <= 2 ^ 53)%Z) ->
    (exists z, In z b /\ z <> 0%Z) ->
    length covs = shape0 data ->
    (forall cov, In cov covs ->
       shape0 cov = shape1 data /\ shape1 cov = shape1 data
       /\ forall i j, finite (item cov i j)) ->
    labels = [] \/ length labels = shape0 data ->
    let centres :=
      concat (map (fun i => repeat (row data i) (Z.to_nat (nth i b 0%Z)))
                  (seq 0 (shape0 data))) in
    exists points labels_out w',
      generate mvn_sample data (Flat (map (fun z => Fin (IZR z)) b))
               (NoiseMatrices covs) labels logger w
      = (Ok (points, labels_out), w')
      /\ Z.of_nat (shape0 points) = Zsum b
      /\ shape1 points = shape1 data
      /\ trace w' = trace w ++ map Draw centres
      /\ draws w' = (draws w + shape0 points)%nat.
Proof.
  intros mvn_sample data b covs labels logger w HD Hb Hpos Hsome Hc Hsq Hl centres.
  assert (Hrange : forall z, In z b -> (0 <= z <= INT64_MAX)%Z).
  { intros z Hz. specialize (Hpos z Hz). unfold INT64_MAX. lia. }
  destruct (generate_rows_core mvn_sample data b covs labels HD Hb Hrange Hsome Hc Hsq Hl
              logger w)
    as (points & lo & w' & Hrun & H0 & H1 & Htr & Hdr).
  exists points, lo, w'. split; [ exact Hrun | ].
  split.
  - rewrite H0, <- Hb. apply budget_total. intros z Hz. apply Hpos. exact Hz.
  - split; [ exact H1 | ]. split; [ exact Htr | ]. rewrite H0. exact Hdr.
Qed.

Lemma generate_draws_budgeted_rows_witness :
  exists points labels_out w',
    generate (fun _ mean _ => mean) (of_rows [[0]; [5]])
             (Flat (map (fun z => Fin (IZR z)) [2; 1]%Z))
             (NoiseMatrices [of_rows [[1]]; of_rows [[4]]]) ["a"; "b"] false
             {| trace := []; draws := 0 |}
    = (Ok (points, labels_out), w')
    /\ Z.of_nat (shape0 points) = 3%Z
    /\ shape1 points = 1%nat
    /\ trace w' = [Draw [Fin 0]; Draw [Fin 0]; Draw [Fin 5]].
Proof.
  destruct (generate_draws_budgeted_rows (fun _ mean _ => mean) (of_rows [[0]; [5]])
              [2; 1]%Z [of_rows [[1]]; of_rows [[4]]] ["a"; "b"] false
              {| trace := []; draws := 0 |})
    as (points & lo & w' & Hrun & H0 & H1 & Htr & _).
  - simpl. lia.
  - reflexivity.
  - intros z [<- | [<- | []]]; lia.
  - exists 2%Z. split; [ left; reflexivity | lia ].
  - reflexivity.
  - intros cov [<- | [<- | []]]; (split; [ reflexivity | split; [ reflexivity | ] ]);
      intros i j; eexists; reflexivity.
  - right. reflexivity.
  - exists points, lo, w'. split; [ exact Hrun | ].
    split; [ exact H0 | ]. split; [ exact H1 | exact Htr ].
Defined.

(** ** matlab_percentile: the outermost ranks *)

Lemma insert_sorted_finite :
  forall x ss,
    StronglySorted Rle ss ->
    exists ss',
      insert_sorted (Fin x) (map Fin ss) = map Fin ss'
      /\ StronglySorted Rle ss'
      /\ (forall y, In y ss' <-> y = x \/ In y ss)
      /\ length ss' = S (length ss).
Proof.
  intros x ss. induction ss as [ | y t IH]; intros Hs.
  - exists [x]. split; [ reflexivity | ]. split.
    + constructor; constructor.
    + split; [ | reflexivity ]. intros z. simpl. intuition.
  - cbn [map insert_sorted]. rewrite sort_le_Fin.
    inversion Hs as [ | ? ? Ht Hy]; subst.
    destruct (Rle_dec x y) as [Hxy | Hxy].
    + exists (x :: y :: t). split; [ reflexivity | ]. split.
      * constructor; [ exact Hs | ].
        constructor; [ exact Hxy | ].
        rewrite Forall_forall in Hy |- *. intros z Hz. specialize (Hy z Hz). lra.
      * split; [ | reflexivity ]. intros z. simpl. intuition.
    + destruct (IH Ht) as (t' & E & Hs' & Hin & Hlen).
      exists (y :: t'). split; [ rewrite E; reflexivity | ]. split.
      * constructor; [ exact Hs' | ].
        rewrite Forall_forall in Hy |- *. intros z Hz.
        apply Hin in Hz. destruct Hz as [-> | Hz]; [ lra | apply Hy; exact Hz ].
      * split; [ | simpl; rewrite Hlen; reflexivity ].
        intros z. simpl. rewrite Hin. intuition.
Qed.

Lemma np_sort_finite :
  forall ds,
    exists ss,
      np_sort (map Fin ds) = map Fin ss
      /\ StronglySorted Rle ss
      /\ (forall y, In y ss <-> In y ds)
      /\ length ss = length ds.
Proof.
  induction ds as [ | d ds IH].
  - exists []. split; [ reflexivity | ]. split; [ constructor | ].
    split; [ intros; reflexivity | reflexivity ].
  - destruct IH as (ss & E & Hs & Hin & Hlen).
    destruct (insert_sorted_finite d ss Hs) as (ss' & E' & Hs' & Hin' & Hlen').
    exists ss'. unfold np_sort in *. cbn [map fold_right]. rewrite E, E'.
    split; [ reflexivity | ]. split; [ exact Hs' | ].
    split; [ | simpl; rewrite Hlen', Hlen; reflexivity ].
    intros y. rewrite Hin'. simpl. rewrite Hin. intuition.
Qed.

Lemma sorted_last_is_largest :
  forall ss d x, StronglySorted Rle ss -> In x ss -> x <= last ss d.
Proof.
  induction ss as [ | y t IH]; intros d x Hs Hx; [ destruct Hx | ].
  inversion Hs as [ | ? ? Ht Hy]; subst.
  destruct t as [ | z t'].
  - destruct Hx as [-> | []]. simpl. lra.
  - change (last (y :: z :: t') d) with (last (z :: t') d).
    destruct Hx as [-> | Hx].
    + rewrite Forall_forall in Hy.
      assert (x <= z) by (apply Hy; left; reflexivity).
      assert (z <= last (z :: t') d) by (apply IH; [ exact Ht | left; reflexivity ]).
      lra.
    + apply IH; assumption.
Qed.

Lemma last_in_list :
  forall (ss : list R) d, ss <> [] -> In (last ss d) ss.
Proof.
  induction ss as [ | y t IH]; intros d Hne; [ contradiction | ].
  destruct t as [ | z t']; [ left; reflexivity | ].
  right. apply (IH d). discriminate.
Qed.

Lemma last_map_Fin :
  forall ss d, ss <> [] -> last (map Fin ss) NaN = Fin (last ss d).
Proof.
  induction ss as [ | y t IH]; intros d Hne; [ contradiction | ].
  destruct t as [ | z t']; [ reflexivity | ].
  change (last (map Fin (y :: z :: t')) NaN) with (last (map Fin (z :: t')) NaN).
  change (last (y :: z :: t') d) with (last (z :: t') d).
  apply IH. discriminate.
Qed.

Lemma last_map_seq :
  forall (X : Type) (f : nat -> X) m d, last (map f (seq 0 (S m))) d = f m.
Proof.
  intros X f m d. rewrite seq_S, map_app. cbn [map Nat.add]. apply last_last.
Qed.

(** On finite data, a percentile below the rank of the smallest element
    ([50 / n]) is the minimum of the data and a percentile above the rank
    of the largest ([100 - 50 / n]) is the maximum; in particular the 0th
    and the 100th percentile are the minimum and the maximum. *)
Theorem matlab_percentile_clamps :
  forall ds q,
    ds <> [] ->
    exists lo hi,
      In lo ds /\ In hi ds /\ (forall d, In d ds -> lo <= d <= hi)
      /\ (q < 50 / INR (length ds) ->
          matlab_percentile (map Fin ds) (Fin q) = Ok (Fin lo))
      /\ (100 - 50 / INR (length ds) < q ->
          matlab_percentile (map Fin ds) (Fin q) = Ok (Fin hi)).
Proof.
  intros ds q Hne.
  destruct (np_sort_finite ds) as (ss & Esort & Hs & Hin & Hlen).
  destruct ss as [ | s0 st] eqn:Ess.
  { destruct ds; [ contradiction | discriminate Hlen ]. }
  rewrite <- Ess in *.
  assert (Hss : ss <> []) by (rewrite Ess; discriminate).
  exists s0, (last ss 0).
  assert (Hlo : forall d, In d ss -> s0 <= d).
  { intros d Hd. rewrite Ess in Hd, Hs. inversion Hs as [ | ? ? _ Hall]; subst.
    destruct Hd as [<- | Hd]; [ lra | ].
    rewrite Forall_forall in Hall. apply Hall. exact Hd. }
  split; [ apply Hin; rewrite Ess; left; reflexivity | ].
  split; [ apply Hin; apply last_in_list; exact Hss | ].
  split.
  { intros d Hd. apply Hin in Hd. split; [ apply Hlo; exact Hd | ].
    apply sorted_last_is_largest; assumption. }
  set (m := length st).
  assert (Hn : length ds = S m) by (rewrite <- Hlen, Ess; reflexivity).
  assert (Hm : 0 <= INR m) by apply pos_INR.
  assert (HSm : INR (S m) = INR m + 1) by apply S_INR.
  assert (Hrun : matlab_percentile (map Fin ds) (Fin q)
                 = Ok (np_interp (Fin q)
                         (map (fun i => fdiv (fmul (Fin 100) (fadd (of_nat i) (Fin (1 / 2))))
                                             (of_nat (S m)))
                              (seq 0 (S m)))
                         (map Fin ss) (Fin s0) (last (map Fin ss) NaN))).
  { unfold matlab_percentile. rewrite Esort. cbv zeta.
    rewrite length_map, Hlen, Hn. rewrite Ess. reflexivity. }
  assert (Hfirst : hd NaN (map (fun i => fdiv (fmul (Fin 100) (fadd (of_nat i) (Fin (1 / 2))))
                                              (of_nat (S m)))
                               (seq 0 (S m)))
                   = Fin (50 / INR (S m))).
  { cbn [seq map hd]. rewrite !of_nat_Fin, fadd_Fin, fmul_Fin, fdiv_Fin by lra.
    f_equal. simpl (INR 0). field. lra. }
  assert (Hlast : last (map (fun i => fdiv (fmul (Fin 100) (fadd (of_nat i) (Fin (1 / 2))))
                                           (of_nat (S m)))
                            (seq 0 (S m))) NaN
                  = Fin (100 - 50 / INR (S m))).
  { rewrite last_map_seq. rewrite !of_nat_Fin, fadd_Fin, fmul_Fin, fdiv_Fin by lra.
    f_equal. rewrite HSm. field. lra. }
  assert (Hhalf : 50 / INR (S m) <= 50).
  { rewrite HSm.
    assert (0 < 50 / (INR m + 1)) by (apply Rdiv_lt_0_compat; lra).
    assert (50 / (INR m + 1) * (INR m + 1) = 50) by (field; lra).
    nra. }
  rewrite Hn. split.
  - intros Hq. rewrite Hrun. unfold np_interp. cbn [fisnan].
    rewrite Hfirst, flt_Fin_true by exact Hq. reflexivity.
  - intros Hq. rewrite Hrun. unfold np_interp. cbn [fisnan].
    rewrite Hfirst, flt_Fin_false by lra.
    rewrite Hlast, flt_Fin_true by exact Hq.
    rewrite (last_map_Fin ss 0 Hss). reflexivity.
Qed.

Lemma matlab_percentile_clamps_witness :
  exists lo hi,
    In lo [3; 1; 2] /\ In hi [3; 1; 2]
    /\ (forall d, In d [3; 1; 2] -> lo <= d <= hi)
    /\ matlab_percentile (map Fin [3; 1; 2]) (Fin 0) = Ok (Fin lo)
    /\ matlab_percentile (map Fin [3; 1; 2]) (Fin 100) = Ok (Fin hi).
Proof.
  destruct (matlab_percentile_clamps [3; 1; 2] 0) as (lo & hi & Hlo & Hhi & Hall & Hmin & _).
  { discriminate. }
  destruct (matlab_percentile_clamps [3; 1; 2] 100) as (lo' & hi' & _ & Hhi' & Hall' & _ & Hmax).
  { discriminate. }
  assert (E : hi' = hi).
  { apply Rle_antisym; [ apply Hall; exact Hhi' | apply Hall'; exact Hhi ]. }
  exists lo, hi. split; [ exact Hlo | ]. split; [ exact Hhi | ].
  split; [ exact Hall | ]. split.
  - apply Hmin. simpl. lra.
  - rewrite <- E. apply Hmax. simpl. lra.
Defined.

(** ** magic: diffusion stays within the range of each feature *)

(** The entries of the diffusion operator, for a kernel with finite
    non-negative entries. *)
Lemma operator_entry :
  forall kernel i k,
    (forall a b, (a < shape0 kernel)%nat -> (b < shape1 kernel)%nat ->
                 exists r, item kernel a b = Fin r /\ 0 <= r) ->
    (i < shape0 kernel)%nat -> (k < shape1 kernel)%nat ->
    let Ri := Rsum (map (fun j => to_R (item kernel i j)) (seq 0 (shape1 kernel))) in
    dot (row (map_array zero_inf
                (np_diag (map (fun x => fpow x (-1)) (sum_axis1 kernel)))) i)
        (col kernel k)
    = Fin ((if Req_dec_T Ri 0 then 0 else 1 / Ri) * to_R (item kernel i k)).
Proof.
  intros kernel i k H Hi Hk Ri.
  destruct (row_sum_finite kernel i) as (Hrow & Hrow0).
  { intros j Hj. apply H; assumption. }
  fold Ri in Hrow, Hrow0.
  set (ci := if Req_dec_T Ri 0 then 0 else 1 / Ri).
  unfold row, col. simpl.
  rewrite length_map, length_sum_axis1.
  rewrite dot_map_seq.
  rewrite (fsum_map_Fin _ _ (fun j => (if Nat.eqb i j then ci else 0)
                                      * to_R (item kernel j k))).
  - rewrite Rsum_indicator. simpl.
    replace (Nat.ltb i (shape0 kernel)) with true
      by (symmetry; apply Nat.ltb_lt; exact Hi).
    reflexivity.
  - intros j Hj. apply in_seq in Hj.
    destruct (H j k) as (r & -> & _); [ lia | exact Hk | ].
    destruct (Nat.eqb i j).
    + unfold sum_axis1, rows. rewrite !map_map.
      rewrite nth_map_seq by exact Hi.
      rewrite Hrow, inverse_degree by exact Hrow0. reflexivity.
    + reflexivity.
Qed.

(** A weighted mean with non-negative weights lies between the bounds of
    its terms, scaled by the total weight. *)
Lemma weighted_sum_bounds :
  forall (p x : nat -> R) lo hi (idx : list nat),
    (forall k, In k idx -> 0 <= p k /\ lo <= x k <= hi) ->
    lo * Rsum (map p idx) <= Rsum (map (fun k => p k * x k) idx)
    /\ Rsum (map (fun k => p k * x k) idx) <= hi * Rsum (map p idx).
Proof.
  intros p x lo hi idx H. induction idx as [ | k idx IH]; simpl; [ lra | ].
  destruct (H k (or_introl eq_refl)) as (Hp & Hx).
  destruct IH as (IH1 & IH2); [ intros j Hj; apply H; right; exact Hj | ].
  split; nra.
Qed.

Lemma diffuse_within_bounds :
  forall (P : ndarray) (p : nat -> nat -> R) (lo hi : nat -> R) n steps X,
    shape0 P = n -> shape1 P = n ->
    (forall i k, (i < n)%nat -> (k < n)%nat -> item P i k = Fin (p i k) /\ 0 <= p i k) ->
    (forall i, (i < n)%nat -> Rsum (map (p i) (seq 0 n)) = 1) ->
    shape0 X = n ->
    (forall i c, (i < n)%nat -> (c < shape1 X)%nat ->
                 exists x, item X i c = Fin x /\ lo c <= x <= hi c) ->
    exists out,
      diffuse steps P X = Ok out
      /\ shape0 out = n /\ shape1 out = shape1 X
      /\ forall i c, (i < n)%nat -> (c < shape1 X)%nat ->
                     exists x, item out i c = Fin x /\ lo c <= x <= hi c.
Proof.
  intros P p lo hi n steps. induction steps as [ | steps IH]; intros X HP0 HP1 HP Hone HX Hin.
  - exists X. split; [ reflexivity | ]. split; [ exact HX | ]. split; [ reflexivity | exact Hin ].
  - cbn [diffuse]. unfold matmul. rewrite HP1, HX, Nat.eqb_refl.
    rewrite HP0.
    set (next := {| shape0 := n; shape1 := shape1 X;
                    item := fun i k => dot (row P i) (col X k) |}).
    destruct (IH next) as (out & E & H0 & H1 & Hout); try assumption.
    + reflexivity.
    + intros i c Hi Hc. cbn [next item shape1] in *.
      unfold row, col. rewrite HP1, HX, dot_map_seq.
      rewrite (fsum_map_Fin _ _ (fun k => p i k * to_R (item X k c))).
      * eexists. split; [ reflexivity | ].
        destruct (weighted_sum_bounds (p i) (fun k => to_R (item X k c)) (lo c) (hi c)
                    (seq 0 n)) as (B1 & B2).
        { intros k Hk. apply in_seq in Hk.
          destruct (HP i k) as (_ & Hp); [ exact Hi | lia | ].
          destruct (Hin k c) as (x & -> & Hx); [ lia | exact Hc | ].
          split; [ exact Hp | exact Hx ]. }
        rewrite (Hone i Hi) in B1, B2. lra.
      * intros k Hk. apply in_seq in Hk.
        destruct (HP i k) as (-> & _); [ exact Hi | lia | ].
        destruct (Hin k c) as (x & -> & _); [ lia | exact Hc | ].
        apply fmul_Fin.
    + exists out. split; [ exact E | ]. split; [ exact H0 | ].
      split; [ exact H1 | exact Hout ].
Qed.

(** For a square kernel with finite non-negative entries and no empty row,
    and finite data with one row per kernel row: without rescaling, [magic]
    returns data of the same shape, logs nothing, and every imputed value of
    a feature lies between the bounds that hold for that feature in the
    input, whatever the number of diffusion steps. *)
Theorem magic_keeps_feature_range :
  forall data kernel t logger w (lo hi : nat -> R),
    shape1 kernel = shape0 kernel ->
    shape0 data = shape0 kernel ->
    (forall i j, (i < shape0 kernel)%nat -> (j < shape1 kernel)%nat ->
                 exists r, item kernel i j = Fin r /\ 0 <= r) ->
    (forall i, (i < shape0 kernel)%nat -> fsum (row kernel i) <> Fin 0) ->
    (forall i c, (i < shape0 data)%nat -> (c < shape1 data)%nat ->
                 exists x, item data i c = Fin x /\ lo c <= x <= hi c) ->
    exists out P,
      magic data kernel t false logger w = (Ok (out, P), w)
      /\ shape0 out = shape0 data /\ shape1 out = shape1 data
      /\ forall i c, (i < shape0 data)%nat -> (c < shape1 data)%nat ->
                     exists x, item out i c = Fin x /\ lo c <= x <= hi c.
Proof.
  intros data kernel t logger w lo hi Hsq Hrows HK Hmass Hdata.
  set (n := shape0 kernel) in *.
  set (Ri := fun i => Rsum (map (fun j => to_R (item kernel i j)) (seq 0 (shape1 kernel)))).
  set (p := fun i k => (if Req_dec_T (Ri i) 0 then 0 else 1 / Ri i)
                       * to_R (item kernel i k)).
  assert (HR : forall i, (i < n)%nat -> 0 < Ri i).
  { intros i Hi. destruct (row_sum_finite kernel i) as (Hrow & Hrow0).
    { intros j Hj. apply HK; assumption. }
    fold (Ri i) in Hrow, Hrow0.
    destruct (Req_dec_T (Ri i) 0) as [E | E]; [ | lra ].
    exfalso. apply (Hmass i Hi). rewrite Hrow, E. reflexivity. }
  destruct (diffuse_within_bounds
              {| shape0 := shape0 kernel; shape1 := shape1 kernel;
                 item := fun i k =>
                   dot (row (map_array zero_inf
                               (np_diag (map (fun x => fpow x (-1)) (sum_axis1 kernel)))) i)
                       (col kernel k) |}
              p lo hi n (Z.to_nat t) data)
    as (out & Eout & H0 & H1 & Hout).
  - reflexivity.
  - exact Hsq.
  - intros i k Hi Hk. cbn [item]. split.
    + apply operator_entry; [ exact HK | exact Hi | rewrite Hsq; exact Hk ].
    + unfold p. pose proof (HR i Hi).
      destruct (HK i k) as (r & -> & Hr); [ exact Hi | rewrite Hsq; exact Hk | ].
      destruct (Req_dec_T (Ri i) 0); [ lra | ].
      apply Rmult_le_pos; [ | exact Hr ].
      apply Rlt_le, Rdiv_lt_0_compat; lra.
  - intros i Hi. unfold p. rewrite Rsum_scale.
    pose proof (HR i Hi). unfold Ri in *. rewrite Hsq in *. fold n.
    destruct (Req_dec_T _ 0); [ lra | ]. field. lra.
  - exact Hrows.
  - intros i c Hi Hc. apply Hdata; [ rewrite Hrows; exact Hi | exact Hc ].
  - exists out. eexists.
    split.
    + unfold magic. rewrite Hrows. fold n. rewrite Nat.eqb_refl. cbn [negb].
      unfold bind at 1, ret at 1.
      unfold bind at 1, lift at 1. rewrite diffusion_operator_of_ok.
      unfold bind at 1, lift at 1. rewrite Eout. reflexivity.
    + split; [ rewrite H0, Hrows; reflexivity | ].
      split; [ exact H1 | ].
      intros i c Hi Hc. apply Hout; [ rewrite <- Hrows; exact Hi | exact Hc ].
Qed.

Lemma magic_keeps_feature_range_witness :
  exists out P,
    magic (of_rows [[0]; [4]]) (of_rows [[1; 1]; [1; 3]]) 3 false false
          {| trace := []; draws := 0 |}
    = (Ok (out, P), {| trace := []; draws := 0 |})
    /\ forall i c, (i < 2)%nat -> (c < 1)%nat ->
                   exists x, item out i c = Fin x /\ 0 <= x <= 4.
Proof.
  destruct (magic_keeps_feature_range (of_rows [[0]; [4]]) (of_rows [[1; 1]; [1; 3]]) 3
              false {| trace := []; draws := 0 |} (fun _ => 0) (fun _ => 4))
    as (out & P & Hrun & _ & _ & Hrange).
  - reflexivity.
  - reflexivity.
  - simpl. intros i j Hi Hj.
    destruct i as [ | [ | i]]; [ | | lia ];
      (destruct j as [ | [ | j]]; [ | | lia ]);
      simpl; eexists; (split; [ reflexivity | lra ]).
  - simpl. intros i Hi.
    destruct i as [ | [ | i]]; [ | | lia ];
      unfold row; simpl; rewrite !fadd_Fin; intros E; injection E as E; lra.
  - simpl. intros i c Hi Hc.
    destruct i as [ | [ | i]]; [ | | lia ];
      (destruct c as [ | c]; [ | lia ]);
      simpl; eexists; (split; [ reflexivity | lra ]).
  - exists out, P. split; [ exact Hrun | exact Hrange ].
Defined.

(** ** magic: data that fits neither way *)

(** When neither dimension of the data matches the kernel, [magic] only
    logs a warning and goes on: with at least one diffusion step the matrix
    product then raises a ValueError. *)
Theorem magic_mismatch_warns_then_raises :
  forall data kernel t rescale logger w,
    shape0 data <> shape0 kernel ->
    shape1 data <> shape0 kernel ->
    shape0 data <> shape1 kernel ->
    (1 <= t)%Z ->
    exists msg w',
      magic data kernel t rescale logger w = (Raise (ValueError msg), w')
      /\ trace w'
         = trace w ++ (if logger
                       then [LogWarning "Data does not match kernel size"] else [])
      /\ draws w' = draws w.
Proof.
  intros data kernel t rescale logger w H0 H1 H2 Ht.
  unfold magic.
  replace (Nat.eqb (shape0 data) (shape0 kernel)) with false
    by (symmetry; apply Nat.eqb_neq; exact H0).
  replace (Nat.eqb (shape1 data) (shape0 kernel)) with false
    by (symmetry; apply Nat.eqb_neq; exact H1).
  cbn [negb].
  unfold bind at 1. unfold bind at 1. rewrite log_run. unfold ret at 1.
  unfold bind at 1, lift at 1. rewrite diffusion_operator_of_ok.
  unfold bind at 1, lift at 1.
  destruct (Z.to_nat t) as [ | steps] eqn:Es; [ lia | ].
  cbn [diffuse]. unfold matmul. cbn [shape1].
  replace (Nat.eqb (shape1 kernel) (shape0 data)) with false
    by (symmetry; apply Nat.eqb_neq; intros E; apply H2; symmetry; exact E).
  eexists. eexists. split; [ reflexivity | ].
  cbn [trace draws]. split; [ | reflexivity ].
  destruct logger; [ reflexivity | rewrite app_nil_r; reflexivity ].
Qed.

Lemma magic_mismatch_warns_then_raises_witness :
  exists msg w',
    magic (of_rows [[1; 2; 3]]) (of_rows [[1; 0]; [0; 1]]) 1 false true
          {| trace := []; draws := 0 |}
    = (Raise (ValueError msg), w')
    /\ trace w' = [LogWarning "Data does not match kernel size"].
Proof.
  destruct (magic_mismatch_warns_then_raises (of_rows [[1; 2; 3]])
              (of_rows [[1; 0]; [0; 1]]) 1 false true {| trace := []; draws := 0 |})
    as (msg & w' & Hrun & Htr & _).
  - simpl. lia.
  - simpl. lia.
  - simpl. lia.
  - lia.
  - exists msg, w'. split; [ exact Hrun | exact Htr ].
Defined.

(** ** mgc_magic: the returned kernel *)

Lemma fadd_comm : forall x y, fadd x y = fadd y x.
Proof.
  intros [ | s | a] [ | t | c]; try reflexivity.
  - destruct s, t; reflexivity.
  - unfold fadd. f_equal. lra.
Qed.

Lemma broadcast_with_transpose :
  forall M S,
    broadcast2 fadd M (transpose M) = Ok S ->
    shape0 S = shape1 S /\ forall i j, item S i j = item S j i.
Proof.
  intros M S H. unfold broadcast2 in H. cbn [transpose shape0 shape1 item] in H.
  destruct (broadcast_dim (shape0 M) (shape1 M)) as [r | ] eqn:Er; [ | discriminate ].
  destruct (broadcast_dim (shape1 M) (shape0 M)) as [c | ] eqn:Ec; [ | discriminate ].
  inversion H; subst S; clear H. cbn [shape0 shape1 item]. split.
  - unfold broadcast_dim in Er, Ec.
    destruct (Nat.eqb_spec (shape0 M) (shape1 M)) as [E | E].
    + rewrite E, Nat.eqb_refl in *. congruence.
    + destruct (Nat.eqb_spec (shape1 M) (shape0 M)) as [E' | E']; [ congruence | ].
      destruct (Nat.eqb_spec (shape0 M) 1) as [E0 | E0];
        destruct (Nat.eqb_spec (shape1 M) 1) as [E1 | E1];
        try congruence.
  - intros i j. apply fadd_comm.
Qed.

(** Whenever [mgc_magic] returns, the kernel it returns is square and
    symmetric, and the operator it returns is the diffusion operator of
    that kernel. *)
Theorem mgc_magic_kernel_symmetric :
  forall X Y s_hat sigma k a fac t magic_rescale logger w new_data K P w',
    mgc_magic X Y s_hat sigma k a fac t magic_rescale logger w
    = (Ok (new_data, K, P), w') ->
    shape0 K = shape1 K
    /\ (forall i j, item K i j = item K j i)
    /\ diffusion_operator_of K = Ok P.
Proof.
  intros X Y s_hat sigma k a fac t magic_rescale logger w new_data K P w' H.
  unfold mgc_magic in H.
  unfold bind at 1 in H.
  destruct ((if Z.eqb t 0
             then log logger (LogWarning "mgc_magic was passed t=0, no mgc_magic was performed") ;;;
                  ret (Some Y)
             else ret None) w) as [[nd | e] w0]; [ | discriminate ].
  unfold bind at 1 in H.
  destruct (gauss_kernel Y X sigma k a fac false w0) as [[[K1 s1] | e] w1];
    [ | discriminate ].
  unfold bind at 1 in H.
  destruct (gauss_kernel X Y sigma k a fac false w1) as [[[K2 s2] | e] w2];
    [ | discriminate ].
  unfold bind at 1, lift at 1 in H.
  destruct (broadcast2 fmul K1 (row_vector s_hat)) as [A | e]; [ | discriminate ].
  unfold bind at 1, lift at 1 in H.
  destruct (matmul A K2) as [M | e]; [ | discriminate ].
  unfold bind at 1, lift at 1 in H.
  destruct (broadcast2 fadd M (transpose M)) as [S | e] eqn:ES; [ | discriminate ].
  unfold bind at 1 in H.
  destruct (magic Y (map_array (fun x => fdiv x (Fin 2)) S) t magic_rescale false w2)
    as [[[out Q] | e] w3] eqn:EM; [ | discriminate ].
  unfold ret in H. inversion H; subst; clear H.
  destruct (broadcast_with_transpose M S ES) as (Hsq & Hsym).
  cbn [map_array shape0 shape1 item].
  split; [ exact Hsq | ]. split.
  - intros i j. rewrite (Hsym i j). reflexivity.
  - apply (magic_returns_operator _ _ _ _ _ _ _ _ _ EM).
Qed.

Lemma mgc_magic_kernel_symmetric_witness :
  exists new_data K P w',
    mgc_magic (of_rows [[0]; [1]]) (of_rows [[0]; [2]]) [Fin 1; Fin 1]
              (SigmaNum (Fin 1)) 5 2 1 1 false false {| trace := []; draws := 0 |}
    = (Ok (new_data, K, P), w')
    /\ shape0 K = shape1 K
    /\ (forall i j, item K i j = item K j i).
Proof.
  assert (Hrun : exists new_data K P w',
             mgc_magic (of_rows [[0]; [1]]) (of_rows [[0]; [2]]) [Fin 1; Fin 1]
                       (SigmaNum (Fin 1)) 5 2 1 1 false false
                       {| trace := []; draws := 0 |}
             = (Ok (new_data, K, P), w')).
  { eexists. eexists. eexists. eexists.
    unfold mgc_magic, gauss_kernel, magic, bind, validate_sigma, log, cdist, emit,
      lift, ret. simpl. reflexivity. }
  destruct Hrun as (new_data & K & P & w' & Hrun).
  exists new_data, K, P, w'. split; [ exact Hrun | ].
  destruct (mgc_magic_kernel_symmetric _ _ _ _ _ _ _ _ _ _ _ _ _ _ _ Hrun)
    as (H0 & H1 & _).
  split; assumption.
Defined.

(** ** feature_scale *)

Lemma fold_fmin2_finite :
  forall t x,
    exists m,
      fold_left fmin2 (map Fin t) (Fin x) = Fin m
      /\ (m = x \/ In m t) /\ m <= x /\ (forall r, In r t -> m <= r).
Proof.
  induction t as [ | y t IH]; intros x.
  - exists x. split; [ reflexivity | ]. split; [ left; reflexivity | ].
    split; [ lra | intros r [] ].
  - cbn [map fold_left]. rewrite fmin2_Fin.
    destruct (IH (Rmin x y)) as (m & E & Hin & Hle & Hall).
    exists m. split; [ exact E | ].
    pose proof (Rmin_l x y). pose proof (Rmin_r x y).
    split; [ | split; [ lra | ] ].
    + destruct Hin as [-> | Hin]; [ | right; right; exact Hin ].
      destruct (Rle_dec x y) as [Hxy | Hxy].
      * left. apply Rmin_left. exact Hxy.
      * right. left. symmetry. apply Rmin_right. lra.
    + intros r [<- | Hr]; [ lra | apply Hall; exact Hr ].
Qed.

Lemma fold_fmax2_finite :
  forall t x,
    exists m,
      fold_left fmax2 (map Fin t) (Fin x) = Fin m
      /\ (m = x \/ In m t) /\ x <= m /\ (forall r, In r t -> r <= m).
Proof.
  induction t as [ | y t IH]; intros x.
  - exists x. split; [ reflexivity | ]. split; [ left; reflexivity | ].
    split; [ lra | intros r [] ].
  - cbn [map fold_left]. rewrite fmax2_Fin.
    destruct (IH (Rmax x y)) as (m & E & Hin & Hle & Hall).
    exists m. split; [ exact E | ].
    pose proof (Rmax_l x y). pose proof (Rmax_r x y).
    split; [ | split; [ lra | ] ].
    + destruct Hin as [-> | Hin]; [ | right; right; exact Hin ].
      destruct (Rle_dec x y) as [Hxy | Hxy].
      * right. left. symmetry. apply Rmax_right. exact Hxy.
      * left. apply Rmax_left. lra.
    + intros r [<- | Hr]; [ lra | apply Hall; exact Hr ].
Qed.

Lemma np_min_finite :
  forall rs, rs <> [] ->
    exists lo, np_min (map Fin rs) = Ok (Fin lo)
               /\ In lo rs /\ forall r, In r rs -> lo <= r.
Proof.
  intros [ | x t] Hne; [ contradiction | ].
  destruct (fold_fmin2_finite t x) as (m & E & Hin & Hle & Hall).
  exists m. unfold np_min. cbn [map fold1]. rewrite E.
  split; [ reflexivity | ]. split.
  - destruct Hin as [-> | Hin]; [ left; reflexivity | right; exact Hin ].
  - intros r [<- | Hr]; [ exact Hle | apply Hall; exact Hr ].
Qed.

Lemma np_max_finite :
  forall rs, rs <> [] ->
    exists hi, np_max (map Fin rs) = Ok (Fin hi)
               /\ In hi rs /\ forall r, In r rs -> r <= hi.
Proof.
  intros [ | x t] Hne; [ contradiction | ].
  destruct (fold_fmax2_finite t x) as (m & E & Hin & Hle & Hall).
  exists m. unfold np_max. cbn [map fold1]. rewrite E.
  split; [ reflexivity | ]. split.
  - destruct Hin as [-> | Hin]; [ left; reflexivity | right; exact Hin ].
  - intros r [<- | Hr]; [ exact Hle | apply Hall; exact Hr ].
Qed.

Lemma in_ravel :
  forall x v,
    In v (ravel x)
    <-> exists i j, (i < shape0 x)%nat /\ (j < shape1 x)%nat /\ v = item x i j.
Proof.
  intros x v. unfold ravel, rows, row. split.
  - intros H. apply in_concat in H. destruct H as (r & Hr & Hv).
    apply in_map_iff in Hr. destruct Hr as (i & <- & Hi).
    apply in_map_iff in Hv. destruct Hv as (j & <- & Hj).
    apply in_seq in Hi. apply in_seq in Hj.
    exists i, j. repeat split; lia.
  - intros (i & j & Hi & Hj & ->). apply in_concat.
    exists (map (fun j0 => item x i j0) (seq 0 (shape1 x))). split.
    + apply in_map_iff. exists i. split; [ reflexivity | apply in_seq; lia ].
    + apply in_map_iff. exists j. split; [ reflexivity | apply in_seq; lia ].
Qed.

(** The extremes of a non-empty array of finite values. *)
Lemma finite_extremes :
  forall x,
    (1 <= shape0 x)%nat -> (1 <= shape1 x)%nat ->
    (forall i j, (i < shape0 x)%nat -> (j < shape1 x)%nat -> finite (item x i j)) ->
    exists lo hi,
      np_min (ravel x) = Ok (Fin lo) /\ np_max (ravel x) = Ok (Fin hi)
      /\ (exists i j, (i < shape0 x)%nat /\ (j < shape1 x)%nat /\ item x i j = Fin lo)
      /\ (exists i j, (i < shape0 x)%nat /\ (j < shape1 x)%nat /\ item x i j = Fin hi)
      /\ (forall i j, (i < shape0 x)%nat -> (j < shape1 x)%nat ->
                      exists v, item x i j = Fin v /\ lo <= v <= hi).
Proof.
  intros x Hn Hm Hfin.
  set (rs := map to_R (ravel x)).
  assert (Ers : ravel x = map Fin rs).
  { unfold rs. rewrite map_map. rewrite <- (map_id (ravel x)) at 1.
    apply map_ext_in. intros v Hv. apply in_ravel in Hv.
    destruct Hv as (i & j & Hi & Hj & ->).
    destruct (Hfin i j Hi Hj) as (r & ->). reflexivity. }
  assert (Hmem : forall r, In r rs ->
                   exists i j, (i < shape0 x)%nat /\ (j < shape1 x)%nat
                               /\ item x i j = Fin r).
  { intros r Hr. assert (Hv : In (Fin r) (ravel x)).
    { rewrite Ers. apply in_map. exact Hr. }
    apply in_ravel in Hv. destruct Hv as (i & j & Hi & Hj & E).
    exists i, j. repeat split; [ exact Hi | exact Hj | symmetry; exact E ]. }
  assert (Hval : forall i j, (i < shape0 x)%nat -> (j < shape1 x)%nat ->
                   exists v, item x i j = Fin v /\ In v rs).
  { intros i j Hi Hj. destruct (Hfin i j Hi Hj) as (v & E).
    exists v. split; [ exact E | ].
    unfold rs. apply in_map_iff. exists (Fin v). split; [ reflexivity | ].
    apply in_ravel. exists i, j. repeat split; [ exact Hi | exact Hj | symmetry; exact E ]. }
  assert (Hne : rs <> []).
  { destruct (Hval O O) as (v & _ & Hv); [ lia | lia | ].
    intros E. rewrite E in Hv. destruct Hv. }
  destruct (np_min_finite rs Hne) as (lo & Elo & Hlo & Hlow).
  destruct (np_max_finite rs Hne) as (hi & Ehi & Hhi & Hupp).
  exists lo, hi. rewrite Ers. split; [ exact Elo | ]. split; [ exact Ehi | ].
  split; [ apply Hmem; exact Hlo | ]. split; [ apply Hmem; exact Hhi | ].
  intros i j Hi Hj. destruct (Hval i j Hi Hj) as (v & E & Hv).
  exists v. split; [ exact E | ]. split; [ apply Hlow | apply Hupp ]; exact Hv.
Qed.

Lemma DBL_MAX_large : 16 <= DBL_MAX.
Proof.
  unfold DBL_MAX.
  assert (H52 : 1 <= 2 ^ 52) by (apply pow_R1_Rle; lra).
  assert (Hinv : / 2 ^ 52 <= 1).
  { rewrite <- Rinv_1. apply Rinv_le_contravar; lra. }
  assert (Hbig : 16 <= 2 ^ 1023).
  { change 1023%nat with (4 + 1019)%nat. rewrite pow_add.
    assert (1 <= 2 ^ 1019) by (apply pow_R1_Rle; lra).
    assert (E : 2 ^ 4 = 16) by (simpl; lra). rewrite E. nra. }
  nra.
Qed.

Lemma overflow_in_range :
  forall r, Rabs r <= DBL_MAX -> overflow (Fin r) = Fin r.
Proof.
  intros r H. unfold overflow.
  destruct (Rlt_dec DBL_MAX (Rabs r)) as [Hlt | _]; [ lra | reflexivity ].
Qed.

Lemma difference_in_range :
  forall a b, Rabs a <= DBL_MAX / 2 -> Rabs b <= DBL_MAX / 2 -> Rabs (a - b) <= DBL_MAX.
Proof.
  intros a b Ha Hb. pose proof (Rabs_triang a (- b)) as Ht.
  rewrite Rabs_Ropp in Ht. unfold Rminus. lra.
Qed.

(** On a non-empty array of finite values that are not all equal and whose
    magnitudes are at most half the largest double, so that no difference
    of two of them overflows, [feature_scale] keeps the shape and maps
    every value [v] to [(v - lo) / (hi - lo)], a number between 0 and 1,
    where [lo] and [hi] are the smallest and the largest value of the
    array: the smallest value goes to 0 and the largest to 1. *)
Theorem feature_scale_unit_range :
  forall x,
    (forall i j, (i < shape0 x)%nat -> (j < shape1 x)%nat ->
       exists v, item x i j = Fin v /\ Rabs v <= DBL_MAX / 2) ->
    (exists i j i' j',
       (i < shape0 x)%nat /\ (j < shape1 x)%nat
       /\ (i' < shape0 x)%nat /\ (j' < shape1 x)%nat
       /\ item x i j <> item x i' j') ->
    exists out lo hi,
      feature_scale x = Ok out
      /\ shape0 out = shape0 x /\ shape1 out = shape1 x
      /\ lo < hi
      /\ (forall i j, (i < shape0 x)%nat -> (j < shape1 x)%nat ->
            exists v, item x i j = Fin v /\ lo <= v <= hi
                      /\ item out i j = Fin ((v - lo) / (hi - lo))
                      /\ 0 <= (v - lo) / (hi - lo) <= 1)
      /\ (exists i j, (i < shape0 x)%nat /\ (j < shape1 x)%nat
                      /\ item x i j = Fin lo /\ item out i j = Fin 0)
      /\ (exists i j, (i < shape0 x)%nat /\ (j < shape1 x)%nat
                      /\ item x i j = Fin hi /\ item out i j = Fin 1).
Proof.
  intros x Hmag (i1 & j1 & i2 & j2 & Hi1 & Hj1 & Hi2 & Hj2 & Hdiff).
  assert (Hfin : forall i j, (i < shape0 x)%nat -> (j < shape1 x)%nat ->
                   finite (item x i j)).
  { intros i j Hi Hj. destruct (Hmag i j Hi Hj) as (v & E & _). exists v. exact E. }
  assert (Hsmall : forall i j v, (i < shape0 x)%nat -> (j < shape1 x)%nat ->
                     item x i j = Fin v -> Rabs v <= DBL_MAX / 2).
  { intros i j v Hi Hj E. destruct (Hmag i j Hi Hj) as (u & Eu & Hu).
    rewrite E in Eu. injection Eu as ->. exact Hu. }
  destruct (finite_extremes x) as (lo & hi & Elo & Ehi & Hlo & Hhi & Hall);
    [ lia | lia | exact Hfin | ].
  assert (Hlo_small : Rabs lo <= DBL_MAX / 2).
  { destruct Hlo as (i & j & Hi & Hj & E). exact (Hsmall i j lo Hi Hj E). }
  assert (Hhi_small : Rabs hi <= DBL_MAX / 2).
  { destruct Hhi as (i & j & Hi & Hj & E). exact (Hsmall i j hi Hi Hj E). }
  assert (Hlt : lo < hi).
  { destruct (Hall i1 j1 Hi1 Hj1) as (u & Eu & Hu).
    destruct (Hall i2 j2 Hi2 Hj2) as (v & Ev & Hv).
    assert (u <> v) by (intros E; apply Hdiff; rewrite Eu, Ev, E; reflexivity).
    lra. }
  assert (Hentry : forall v, Rabs v <= DBL_MAX / 2 ->
                     fdiv (overflow (fsub (Fin v) (Fin lo)))
                          (overflow (fsub (Fin hi) (Fin lo)))
                     = Fin ((v - lo) / (hi - lo))).
  { intros v Hv. rewrite !fsub_Fin.
    rewrite !overflow_in_range by (apply difference_in_range; assumption).
    rewrite fdiv_Fin by lra. reflexivity. }
  eexists. exists lo, hi. split.
  { unfold feature_scale. rewrite Elo, Ehi. reflexivity. }
  cbn [map_array shape0 shape1 item].
  split; [ reflexivity | ]. split; [ reflexivity | ]. split; [ exact Hlt | ].
  split; [ | split ].
  - intros i j Hi Hj. destruct (Hall i j Hi Hj) as (v & E & Hv).
    exists v. split; [ exact E | ]. split; [ exact Hv | ].
    rewrite E, Hentry by exact (Hsmall i j v Hi Hj E). split; [ reflexivity | ].
    assert (Hq : (v - lo) / (hi - lo) * (hi - lo) = v - lo) by (field; lra).
    assert (0 <= (v - lo) / (hi - lo))
      by (apply Rmult_le_pos; [ lra | apply Rlt_le, Rinv_0_lt_compat; lra ]).
    split; [ assumption | nra ].
  - destruct Hlo as (i & j & Hi & Hj & E). exists i, j.
    split; [ exact Hi | ]. split; [ exact Hj | ]. split; [ exact E | ].
    rewrite E, Hentry by exact Hlo_small. f_equal. field. lra.
  - destruct Hhi as (i & j & Hi & Hj & E). exists i, j.
    split; [ exact Hi | ]. split; [ exact Hj | ]. split; [ exact E | ].
    rewrite E, Hentry by exact Hhi_small. f_equal. field. lra.
Qed.

Lemma feature_scale_unit_range_witness :
  exists out lo hi,
    feature_scale (of_rows [[2; 6]; [4; 3]]) = Ok out
    /\ lo < hi
    /\ (forall i j, (i < 2)%nat -> (j < 2)%nat ->
          exists v, item (of_rows [[2; 6]; [4; 3]]) i j = Fin v
                    /\ item out i j = Fin ((v - lo) / (hi - lo))
                    /\ 0 <= (v - lo) / (hi - lo) <= 1).
Proof.
  destruct (feature_scale_unit_range (of_rows [[2; 6]; [4; 3]]))
    as (out & lo & hi & Hrun & _ & _ & Hlt & Hall & _).
  - pose proof DBL_MAX_large as Hbig. simpl. intros i j Hi Hj.
    destruct i as [ | [ | i]]; [ | | lia ];
      (destruct j as [ | [ | j]]; [ | | lia ]);
      eexists; (split; [ reflexivity | ]); cbn [nth];
      rewrite Rabs_pos_eq by lra; lra.
  - exists 0%nat, 0%nat, 0%nat, 1%nat. simpl.
    repeat split; try lia. intros E. injection E as E. lra.
  - exists out, lo, hi. split; [ exact Hrun | ]. split; [ exact Hlt | ].
    intros i j Hi Hj. destruct (Hall i j Hi Hj) as (v & E & _ & Eo & Hr).
    exists v. split; [ exact E | ]. split; [ exact Eo | exact Hr ].
Defined.

(** On a non-empty array whose values are all the same finite number the
    range is 0 and every value becomes 0/0: the result is all NaN. *)
Theorem feature_scale_constant_is_nan :
  forall x c,
    (1 <= shape0 x)%nat -> (1 <= shape1 x)%nat ->
    (forall i j, (i < shape0 x)%nat -> (j < shape1 x)%nat -> item x i j = Fin c) ->
    exists out,
      feature_scale x = Ok out
      /\ shape0 out = shape0 x /\ shape1 out = shape1 x
      /\ forall i j, (i < shape0 x)%nat -> (j < shape1 x)%nat -> item out i j = NaN.
Proof.
  intros x c Hn Hm Hconst.
  destruct (finite_extremes x) as (lo & hi & Elo & Ehi & Hlo & Hhi & _);
    [ exact Hn | exact Hm | | ].
  { intros i j Hi Hj. exists c. apply Hconst; assumption. }
  assert (lo = c).
  { destruct Hlo as (i & j & Hi & Hj & E). rewrite (Hconst i j Hi Hj) in E.
    injection E as E. symmetry. exact E. }
  assert (hi = c).
  { destruct Hhi as (i & j & Hi & Hj & E). rewrite (Hconst i j Hi Hj) in E.
    injection E as E. symmetry. exact E. }
  subst lo hi.
  eexists. split.
  { unfold feature_scale. rewrite Elo, Ehi. reflexivity. }
  cbn [map_array shape0 shape1 item].
  split; [ reflexivity | ]. split; [ reflexivity | ].
  intros i j Hi Hj. rewrite (Hconst i j Hi Hj), !fsub_Fin.
  replace (c - c) with 0 by lra.
  rewrite overflow_in_range
    by (rewrite Rabs_R0; pose proof DBL_MAX_large; lra).
  apply fdiv_zero_zero; lra.
Qed.

Lemma feature_scale_constant_is_nan_witness :
  exists out,
    feature_scale (of_rows [[7]; [7]]) = Ok out
    /\ forall i j, (i < 2)%nat -> (j < 1)%nat -> item out i j = NaN.
Proof.
  destruct (feature_scale_constant_is_nan (of_rows [[7]; [7]]) 7)
    as (out & Hrun & _ & _ & Hall).
  - simpl. lia.
  - simpl. lia.
  - simpl. intros i j Hi Hj.
    destruct i as [ | [ | i]]; [ | | lia ]; (destruct j as [ | j]; [ | lia ]); reflexivity.
  - exists out. split; [ exact Hrun | exact Hall ].
Defined.

(** ** generate_imbalanced_circle *)

Lemma collect_members :
  forall (X : Type) (l : list (outcome X)) r,
    collect l = Ok r -> forall y, In y r -> In (Ok y) l.
Proof.
  intros X l. induction l as [ | [a | e] l IH]; intros r H y Hy; simpl in H.
  - inversion H; subst. destruct Hy.
  - destruct (collect l) as [r' | e]; [ | discriminate ].
    inversion H; subst. destruct Hy as [-> | Hy].
    + left. reflexivity.
    + right. apply (IH r' eq_refl). exact Hy.
  - discriminate.
Qed.

Lemma linspace_angle :
  forall n k,
    (k < n)%nat ->
    - PI <= (if Nat.eqb n 1 then - PI else - PI + INR k * ((PI - - PI) / INR (n - 1)))
    <= PI.
Proof.
  intros n k Hk. pose proof PI_RGT_0 as Hpi.
  destruct (Nat.eqb_spec n 1) as [E | E]; [ lra | ].
  assert (Hn : 0 < INR (n - 1)) by (apply lt_0_INR; lia).
  assert (Hk0 : 0 <= INR k) by apply pos_INR.
  assert (Hk1 : INR k <= INR (n - 1)) by (apply le_INR; lia).
  set (step := (PI - - PI) / INR (n - 1)).
  assert (Hstep : step * INR (n - 1) = 2 * PI) by (unfold step; field; lra).
  assert (0 <= step) by (unfold step; apply Rmult_le_pos;
                         [ lra | apply Rlt_le, Rinv_0_lt_compat; exact Hn ]).
  split; nra.
Qed.

Lemma circle_rows :
  forall choices n_points n_total weight pnts,
    generate_imbalanced_circle choices n_points n_total weight = Ok pnts ->
    shape1 pnts = 2%nat
    /\ forall i, (i < shape0 pnts)%nat ->
         exists angle u v,
           - PI <= angle <= PI
           /\ item pnts i 0 = Fin u /\ item pnts i 1 = Fin v
           /\ u = cos angle /\ v = sin angle
           /\ u * u + v * v = 1.
Proof.
  intros choices n_points n_total weight pnts H.
  unfold generate_imbalanced_circle, linspace in H.
  destruct (n_total <? 0)%Z; [ discriminate | ].
  cbv zeta in H.
  set (n := Z.to_nat n_total) in *.
  set (ang := fun i => if Nat.eqb n 1 then - PI
                       else - PI + INR i * ((PI - - PI) / INR (n - 1))) in *.
  rewrite !length_map, length_seq in H.
  match type of H with
  | match ?c with _ => _ end = _ => destruct c as [idx | e]; [ | discriminate ]
  end.
  match type of H with
  | match ?c with _ => _ end = _ =>
      destruct c as [picked | e] eqn:Ep; [ | discriminate ]
  end.
  inversion H; subst pnts; clear H. cbn [shape0 shape1 item].
  split; [ reflexivity | ].
  intros i Hi.
  pose proof (nth_In picked [] Hi) as Hrow.
  unfold take_points in Ep.
  apply (collect_members _ _ _ Ep) in Hrow.
  apply in_map_iff in Hrow. destruct Hrow as (k & Ek & _).
  destruct (nth_error _ k) as [r | ] eqn:En; [ | discriminate ].
  inversion Ek; subst r; clear Ek.
  apply nth_error_In in En. apply in_map_iff in En.
  destruct En as (k' & Erow & Hk'). apply in_seq in Hk'.
  rewrite ?length_map, ?length_seq in Hk'.
  assert (Hk : (k' < n)%nat) by lia. clear Hk' k.
  rewrite !map_map in Erow.
  rewrite !nth_map_seq in Erow by exact Hk.
  cbn [fcos fsin] in Erow. rewrite !fmul_Fin in Erow.
  exists (ang k'), (cos (ang k')), (sin (ang k')).
  split; [ apply linspace_angle; exact Hk | ].
  rewrite <- Erow. cbn [nth].
  split; [ apply f_equal, Rmult_1_l | ]. split; [ apply f_equal, Rmult_1_l | ].
  split; [ reflexivity | ]. split; [ reflexivity | ].
  pose proof (sin2_cos2 (ang k')) as Hsc. unfold Rsqr in Hsc. lra.
Qed.

Lemma collect_all_ok :
  forall (X : Type) (l : list (outcome X)),
    (forall x, In x l -> exists a, x = Ok a) -> exists r, collect l = Ok r.
Proof.
  intros X l. induction l as [ | x l IH]; intros H.
  - exists []. reflexivity.
  - destruct (H x (or_introl eq_refl)) as (a & ->).
    destruct IH as (r & E); [ intros y Hy; apply H; right; exact Hy | ].
    exists (a :: r). simpl. rewrite E. reflexivity.
Qed.

(** For [n_total >= 0], [generate_imbalanced_circle] passes one weight per
    grid angle to [random.choices]; an exception of [random.choices] is
    passed on, and if the chosen indices are within the grid the call
    returns one row per chosen index, in two columns, each row being
    [(cos a, sin a)] for an angle [a] between [-pi] and [pi], hence a point
    of the unit circle. *)
Theorem generate_imbalanced_circle_on_circle :
  forall choices n_points n_total weight,
    (0 <= n_total)%Z ->
    exists weights,
      length weights = Z.to_nat n_total
      /\ (forall e, choices (Z.to_nat n_total) weights n_points = Raise e ->
                    generate_imbalanced_circle choices n_points n_total weight = Raise e)
      /\ (forall idx,
            choices (Z.to_nat n_total) weights n_points = Ok idx ->
            Forall (fun i => (i < Z.to_nat n_total)%nat) idx ->
            exists pnts,
              generate_imbalanced_circle choices n_points n_total weight = Ok pnts
              /\ shape0 pnts = length idx /\ shape1 pnts = 2%nat
              /\ forall i, (i < length idx)%nat ->
                   exists angle u v,
                     - PI <= angle <= PI
                     /\ item pnts i 0 = Fin u /\ item pnts i 1 = Fin v
                     /\ u = cos angle /\ v = sin angle
                     /\ u * u + v * v = 1).
Proof.
  intros choices n_points n_total weight Hn.
  assert (Hneg : (n_total <? 0)%Z = false) by (apply Z.ltb_ge; exact Hn).
  set (n := Z.to_nat n_total).
  set (theta := map (fun i => Fin (if Nat.eqb n 1 then - PI
                                   else - PI + INR i * ((PI - - PI) / INR (n - 1))))
                    (seq 0 n)).
  set (a := map (fun x => fmul (Fin 1) (fcos x)) theta).
  set (b := map (fun x => fmul (Fin 1) (fsin x)) theta).
  set (coords := map (fun i => [nth i a NaN; nth i b NaN]) (seq 0 (length theta))).
  assert (Hlen : length coords = n).
  { unfold coords, theta. rewrite !length_map, !length_seq. reflexivity. }
  assert (Hunfold : generate_imbalanced_circle choices n_points n_total weight
                    = match choices n (map (fun x => fadd weight x) a) n_points with
                      | Raise e => Raise e
                      | Ok idx =>
                          match take_points coords idx with
                          | Raise e => Raise e
                          | Ok pnts =>
                              Ok {| shape0 := length pnts; shape1 := 2;
                                    item := fun i j => nth j (nth i pnts []) NaN |}
                          end
                      end).
  { unfold generate_imbalanced_circle, linspace. rewrite Hneg. cbv zeta.
    fold n. fold theta. fold a. fold b. fold coords. rewrite Hlen. reflexivity. }
  exists (map (fun x => fadd weight x) a).
  split; [ unfold a, theta; rewrite !length_map, length_seq; reflexivity | ].
  split.
  - intros e He. rewrite Hunfold, He. reflexivity.
  - intros idx Hidx Hrange.
    destruct (collect_all_ok _
                (map (fun i => match nth_error coords i with
                               | Some r => Ok r
                               | None => Raise (IndexError "index is out of bounds for axis 0")
                               end) idx))
      as (picked & Ep).
    { intros x Hx. apply in_map_iff in Hx. destruct Hx as (i & <- & Hi).
      rewrite Forall_forall in Hrange. specialize (Hrange i Hi).
      destruct (nth_error coords i) as [r | ] eqn:En; [ exists r; reflexivity | ].
      apply nth_error_None in En. lia. }
    assert (Hrun : generate_imbalanced_circle choices n_points n_total weight
                   = Ok {| shape0 := length picked; shape1 := 2;
                           item := fun i j => nth j (nth i picked []) NaN |}).
    { rewrite Hunfold, Hidx. unfold take_points. rewrite Ep. reflexivity. }
    assert (Hrows : length picked = length idx).
    { rewrite (collect_length _ _ _ Ep), length_map. reflexivity. }
    eexists. split; [ exact Hrun | ].
    destruct (circle_rows _ _ _ _ _ Hrun) as (H1 & Hall).
    split; [ exact Hrows | ]. split; [ exact H1 | ].
    intros i Hi. apply Hall. cbn [shape0]. rewrite Hrows. exact Hi.
Qed.

Lemma generate_imbalanced_circle_on_circle_witness :
  exists pnts,
    generate_imbalanced_circle (fun _ _ _ => Ok [0; 2; 2]%nat) 3 3 (Fin (12 / 10))
    = Ok pnts
    /\ shape0 pnts = 3%nat /\ shape1 pnts = 2%nat
    /\ forall i, (i < 3)%nat ->
         exists u v, item pnts i 0 = Fin u /\ item pnts i 1 = Fin v
                     /\ u * u + v * v = 1.
Proof.
  destruct (generate_imbalanced_circle_on_circle (fun _ _ _ => Ok [0; 2; 2]%nat) 3 3
              (Fin (12 / 10)))
    as (weights & _ & _ & Hok); [ lia | ].
  destruct (Hok [0; 2; 2]%nat eq_refl) as (pnts & Hrun & H0 & H1 & Hall).
  { repeat constructor. }
  exists pnts. split; [ exact Hrun | ]. split; [ exact H0 | ]. split; [ exact H1 | ].
  intros i Hi.
  destruct (Hall i Hi) as (angle & u & v & _ & Eu & Ev & _ & _ & Huv).
  exists u, v. split; [ exact Eu | ]. split; [ exact Ev | exact Huv ].
Defined.

(** ** local_covariance *)

Lemma fmul_comm : forall x y, fmul x y = fmul y x.
Proof.
  intros [ | s | a] [ | t | c]; try reflexivity.
  - unfold fmul. rewrite xorb_comm. reflexivity.
  - unfold fmul. f_equal. lra.
Qed.

Lemma dot_comm : forall u v, dot u v = dot v u.
Proof.
  unfold dot. induction u as [ | x u IH]; intros [ | y v]; try reflexivity.
  cbn [combine map fsum fold_right fst snd].
  change (fold_right fadd (Fin 0) (map (fun p => fmul (fst p) (snd p)) (combine u v)))
    with (fsum (map (fun p => fmul (fst p) (snd p)) (combine u v))).
  change (fold_right fadd (Fin 0) (map (fun p => fmul (fst p) (snd p)) (combine v u)))
    with (fsum (map (fun p => fmul (fst p) (snd p)) (combine v u))).
  rewrite (IH v), (fmul_comm x y). reflexivity.
Qed.

Lemma np_cov_symmetric :
  forall points a b, item (np_cov points) a b = item (np_cov points) b a.
Proof.
  intros points a b. unfold np_cov. cbn [item]. rewrite dot_comm. reflexivity.
Qed.

Lemma for_each_app :
  forall (A S : Type) (body : A -> S -> Py S) (l1 l2 : list A) (s : S) (w : world),
    for_each (l1 ++ l2) body s w
    = match for_each l1 body s w with
      | (Ok s', w') => for_each l2 body s' w'
      | (Raise e, w') => (Raise e, w')
      end.
Proof.
  intros A S body l1. induction l1 as [ | x l1 IH]; intros l2 s w; [ reflexivity | ].
  cbn [app for_each]. unfold bind.
  destruct (body x s w) as [[s1 | e] w1]; [ apply IH | reflexivity ].
Qed.

Lemma covariance_loop :
  forall (kneighbors : ndarray -> Z -> nat -> outcome (list nat)) data k l acc w,
    (forall i, In i l -> exists idx, kneighbors data k i = Ok idx) ->
    exists covs,
      for_each l
        (fun i (acc : list ndarray) =>
           idx <- lift (kneighbors data k i) ;;
           ret (acc ++ [np_cov (take_rows data idx)]))
        acc w
      = (Ok (acc ++ covs), w)
      /\ length covs = length l
      /\ Forall (fun c => shape0 c = shape1 data /\ shape1 c = shape1 data
                          /\ forall a b, item c a b = item c b a) covs.
Proof.
  intros kneighbors data k l. induction l as [ | i l IH]; intros acc w Hq.
  - exists []. rewrite app_nil_r. split; [ reflexivity | ].
    split; [ reflexivity | constructor ].
  - destruct (Hq i (or_introl eq_refl)) as (idx & Eidx).
    destruct (IH (acc ++ [np_cov (take_rows data idx)]) w) as (covs & E & Hlen & Hall).
    { intros j Hj. apply Hq. right. exact Hj. }
    exists (np_cov (take_rows data idx) :: covs). split.
    + cbn [for_each]. unfold bind at 1. unfold bind at 1, lift at 1. rewrite Eidx.
      unfold ret at 1. rewrite E, <- app_assoc. reflexivity.
    + split; [ simpl; rewrite Hlen; reflexivity | ].
      constructor; [ | exact Hall ].
      split; [ reflexivity | ]. split; [ reflexivity | ].
      apply np_cov_symmetric.
Qed.

(** When every neighbour query succeeds on data with at least one row,
    [local_covariance] returns one covariance per row and leaves the logger
    and the random generator alone: for [D <> 1] features a stack of
    symmetric [D x D] matrices, for [D = 1] the vector of their only
    entries. *)
Theorem local_covariance_one_per_row :
  forall (kneighbors : ndarray -> Z -> nat -> outcome (list nat)) data k w,
    (1 <= shape0 data)%nat ->
    (forall i, (i < shape0 data)%nat -> exists idx, kneighbors data k i = Ok idx) ->
    exists covs,
      local_covariance kneighbors data k w
      = (Ok (if Nat.eqb (shape1 data) 1
             then NoiseVector (map (fun c => item c O O) covs)
             else NoiseMatrices covs), w)
      /\ length covs = shape0 data
      /\ Forall (fun c => shape0 c = shape1 data /\ shape1 c = shape1 data
                          /\ forall a b, item c a b = item c b a) covs.
Proof.
  intros kneighbors data k w HN Hq.
  destruct (covariance_loop kneighbors data k (seq 0 (shape0 data)) [] w)
    as (covs & E & Hlen & Hall).
  { intros i Hi. apply in_seq in Hi. apply Hq. lia. }
  assert (Hfit : Nat.eqb (shape0 data) 0 = false) by (apply Nat.eqb_neq; lia).
  exists covs. split.
  - unfold local_covariance. rewrite Hfit. unfold bind at 1, ret at 1.
    unfold bind at 1. rewrite E. cbn [app].
    destruct (Nat.eqb (shape1 data) 1); reflexivity.
  - split; [ rewrite Hlen, length_seq; reflexivity | exact Hall ].
Qed.

Lemma local_covariance_one_per_row_witness :
  exists covs,
    local_covariance (fun _ _ _ => Ok [0; 1]%nat) (of_rows [[0; 1]; [2; 5]]) 2
                     {| trace := []; draws := 0 |}
    = (Ok (NoiseMatrices covs), {| trace := []; draws := 0 |})
    /\ length covs = 2%nat
    /\ Forall (fun c => shape0 c = 2%nat /\ shape1 c = 2%nat
                        /\ forall a b, item c a b = item c b a) covs.
Proof.
  apply (local_covariance_one_per_row (fun _ _ _ => Ok [0; 1]%nat)
           (of_rows [[0; 1]; [2; 5]]) 2 {| trace := []; draws := 0 |}).
  - simpl. lia.
  - intros i _. exists [0; 1]%nat. reflexivity.
Defined.

(** The first neighbour query that fails aborts [local_covariance] with
    that exception; nothing is returned for the rows already done. *)
Theorem local_covariance_first_failure :
  forall (kneighbors : ndarray -> Z -> nat -> outcome (list nat)) data k w i e,
    (i < shape0 data)%nat ->
    (forall j, (j < i)%nat -> exists idx, kneighbors data k j = Ok idx) ->
    kneighbors data k i = Raise e ->
    local_covariance kneighbors data k w = (Raise e, w).
Proof.
  intros kneighbors data k w i e Hi Hbefore Hfail.
  assert (Hsplit : seq 0 (shape0 data) = seq 0 i ++ i :: seq (S i) (shape0 data - S i)).
  { replace (shape0 data) with (i + S (shape0 data - S i))%nat at 1 by lia.
    rewrite seq_app. reflexivity. }
  destruct (covariance_loop kneighbors data k (seq 0 i) [] w) as (covs & E & _ & _).
  { intros j Hj. apply in_seq in Hj. apply Hbefore. lia. }
  assert (Hfit : Nat.eqb (shape0 data) 0 = false) by (apply Nat.eqb_neq; lia).
  unfold local_covariance. rewrite Hfit. unfold bind at 1, ret at 1.
  unfold bind at 1.
  rewrite Hsplit, for_each_app, E.
  cbn [for_each]. unfold bind at 1. unfold bind at 1, lift at 1. rewrite Hfail.
  reflexivity.
Qed.

Lemma local_covariance_first_failure_witness :
  local_covariance
    (fun _ _ i => if Nat.eqb i 1 then Raise (ValueError "Expected n_neighbors <= n_samples_fit")
                  else Ok [0]%nat)
    (of_rows [[0]; [1]; [2]]) 5 {| trace := []; draws := 0 |}
  = (Raise (ValueError "Expected n_neighbors <= n_samples_fit"),
     {| trace := []; draws := 0 |}).
Proof.
  apply (local_covariance_first_failure _ _ _ _ 1%nat).
  - simpl. lia.
  - intros j Hj. assert (j = 0%nat) by lia. subst j. exists [0]%nat. reflexivity.
  - reflexivity.
Defined.

(** ** numpts followed by generate, as sugar chains them *)

Lemma Zsum_has_nonzero :
  forall zs, Zsum zs <> 0%Z -> exists z, In z zs /\ z <> 0%Z.
Proof.
  induction zs as [ | z zs IH]; intros H; [ contradiction H; reflexivity | ].
  change (Zsum (z :: zs)) with (z + Zsum zs)%Z in H.
  destruct (Z.eq_dec z 0) as [E | E].
  - destruct IH as (y & Hy & Hy0); [ lia | ].
    exists y. split; [ right; exact Hy | exact Hy0 ].
  - exists z. split; [ left; reflexivity | exact E ].
Qed.



(** ** numpts: density equalization with a scalar noise covariance *)

Lemma equalize_factor_positive :
  forall s c d,
    c <> 0 ->
    let ratio := (s * s + c * c) / (2 * (c * c)) in
    let F := if Z.eqb d 0 then 1 else Rpower ratio (IZR d / 2) in
    equalize_factor (Fin s) (Fin c) d = Fin F /\ 0 < F.
Proof.
  intros s c d Hc ratio F.
  assert (Hcc : 0 < c * c) by nra.
  assert (Hratio : 0 < ratio).
  { unfold ratio. apply Rdiv_lt_0_compat; nra. }
  unfold equalize_factor. rewrite !fpow_2, !fmul_Fin, fadd_Fin.
  rewrite fdiv_Fin by nra.
  replace ((1 * s * s + 1 * c * c) / (2 * (1 * c * c))) with ratio
    by (unfold ratio; field; exact Hc).
  unfold fpowr, F.
  destruct (Z.eqb_spec d 0) as [-> | Hd].
  - rewrite Rzero_true by (simpl; lra). split; [ reflexivity | lra ].
  - assert (IZR d / 2 <> 0).
    { intros E. apply Hd. apply eq_IZR. simpl (IZR 0). lra. }
    rewrite Rzero_false by assumption.
    rewrite Rzero_false by lra. rewrite Rneg_false by lra.
    split; [ reflexivity | apply exp_pos ].
Qed.


